(** * PhysicalFixedBatchCopy: the fixed-size batch copy-to-file operator

    A shallow embedding of
    [src/execution/operator/persistent/physical_fixed_batch_copy.cpp].

    The operator is modelled sequentially: one call runs to completion before
    the next one starts, so the mutexes of the C++ code have no counterpart and
    every [atomic<T>] is a plain field.  [idx_t] is a 64-bit unsigned integer,
    represented by [Z] with the wrap-around of every arithmetic operation
    written out ([wrap]).  Exceptions are values of [Res]. *)

From Stdlib Require Import ZArith List String Bool Lia Sorted.
Import ListNotations.

Local Open Scope Z_scope.

(** ** Machine integers *)

Definition idx_t := Z.

Definition IDX_MODULUS : Z := 2 ^ 64.

(** Reduction of an arithmetic result to 64 unsigned bits. *)
Definition wrap (x : Z) : idx_t := x mod IDX_MODULUS.

(** [int64_t(x)]: the two's complement reading of 64 bits. *)
Definition to_int64 (x : Z) : Z := (x + 2 ^ 63) mod IDX_MODULUS - 2 ^ 63.

(** [NumericLimits<int64_t>::Maximum()]. *)
Definition INT64_MAXIMUM : Z := 2 ^ 63 - 1.

Definition idx_range (x : Z) : Prop := 0 <= x < IDX_MODULUS.

(** Modelled from the spec: the macro [STANDARD_VECTOR_SIZE] is defined outside
    the translated file; the spec fixes the vector width at 2048 rows. *)
Definition STANDARD_VECTOR_SIZE : Z := 2048.

(** ** Exceptions and results *)

(** [InternalException] is what the operator itself throws,
    [CallbackException] stands for whatever a callback of the copy function
    throws, and [UndefinedBehaviour] for a call through a null function pointer
    or a division by zero. *)
Inductive Exception : Type :=
| InternalException (msg : string)
| CallbackException (msg : string)
| UndefinedBehaviour (what : string).

(** The result of running a piece of the operator: a value, a thrown
    exception, or a loop that was cut off by its iteration budget. *)
Inductive Res (A : Type) : Type :=
| Ok (a : A)
| Throw (e : Exception)
| OutOfFuel.

Arguments Ok {A} a.
Arguments Throw {A} e.
Arguments OutOfFuel {A}.

Definition bind {A B : Type} (c : Res A) (k : A -> Res B) : Res B :=
  match c with
  | Ok a => k a
  | Throw e => Throw e
  | OutOfFuel => OutOfFuel
  end.

Notation "x <- c ;; k" := (bind c (fun x => k))
  (at level 61, c at next level, right associativity).
Notation "' pat <- c ;; k" := (bind c (fun x => match x with pat => k end))
  (at level 61, pat pattern, c at next level, right associativity).

(** What a callback of the copy function does: it returns or it throws. *)
Inductive Outcome (A : Type) : Type :=
| Returns (a : A)
| Raises (e : Exception).

Arguments Returns {A} a.
Arguments Raises {A} e.

Definition run {A : Type} (o : Outcome A) : Res A :=
  match o with
  | Returns a => Ok a
  | Raises e => Throw e
  end.

(** [optional_idx::GetIndex]. *)
Definition GetIndex (i : option idx_t) : Res idx_t :=
  match i with
  | Some v => Ok v
  | None => Throw (InternalException "Attempting to get the index of an optional_idx that is not set")
  end.

(** ** Ordered maps keyed by batch index ([std::map<idx_t, V>]) *)

Module OrderedMap.

(** Entries in ascending key order; [begin()] is the head of the list. *)
Definition t (V : Type) : Type := list (idx_t * V).

(** [std::map::insert]: an existing key is left alone and reported by
    [false] in the second component. *)
Fixpoint insert {V : Type} (k : idx_t) (v : V) (m : t V) : t V * bool :=
  match m with
  | [] => ([(k, v)], true)
  | (k', v') :: rest =>
      if k <? k' then ((k, v) :: m, true)
      else if k =? k' then (m, false)
      else let (rest', fresh) := insert k v rest in ((k', v') :: rest', fresh)
  end.

(** [m[k] = v]: insert or overwrite. *)
Fixpoint assign {V : Type} (k : idx_t) (v : V) (m : t V) : t V :=
  match m with
  | [] => [(k, v)]
  | (k', v') :: rest =>
      if k <? k' then (k, v) :: m
      else if k =? k' then (k, v) :: rest
      else (k', v') :: assign k v rest
  end.

Definition keys {V : Type} (m : t V) : list idx_t := map fst m.

(** The representation invariant of the tree: strictly ascending keys. *)
Definition sorted {V : Type} (m : t V) : Prop := StronglySorted Z.lt (keys m).

End OrderedMap.

(** ** Chunk collections *)

(** A [DataChunk] is represented by its cardinality ([chunk.size()]): the
    operator never looks at the rows themselves. *)
Definition DataChunk := Z.

(** Modelled from the spec: [ColumnDataCollection] is defined outside the
    translated file.  Following the spec's data model it is an ordered sequence
    of chunks that supports append and iteration; [Count()] is the number of
    rows it holds. *)
Definition ColumnDataCollection := list DataChunk.

(** Modelled from the spec: [ColumnDataCollection::Count], the number of rows
    held (a collection does not get near [2 ^ 64] rows, so the sum is not
    reduced). *)
Definition Count (c : ColumnDataCollection) : idx_t := fold_right Z.add 0 c.

(** Modelled from the spec: [ColumnDataCollection::Append]; a chunk is
    immutable after it was appended, so the collection keeps it as it came. *)
Definition Append (c : ColumnDataCollection) (chunk : DataChunk) : ColumnDataCollection :=
  c ++ [chunk].

(** Modelled from the spec: [ColumnDataCollection::Chunks], the iteration over
    the chunks in order. *)
Definition Chunks (c : ColumnDataCollection) : list DataChunk := c.

(** [ColumnDataCollection::SizeInBytes], defined outside the translated file:
    the operator is parametric in it. *)
Class CollectionSize : Type := SizeInBytes : ColumnDataCollection -> idx_t.

(** ** The memory broker ([TemporaryMemoryState]) *)

(** The reservation handle is an external collaborator; the operator only
    calls these two methods.  A reservation is an [idx_t]. *)
Class MemoryBroker (M : Type) : Type := {
  SetRemainingSize : M -> idx_t -> M;
  GetReservation : M -> idx_t;
  GetReservation_range : forall m, idx_range (GetReservation m)
}.

Record ClientContext : Type := {
  (** [BufferManager::GetBufferManager(context).GetQueryMaxMemory()] *)
  GetQueryMaxMemory : idx_t;
  (** [TaskScheduler::GetScheduler(context).NumberOfThreads()] *)
  NumberOfThreads : nat
}.

Inductive InterruptState : Type := Interrupt (producer : nat).

Inductive FixedBatchCopyState : Type := SINKING_DATA | PROCESSING_TASKS.

Inductive SinkResultType : Type := NEED_MORE_INPUT | BLOCKED.

Inductive SinkFinalizeType : Type := READY.

(** [BatchCopyTask] and its two subclasses. *)
Inductive BatchCopyTask : Type :=
| RepartitionedFlushTask
| PrepareBatchTask (batch_index : idx_t) (collection : ColumnDataCollection).

Section Operator.

(** The opaque types of the copy function: bind data, global function data
    and the artifact returned by [prepare_batch]. *)
Context {FunctionData GlobalFunctionData PreparedBatchData : Type}.

(** The state of the memory broker and its interface. *)
Context {TemporaryMemoryState : Type} {broker : MemoryBroker TemporaryMemoryState}.

Context {collection_bytes : CollectionSize}.

(** ** The copy function and the operator *)

(** The callbacks are function pointers; [None] is the null pointer. *)
Record CopyFunction : Type := {
  desired_batch_size : option (FunctionData -> idx_t);
  prepare_batch :
    option (FunctionData -> GlobalFunctionData -> ColumnDataCollection
            -> Outcome PreparedBatchData);
  flush_batch :
    option (FunctionData -> GlobalFunctionData -> PreparedBatchData
            -> Outcome GlobalFunctionData);
  copy_to_finalize :
    option (FunctionData -> GlobalFunctionData -> Outcome GlobalFunctionData)
}.

Record PhysicalFixedBatchCopy : Type := {
  function : CopyFunction;
  bind_data : FunctionData;
  use_tmp_file : bool;
  (** [children[0]->types.size()] *)
  column_count : idx_t
}.

(** [!pointer]. *)
Definition is_null {A : Type} (p : option A) : bool :=
  match p with Some _ => false | None => true end.

(** The constructor [PhysicalFixedBatchCopy::PhysicalFixedBatchCopy]. *)
Definition make_PhysicalFixedBatchCopy (function_p : CopyFunction) (bind_data_p : FunctionData)
    (use_tmp_file_p : bool) (columns : idx_t) : Res PhysicalFixedBatchCopy :=
  if is_null (flush_batch function_p) || is_null (prepare_batch function_p)
     || is_null (desired_batch_size function_p)
  then Throw (InternalException
         "PhysicalFixedBatchCopy created for copy function that does not have prepare_batch/flush_batch/desired_batch_size defined")
  else Ok {| function := function_p; bind_data := bind_data_p;
             use_tmp_file := use_tmp_file_p; column_count := columns |}.

(** A call through a function pointer; through a null pointer it is undefined
    behaviour. *)
Definition call {A : Type} (p : option A) : Res A :=
  match p with
  | Some f => Ok f
  | None => Throw (UndefinedBehaviour "call through a null function pointer")
  end.

(** ** States *)

Record FixedPreparedBatchData : Type := {
  memory_usage : idx_t;
  prepared_data : PreparedBatchData
}.

Record FixedBatchCopyGlobalState : Type := {
  context : ClientContext;
  (** The total number of rows copied to the file *)
  rows_copied : idx_t;
  (** Global copy state *)
  global_state : GlobalFunctionData;
  (** The desired batch size (if any) *)
  batch_size : idx_t;
  (** Unpartitioned batches *)
  raw_batches : OrderedMap.t ColumnDataCollection;
  (** The prepared batch data by batch index - ready to flush *)
  batch_data : OrderedMap.t FixedPreparedBatchData;
  (** The index of the latest batch index that has been scheduled *)
  scheduled_batch_index : idx_t;
  (** The index of the latest batch index that has been flushed *)
  flushed_batch_index : idx_t;
  (** Whether or not any thread is flushing *)
  any_flushing : bool;
  (** Whether or not any threads are finished *)
  any_finished : bool;
  (** Temporary memory state *)
  memory_state : TemporaryMemoryState;
  (** Minimum memory per thread *)
  minimum_memory_per_thread : idx_t;
  (** Total memory usage of unflushed rows *)
  unflushed_memory_usage : idx_t;
  (** Minimum batch size *)
  min_batch_index : idx_t;
  (** The available memory for unflushed rows *)
  available_memory : idx_t;
  (** The set of blocked tasks *)
  blocked_tasks : list InterruptState;
  (** Whether or not we can request additional memory *)
  can_increase_memory : bool;
  (** The task queue for the batch copy to file *)
  task_queue : list BatchCopyTask;
  (** Ghost field: the key of every entry handed to [flush_batch], in call order *)
  flush_trace : list idx_t;
  (** Ghost field: [copy_to_finalize] has been called *)
  finalized : bool;
  (** Ghost field: [PhysicalCopyToFile::MoveTmpFile] has been called *)
  tmp_file_moved : bool
}.

(** Field updates ([g.field = v]). *)
Definition set_context (v : ClientContext) (g : FixedBatchCopyGlobalState)
  : FixedBatchCopyGlobalState :=
  {| context := v; rows_copied := rows_copied g; global_state := global_state g;
     batch_size := batch_size g; raw_batches := raw_batches g; batch_data := batch_data g;
     scheduled_batch_index := scheduled_batch_index g;
     flushed_batch_index := flushed_batch_index g; any_flushing := any_flushing g;
     any_finished := any_finished g; memory_state := memory_state g;
     minimum_memory_per_thread := minimum_memory_per_thread g;
     unflushed_memory_usage := unflushed_memory_usage g; min_batch_index := min_batch_index g;
     available_memory := available_memory g; blocked_tasks := blocked_tasks g;
     can_increase_memory := can_increase_memory g; task_queue := task_queue g;
     flush_trace := flush_trace g; finalized := finalized g;
     tmp_file_moved := tmp_file_moved g |}.

Definition set_rows_copied (v : idx_t) (g : FixedBatchCopyGlobalState)
  : FixedBatchCopyGlobalState :=
  {| context := context g; rows_copied := v; global_state := global_state g;
     batch_size := batch_size g; raw_batches := raw_batches g; batch_data := batch_data g;
     scheduled_batch_index := scheduled_batch_index g;
     flushed_batch_index := flushed_batch_index g; any_flushing := any_flushing g;
     any_finished := any_finished g; memory_state := memory_state g;
     minimum_memory_per_thread := minimum_memory_per_thread g;
     unflushed_memory_usage := unflushed_memory_usage g; min_batch_index := min_batch_index g;
     available_memory := available_memory g; blocked_tasks := blocked_tasks g;
     can_increase_memory := can_increase_memory g; task_queue := task_queue g;
     flush_trace := flush_trace g; finalized := finalized g;
     tmp_file_moved := tmp_file_moved g |}.

Definition set_global_state (v : GlobalFunctionData) (g : FixedBatchCopyGlobalState)
  : FixedBatchCopyGlobalState :=
  {| context := context g; rows_copied := rows_copied g; global_state := v;
     batch_size := batch_size g; raw_batches := raw_batches g; batch_data := batch_data g;
     scheduled_batch_index := scheduled_batch_index g;
     flushed_batch_index := flushed_batch_index g; any_flushing := any_flushing g;
     any_finished := any_finished g; memory_state := memory_state g;
     minimum_memory_per_thread := minimum_memory_per_thread g;
     unflushed_memory_usage := unflushed_memory_usage g; min_batch_index := min_batch_index g;
     available_memory := available_memory g; blocked_tasks := blocked_tasks g;
     can_increase_memory := can_increase_memory g; task_queue := task_queue g;
     flush_trace := flush_trace g; finalized := finalized g;
     tmp_file_moved := tmp_file_moved g |}.

Definition set_batch_size (v : idx_t) (g : FixedBatchCopyGlobalState)
  : FixedBatchCopyGlobalState :=
  {| context := context g; rows_copied := rows_copied g; global_state := global_state g;
     batch_size := v; raw_batches := raw_batches g; batch_data := batch_data g;
     scheduled_batch_index := scheduled_batch_index g;
     flushed_batch_index := flushed_batch_index g; any_flushing := any_flushing g;
     any_finished := any_finished g; memory_state := memory_state g;
     minimum_memory_per_thread := minimum_memory_per_thread g;
     unflushed_memory_usage := unflushed_memory_usage g; min_batch_index := min_batch_index g;
     available_memory := available_memory g; blocked_tasks := blocked_tasks g;
     can_increase_memory := can_increase_memory g; task_queue := task_queue g;
     flush_trace := flush_trace g; finalized := finalized g;
     tmp_file_moved := tmp_file_moved g |}.

Definition set_raw_batches (v : OrderedMap.t ColumnDataCollection) (g : FixedBatchCopyGlobalState)
  : FixedBatchCopyGlobalState :=
  {| context := context g; rows_copied := rows_copied g; global_state := global_state g;
     batch_size := batch_size g; raw_batches := v; batch_data := batch_data g;
     scheduled_batch_index := scheduled_batch_index g;
     flushed_batch_index := flushed_batch_index g; any_flushing := any_flushing g;
     any_finished := any_finished g; memory_state := memory_state g;
     minimum_memory_per_thread := minimum_memory_per_thread g;
     unflushed_memory_usage := unflushed_memory_usage g; min_batch_index := min_batch_index g;
     available_memory := available_memory g; blocked_tasks := blocked_tasks g;
     can_increase_memory := can_increase_memory g; task_queue := task_queue g;
     flush_trace := flush_trace g; finalized := finalized g;
     tmp_file_moved := tmp_file_moved g |}.

Definition set_batch_data (v : OrderedMap.t FixedPreparedBatchData) (g : FixedBatchCopyGlobalState)
  : FixedBatchCopyGlobalState :=
  {| context := context g; rows_copied := rows_copied g; global_state := global_state g;
     batch_size := batch_size g; raw_batches := raw_batches g; batch_data := v;
     scheduled_batch_index := scheduled_batch_index g;
     flushed_batch_index := flushed_batch_index g; any_flushing := any_flushing g;
     any_finished := any_finished g; memory_state := memory_state g;
     minimum_memory_per_thread := minimum_memory_per_thread g;
     unflushed_memory_usage := unflushed_memory_usage g; min_batch_index := min_batch_index g;
     available_memory := available_memory g; blocked_tasks := blocked_tasks g;
     can_increase_memory := can_increase_memory g; task_queue := task_queue g;
     flush_trace := flush_trace g; finalized := finalized g;
     tmp_file_moved := tmp_file_moved g |}.

Definition set_scheduled_batch_index (v : idx_t) (g : FixedBatchCopyGlobalState)
  : FixedBatchCopyGlobalState :=
  {| context := context g; rows_copied := rows_copied g; global_state := global_state g;
     batch_size := batch_size g; raw_batches := raw_batches g; batch_data := batch_data g;
     scheduled_batch_index := v; flushed_batch_index := flushed_batch_index g;
     any_flushing := any_flushing g; any_finished := any_finished g;
     memory_state := memory_state g; minimum_memory_per_thread := minimum_memory_per_thread g;
     unflushed_memory_usage := unflushed_memory_usage g; min_batch_index := min_batch_index g;
     available_memory := available_memory g; blocked_tasks := blocked_tasks g;
     can_increase_memory := can_increase_memory g; task_queue := task_queue g;
     flush_trace := flush_trace g; finalized := finalized g;
     tmp_file_moved := tmp_file_moved g |}.

Definition set_flushed_batch_index (v : idx_t) (g : FixedBatchCopyGlobalState)
  : FixedBatchCopyGlobalState :=
  {| context := context g; rows_copied := rows_copied g; global_state := global_state g;
     batch_size := batch_size g; raw_batches := raw_batches g; batch_data := batch_data g;
     scheduled_batch_index := scheduled_batch_index g; flushed_batch_index := v;
     any_flushing := any_flushing g; any_finished := any_finished g;
     memory_state := memory_state g; minimum_memory_per_thread := minimum_memory_per_thread g;
     unflushed_memory_usage := unflushed_memory_usage g; min_batch_index := min_batch_index g;
     available_memory := available_memory g; blocked_tasks := blocked_tasks g;
     can_increase_memory := can_increase_memory g; task_queue := task_queue g;
     flush_trace := flush_trace g; finalized := finalized g;
     tmp_file_moved := tmp_file_moved g |}.

Definition set_any_flushing (v : bool) (g : FixedBatchCopyGlobalState)
  : FixedBatchCopyGlobalState :=
  {| context := context g; rows_copied := rows_copied g; global_state := global_state g;
     batch_size := batch_size g; raw_batches := raw_batches g; batch_data := batch_data g;
     scheduled_batch_index := scheduled_batch_index g;
     flushed_batch_index := flushed_batch_index g; any_flushing := v;
     any_finished := any_finished g; memory_state := memory_state g;
     minimum_memory_per_thread := minimum_memory_per_thread g;
     unflushed_memory_usage := unflushed_memory_usage g; min_batch_index := min_batch_index g;
     available_memory := available_memory g; blocked_tasks := blocked_tasks g;
     can_increase_memory := can_increase_memory g; task_queue := task_queue g;
     flush_trace := flush_trace g; finalized := finalized g;
     tmp_file_moved := tmp_file_moved g |}.

Definition set_any_finished (v : bool) (g : FixedBatchCopyGlobalState)
  : FixedBatchCopyGlobalState :=
  {| context := context g; rows_copied := rows_copied g; global_state := global_state g;
     batch_size := batch_size g; raw_batches := raw_batches g; batch_data := batch_data g;
     scheduled_batch_index := scheduled_batch_index g;
     flushed_batch_index := flushed_batch_index g; any_flushing := any_flushing g;
     any_finished := v; memory_state := memory_state g;
     minimum_memory_per_thread := minimum_memory_per_thread g;
     unflushed_memory_usage := unflushed_memory_usage g; min_batch_index := min_batch_index g;
     available_memory := available_memory g; blocked_tasks := blocked_tasks g;
     can_increase_memory := can_increase_memory g; task_queue := task_queue g;
     flush_trace := flush_trace g; finalized := finalized g;
     tmp_file_moved := tmp_file_moved g |}.

Definition set_memory_state (v : TemporaryMemoryState) (g : FixedBatchCopyGlobalState)
  : FixedBatchCopyGlobalState :=
  {| context := context g; rows_copied := rows_copied g; global_state := global_state g;
     batch_size := batch_size g; raw_batches := raw_batches g; batch_data := batch_data g;
     scheduled_batch_index := scheduled_batch_index g;
     flushed_batch_index := flushed_batch_index g; any_flushing := any_flushing g;
     any_finished := any_finished g; memory_state := v;
     minimum_memory_per_thread := minimum_memory_per_thread g;
     unflushed_memory_usage := unflushed_memory_usage g; min_batch_index := min_batch_index g;
     available_memory := available_memory g; blocked_tasks := blocked_tasks g;
     can_increase_memory := can_increase_memory g; task_queue := task_queue g;
     flush_trace := flush_trace g; finalized := finalized g;
     tmp_file_moved := tmp_file_moved g |}.

Definition set_minimum_memory_per_thread (v : idx_t) (g : FixedBatchCopyGlobalState)
  : FixedBatchCopyGlobalState :=
  {| context := context g; rows_copied := rows_copied g; global_state := global_state g;
     batch_size := batch_size g; raw_batches := raw_batches g; batch_data := batch_data g;
     scheduled_batch_index := scheduled_batch_index g;
     flushed_batch_index := flushed_batch_index g; any_flushing := any_flushing g;
     any_finished := any_finished g; memory_state := memory_state g;
     minimum_memory_per_thread := v; unflushed_memory_usage := unflushed_memory_usage g;
     min_batch_index := min_batch_index g; available_memory := available_memory g;
     blocked_tasks := blocked_tasks g; can_increase_memory := can_increase_memory g;
     task_queue := task_queue g; flush_trace := flush_trace g; finalized := finalized g;
     tmp_file_moved := tmp_file_moved g |}.

Definition set_unflushed_memory_usage (v : idx_t) (g : FixedBatchCopyGlobalState)
  : FixedBatchCopyGlobalState :=
  {| context := context g; rows_copied := rows_copied g; global_state := global_state g;
     batch_size := batch_size g; raw_batches := raw_batches g; batch_data := batch_data g;
     scheduled_batch_index := scheduled_batch_index g;
     flushed_batch_index := flushed_batch_index g; any_flushing := any_flushing g;
     any_finished := any_finished g; memory_state := memory_state g;
     minimum_memory_per_thread := minimum_memory_per_thread g; unflushed_memory_usage := v;
     min_batch_index := min_batch_index g; available_memory := available_memory g;
     blocked_tasks := blocked_tasks g; can_increase_memory := can_increase_memory g;
     task_queue := task_queue g; flush_trace := flush_trace g; finalized := finalized g;
     tmp_file_moved := tmp_file_moved g |}.

Definition set_min_batch_index (v : idx_t) (g : FixedBatchCopyGlobalState)
  : FixedBatchCopyGlobalState :=
  {| context := context g; rows_copied := rows_copied g; global_state := global_state g;
     batch_size := batch_size g; raw_batches := raw_batches g; batch_data := batch_data g;
     scheduled_batch_index := scheduled_batch_index g;
     flushed_batch_index := flushed_batch_index g; any_flushing := any_flushing g;
     any_finished := any_finished g; memory_state := memory_state g;
     minimum_memory_per_thread := minimum_memory_per_thread g;
     unflushed_memory_usage := unflushed_memory_usage g; min_batch_index := v;
     available_memory := available_memory g; blocked_tasks := blocked_tasks g;
     can_increase_memory := can_increase_memory g; task_queue := task_queue g;
     flush_trace := flush_trace g; finalized := finalized g;
     tmp_file_moved := tmp_file_moved g |}.

Definition set_available_memory (v : idx_t) (g : FixedBatchCopyGlobalState)
  : FixedBatchCopyGlobalState :=
  {| context := context g; rows_copied := rows_copied g; global_state := global_state g;
     batch_size := batch_size g; raw_batches := raw_batches g; batch_data := batch_data g;
     scheduled_batch_index := scheduled_batch_index g;
     flushed_batch_index := flushed_batch_index g; any_flushing := any_flushing g;
     any_finished := any_finished g; memory_state := memory_state g;
     minimum_memory_per_thread := minimum_memory_per_thread g;
     unflushed_memory_usage := unflushed_memory_usage g; min_batch_index := min_batch_index g;
     available_memory := v; blocked_tasks := blocked_tasks g;
     can_increase_memory := can_increase_memory g; task_queue := task_queue g;
     flush_trace := flush_trace g; finalized := finalized g;
     tmp_file_moved := tmp_file_moved g |}.

Definition set_blocked_tasks (v : list InterruptState) (g : FixedBatchCopyGlobalState)
  : FixedBatchCopyGlobalState :=
  {| context := context g; rows_copied := rows_copied g; global_state := global_state g;
     batch_size := batch_size g; raw_batches := raw_batches g; batch_data := batch_data g;
     scheduled_batch_index := scheduled_batch_index g;
     flushed_batch_index := flushed_batch_index g; any_flushing := any_flushing g;
     any_finished := any_finished g; memory_state := memory_state g;
     minimum_memory_per_thread := minimum_memory_per_thread g;
     unflushed_memory_usage := unflushed_memory_usage g; min_batch_index := min_batch_index g;
     available_memory := available_memory g; blocked_tasks := v;
     can_increase_memory := can_increase_memory g; task_queue := task_queue g;
     flush_trace := flush_trace g; finalized := finalized g;
     tmp_file_moved := tmp_file_moved g |}.

Definition set_can_increase_memory (v : bool) (g : FixedBatchCopyGlobalState)
  : FixedBatchCopyGlobalState :=
  {| context := context g; rows_copied := rows_copied g; global_state := global_state g;
     batch_size := batch_size g; raw_batches := raw_batches g; batch_data := batch_data g;
     scheduled_batch_index := scheduled_batch_index g;
     flushed_batch_index := flushed_batch_index g; any_flushing := any_flushing g;
     any_finished := any_finished g; memory_state := memory_state g;
     minimum_memory_per_thread := minimum_memory_per_thread g;
     unflushed_memory_usage := unflushed_memory_usage g; min_batch_index := min_batch_index g;
     available_memory := available_memory g; blocked_tasks := blocked_tasks g;
     can_increase_memory := v; task_queue := task_queue g; flush_trace := flush_trace g;
     finalized := finalized g; tmp_file_moved := tmp_file_moved g |}.

Definition set_task_queue (v : list BatchCopyTask) (g : FixedBatchCopyGlobalState)
  : FixedBatchCopyGlobalState :=
  {| context := context g; rows_copied := rows_copied g; global_state := global_state g;
     batch_size := batch_size g; raw_batches := raw_batches g; batch_data := batch_data g;
     scheduled_batch_index := scheduled_batch_index g;
     flushed_batch_index := flushed_batch_index g; any_flushing := any_flushing g;
     any_finished := any_finished g; memory_state := memory_state g;
     minimum_memory_per_thread := minimum_memory_per_thread g;
     unflushed_memory_usage := unflushed_memory_usage g; min_batch_index := min_batch_index g;
     available_memory := available_memory g; blocked_tasks := blocked_tasks g;
     can_increase_memory := can_increase_memory g; task_queue := v;
     flush_trace := flush_trace g; finalized := finalized g;
     tmp_file_moved := tmp_file_moved g |}.

Definition set_flush_trace (v : list idx_t) (g : FixedBatchCopyGlobalState)
  : FixedBatchCopyGlobalState :=
  {| context := context g; rows_copied := rows_copied g; global_state := global_state g;
     batch_size := batch_size g; raw_batches := raw_batches g; batch_data := batch_data g;
     scheduled_batch_index := scheduled_batch_index g;
     flushed_batch_index := flushed_batch_index g; any_flushing := any_flushing g;
     any_finished := any_finished g; memory_state := memory_state g;
     minimum_memory_per_thread := minimum_memory_per_thread g;
     unflushed_memory_usage := unflushed_memory_usage g; min_batch_index := min_batch_index g;
     available_memory := available_memory g; blocked_tasks := blocked_tasks g;
     can_increase_memory := can_increase_memory g; task_queue := task_queue g;
     flush_trace := v; finalized := finalized g; tmp_file_moved := tmp_file_moved g |}.

Definition set_finalized (v : bool) (g : FixedBatchCopyGlobalState) : FixedBatchCopyGlobalState :=
  {| context := context g; rows_copied := rows_copied g; global_state := global_state g;
     batch_size := batch_size g; raw_batches := raw_batches g; batch_data := batch_data g;
     scheduled_batch_index := scheduled_batch_index g;
     flushed_batch_index := flushed_batch_index g; any_flushing := any_flushing g;
     any_finished := any_finished g; memory_state := memory_state g;
     minimum_memory_per_thread := minimum_memory_per_thread g;
     unflushed_memory_usage := unflushed_memory_usage g; min_batch_index := min_batch_index g;
     available_memory := available_memory g; blocked_tasks := blocked_tasks g;
     can_increase_memory := can_increase_memory g; task_queue := task_queue g;
     flush_trace := flush_trace g; finalized := v; tmp_file_moved := tmp_file_moved g |}.

Definition set_tmp_file_moved (v : bool) (g : FixedBatchCopyGlobalState)
  : FixedBatchCopyGlobalState :=
  {| context := context g; rows_copied := rows_copied g; global_state := global_state g;
     batch_size := batch_size g; raw_batches := raw_batches g; batch_data := batch_data g;
     scheduled_batch_index := scheduled_batch_index g;
     flushed_batch_index := flushed_batch_index g; any_flushing := any_flushing g;
     any_finished := any_finished g; memory_state := memory_state g;
     minimum_memory_per_thread := minimum_memory_per_thread g;
     unflushed_memory_usage := unflushed_memory_usage g; min_batch_index := min_batch_index g;
     available_memory := available_memory g; blocked_tasks := blocked_tasks g;
     can_increase_memory := can_increase_memory g; task_queue := task_queue g;
     flush_trace := flush_trace g; finalized := finalized g; tmp_file_moved := v |}.

Record FixedBatchCopyLocalState : Type := {
  (** The current collection we are appending to (None is the null pointer) *)
  collection : option ColumnDataCollection;
  (** How many rows have been copied in total ([rows_copied] of the local state) *)
  local_rows_copied : idx_t;
  (** Memory usage of the thread-local collection *)
  local_memory_usage : idx_t;
  (** The current batch index *)
  batch_index : option idx_t;
  (** Current task *)
  current_task : FixedBatchCopyState;
  (** [partition_info.batch_index], set by the executor *)
  partition_batch_index : option idx_t;
  (** [partition_info.min_batch_index], set by the executor *)
  partition_min_batch_index : option idx_t
}.

Definition set_collection (v : option ColumnDataCollection) (l : FixedBatchCopyLocalState)
  : FixedBatchCopyLocalState :=
  {| collection := v; local_rows_copied := local_rows_copied l;
     local_memory_usage := local_memory_usage l; batch_index := batch_index l;
     current_task := current_task l; partition_batch_index := partition_batch_index l;
     partition_min_batch_index := partition_min_batch_index l |}.

Definition set_local_rows_copied (v : idx_t) (l : FixedBatchCopyLocalState)
  : FixedBatchCopyLocalState :=
  {| collection := collection l; local_rows_copied := v;
     local_memory_usage := local_memory_usage l; batch_index := batch_index l;
     current_task := current_task l; partition_batch_index := partition_batch_index l;
     partition_min_batch_index := partition_min_batch_index l |}.

Definition set_local_memory_usage (v : idx_t) (l : FixedBatchCopyLocalState)
  : FixedBatchCopyLocalState :=
  {| collection := collection l; local_rows_copied := local_rows_copied l;
     local_memory_usage := v; batch_index := batch_index l; current_task := current_task l;
     partition_batch_index := partition_batch_index l;
     partition_min_batch_index := partition_min_batch_index l |}.

Definition set_batch_index (v : option idx_t) (l : FixedBatchCopyLocalState)
  : FixedBatchCopyLocalState :=
  {| collection := collection l; local_rows_copied := local_rows_copied l;
     local_memory_usage := local_memory_usage l; batch_index := v;
     current_task := current_task l; partition_batch_index := partition_batch_index l;
     partition_min_batch_index := partition_min_batch_index l |}.

Definition set_current_task (v : FixedBatchCopyState) (l : FixedBatchCopyLocalState)
  : FixedBatchCopyLocalState :=
  {| collection := collection l; local_rows_copied := local_rows_copied l;
     local_memory_usage := local_memory_usage l; batch_index := batch_index l;
     current_task := v; partition_batch_index := partition_batch_index l;
     partition_min_batch_index := partition_min_batch_index l |}.

Definition set_partition_batch_index (v : option idx_t) (l : FixedBatchCopyLocalState)
  : FixedBatchCopyLocalState :=
  {| collection := collection l; local_rows_copied := local_rows_copied l;
     local_memory_usage := local_memory_usage l; batch_index := batch_index l;
     current_task := current_task l; partition_batch_index := v;
     partition_min_batch_index := partition_min_batch_index l |}.

Definition set_partition_min_batch_index (v : option idx_t) (l : FixedBatchCopyLocalState)
  : FixedBatchCopyLocalState :=
  {| collection := collection l; local_rows_copied := local_rows_copied l;
     local_memory_usage := local_memory_usage l; batch_index := batch_index l;
     current_task := current_task l; partition_batch_index := partition_batch_index l;
     partition_min_batch_index := v |}.

(** ** Methods of the global state *)

(** heuristic - we need at least 4MB of cache space per column per thread we launch *)
Definition MINIMUM_MEMORY_PER_COLUMN_PER_THREAD : idx_t := 4 * 1024 * 1024.

Definition SetMemorySize (g : FixedBatchCopyGlobalState) (size : idx_t)
  : FixedBatchCopyGlobalState :=
  (* request at most 1/4th of all available memory *)
  let total_max_memory := GetQueryMaxMemory (context g) in
  let request_cap := total_max_memory / 4 in
  let size := Z.min size request_cap in
  if size <=? available_memory g then g
  else
    let g := set_memory_state (SetRemainingSize (memory_state g) size) g in
    let next_reservation := GetReservation (memory_state g) in
    let g :=
      if available_memory g >=? next_reservation
      then (* we tried to ask for more memory but were declined: stop asking *)
           set_can_increase_memory false g
      else g in
    set_available_memory next_reservation g.

Definition IncreaseMemory (g : FixedBatchCopyGlobalState) : FixedBatchCopyGlobalState :=
  if negb (can_increase_memory g) then g
  else SetMemorySize g (wrap (available_memory g * 2)).

(** [alternative_verify] is the build flag [DUCKDB_ALTERNATIVE_VERIFY]; regular
    builds have it off. *)
Definition OutOfMemory (alternative_verify : bool) (g : FixedBatchCopyGlobalState)
    (batch_index : idx_t) : bool * FixedBatchCopyGlobalState :=
  if alternative_verify then (true, g)
  else if unflushed_memory_usage g >=? available_memory g then
    if batch_index >? min_batch_index g then
      (* exceeded available memory and we are not the minimum batch index - try to increase it *)
      let g := IncreaseMemory g in
      if unflushed_memory_usage g >=? available_memory g
      then (true, g)   (* STILL out of memory *)
      else (false, g)
    else (false, g)
  else (false, g).

Definition AddTask (task : BatchCopyTask) (g : FixedBatchCopyGlobalState)
  : FixedBatchCopyGlobalState :=
  set_task_queue (task_queue g ++ [task]) g.

Definition GetTask (g : FixedBatchCopyGlobalState)
  : option BatchCopyTask * FixedBatchCopyGlobalState :=
  match task_queue g with
  | [] => (None, g)
  | entry :: rest => (Some entry, set_task_queue rest g)
  end.

Definition TaskCount (g : FixedBatchCopyGlobalState) : idx_t :=
  Z.of_nat (List.length (task_queue g)).

Definition AddBatchData (g : FixedBatchCopyGlobalState) (batch_index : idx_t)
    (new_batch : PreparedBatchData) (memory_usage_p : idx_t) : Res FixedBatchCopyGlobalState :=
  (* move the batch data to the set of prepared batch data *)
  let prepared := {| memory_usage := memory_usage_p; prepared_data := new_batch |} in
  let (m, fresh) := OrderedMap.insert batch_index prepared (batch_data g) in
  if negb fresh
  then Throw (InternalException "Duplicate batch index %llu encountered in PhysicalFixedBatchCopy")
  else Ok (set_batch_data m g).

Definition BlockTask (state : InterruptState) (g : FixedBatchCopyGlobalState)
  : FixedBatchCopyGlobalState :=
  set_blocked_tasks (blocked_tasks g ++ [state]) g.

(** The callbacks of the interrupt states wake tasks of the external
    scheduler; they leave the state of the operator alone. *)
Definition UnblockTasksInternal (g : FixedBatchCopyGlobalState)
  : bool * FixedBatchCopyGlobalState :=
  match blocked_tasks g with
  | [] => (false, g)
  | _ :: _ => (true, set_blocked_tasks [] g)
  end.

Definition UnblockTasks (g : FixedBatchCopyGlobalState) : bool * FixedBatchCopyGlobalState :=
  UnblockTasksInternal g.

Definition UpdateMinBatchIndex (g : FixedBatchCopyGlobalState) (current_min_batch_index : idx_t)
  : FixedBatchCopyGlobalState :=
  if min_batch_index g >=? current_min_batch_index then g
  else
    let new_batch_index := Z.max (min_batch_index g) current_min_batch_index in
    if negb (new_batch_index =? min_batch_index g)
    then (* new batch index! unblock all tasks *)
         snd (UnblockTasksInternal (set_min_batch_index new_batch_index g))
    else g.

Definition MaxThreads (g : FixedBatchCopyGlobalState) (source_max_threads : idx_t)
  : Res (idx_t * FixedBatchCopyGlobalState) :=
  (* try to request 4MB per column per thread *)
  let g := SetMemorySize g (wrap (source_max_threads * minimum_memory_per_thread g)) in
  (* cap the concurrent threads working on this task based on the amount of available memory *)
  if minimum_memory_per_thread g =? 0
  then Throw (UndefinedBehaviour "division by zero")
  else Ok (Z.min source_max_threads
                 (wrap (available_memory g / minimum_memory_per_thread g + 1)), g).

Definition InitializeCollection (l : FixedBatchCopyLocalState) : FixedBatchCopyLocalState :=
  set_local_memory_usage 0 (set_collection (Some []) l).

(** ** Flushing prepared batches *)

(** The body of the [while (true)] loop of [FlushBatchData].  [entries] is
    [gstate.batch_data] as the iteration finds it; the loop removes its head
    each time round, which is what the recursion descends on. *)
Fixpoint FlushBatchData_loop (op : PhysicalFixedBatchCopy)
    (entries : OrderedMap.t FixedPreparedBatchData) (g : FixedBatchCopyGlobalState)
  : Res FixedBatchCopyGlobalState :=
  match entries with
  | [] => (* no batch data left to flush *)
      Ok (set_batch_data [] g)
  | (first, second) :: rest =>
      if negb (first =? flushed_batch_index g)
      then (* this entry is not yet ready to be flushed *)
           Ok (set_batch_data entries g)
      else if first <? flushed_batch_index g
      then Throw (InternalException "Batch index was out of order!?")
      else
        let g := set_batch_data rest g in
        flush <- call (flush_batch (function op)) ;;
        gs <- run (flush (bind_data op) (global_state g) (prepared_data second)) ;;
        let g := set_flush_trace (flush_trace g ++ [first]) (set_global_state gs g) in
        let g := set_unflushed_memory_usage
                   (wrap (unflushed_memory_usage g - memory_usage second)) g in
        let g := set_flushed_batch_index (wrap (flushed_batch_index g + 1)) g in
        FlushBatchData_loop op rest g
  end.

(** [min_index] is a parameter of the C++ function that its body never reads. *)
Definition FlushBatchData (op : PhysicalFixedBatchCopy) (g : FixedBatchCopyGlobalState)
    (min_index : idx_t) : Res FixedBatchCopyGlobalState :=
  if any_flushing g then Ok g
  else
    let g := set_any_flushing true g in
    g <- FlushBatchData_loop op (batch_data g) g ;;
    (* ~ActiveFlushGuard *)
    Ok (set_any_flushing false g).

(** ** Tasks *)

(** [BatchCopyTask::Execute], by subclass. *)
Definition Execute (op : PhysicalFixedBatchCopy) (task : BatchCopyTask)
    (g : FixedBatchCopyGlobalState) : Res FixedBatchCopyGlobalState :=
  match task with
  | RepartitionedFlushTask => FlushBatchData op g 0
  | PrepareBatchTask batch_index collection =>
      let memory_usage := SizeInBytes collection in
      prepare <- call (prepare_batch (function op)) ;;
      batch_data <- run (prepare (bind_data op) (global_state g) collection) ;;
      g <- AddBatchData g batch_index batch_data memory_usage ;;
      if batch_index =? flushed_batch_index g
      then Ok (AddTask RepartitionedFlushTask g)
      else Ok g
  end.

Definition ExecuteTask (op : PhysicalFixedBatchCopy) (g : FixedBatchCopyGlobalState)
  : Res (bool * FixedBatchCopyGlobalState) :=
  match GetTask g with
  | (None, g) => Ok (false, g)
  | (Some task, g) => g <- Execute op task g ;; Ok (true, g)
  end.

(** An upper bound on the number of tasks that an empty-until-drained loop can
    still execute: a prepare task may enqueue one flush task, a flush task
    enqueues nothing. *)
Definition task_weight (task : BatchCopyTask) : nat :=
  match task with
  | RepartitionedFlushTask => 1
  | PrepareBatchTask _ _ => 2
  end.

Definition task_budget (g : FixedBatchCopyGlobalState) : nat :=
  S (list_sum (map task_weight (task_queue g))).

(** [while (ExecuteTask(context, gstate_p)) {}] with an iteration budget. *)
Fixpoint ExecuteTasks_loop (fuel : nat) (op : PhysicalFixedBatchCopy)
    (g : FixedBatchCopyGlobalState) : Res FixedBatchCopyGlobalState :=
  match fuel with
  | O => OutOfFuel
  | S fuel =>
      '(executed, g) <- ExecuteTask op g ;;
      if executed then ExecuteTasks_loop fuel op g else Ok g
  end.

Definition ExecuteTasks (op : PhysicalFixedBatchCopy) (g : FixedBatchCopyGlobalState)
  : Res FixedBatchCopyGlobalState :=
  ExecuteTasks_loop (task_budget g) op g.

(** ** Batch data handling *)

Definition AddRawBatchData (g : FixedBatchCopyGlobalState) (batch_index : idx_t)
    (collection : ColumnDataCollection) : Res FixedBatchCopyGlobalState :=
  (* add the batch index to the set of raw batches *)
  let (m, fresh) := OrderedMap.insert batch_index collection (raw_batches g) in
  if negb fresh
  then Throw (InternalException "Duplicate batch index %llu encountered in PhysicalFixedBatchCopy")
  else Ok (set_raw_batches m g).

Definition CorrectSizeForBatch (collection_size desired_size : idx_t) : bool :=
  wrap (Z.abs (to_int64 (to_int64 collection_size - to_int64 desired_size)))
  <? STANDARD_VECTOR_SIZE.

(** The loop that sums the rows of the raw batches below [min_index]. *)
Fixpoint candidate_rows_loop (min_index : idx_t) (entries : OrderedMap.t ColumnDataCollection)
    (candidate_rows : idx_t) : idx_t :=
  match entries with
  | [] => candidate_rows
  | (first, second) :: rest =>
      if first >=? min_index
      then (* we have exceeded the minimum batch *) candidate_rows
      else candidate_rows_loop min_index rest (wrap (candidate_rows + Count second))
  end.

(** The loop that gathers all collections we can repartition; it returns
    [max_batch_index], [collections] and what is left of [raw_batches]. *)
Fixpoint gather_loop (min_index : idx_t) (entries : OrderedMap.t ColumnDataCollection)
    (max_batch_index : idx_t) (collections : list ColumnDataCollection)
  : idx_t * list ColumnDataCollection * OrderedMap.t ColumnDataCollection :=
  match entries with
  | [] => (max_batch_index, collections, [])
  | (first, second) :: rest =>
      if first >=? min_index then (max_batch_index, collections, entries)
      else gather_loop min_index rest first (collections ++ [second])
  end.

(** [gstate.AddTask(make_uniq<PrepareBatchTask>(gstate.scheduled_batch_index++, collection))] *)
Definition schedule_batch (collection : ColumnDataCollection) (g : FixedBatchCopyGlobalState)
  : FixedBatchCopyGlobalState :=
  let index := scheduled_batch_index g in
  AddTask (PrepareBatchTask index collection)
          (set_scheduled_batch_index (wrap (index + 1)) g).

(** The inner loop: iterate the collection while appending. *)
Fixpoint append_chunks (chunks : list DataChunk) (current_collection : ColumnDataCollection)
    (g : FixedBatchCopyGlobalState) : ColumnDataCollection * FixedBatchCopyGlobalState :=
  match chunks with
  | [] => (current_collection, g)
  | chunk :: rest =>
      (* append the chunk to the collection *)
      let current_collection := Append current_collection chunk in
      if Count current_collection <? batch_size g
      then (* the collection is still under the batch size - continue *)
           append_chunks rest current_collection g
      else (* the collection is full - move it to the result and create a new one *)
           append_chunks rest [] (schedule_batch current_collection g)
  end.

(** The outer loop: now perform the actual repartitioning. *)
Fixpoint repartition_loop (collections : list ColumnDataCollection)
    (current_collection : option ColumnDataCollection) (g : FixedBatchCopyGlobalState)
  : option ColumnDataCollection * FixedBatchCopyGlobalState :=
  match collections with
  | [] => (current_collection, g)
  | collection :: rest =>
      match current_collection with
      | None =>
          if CorrectSizeForBatch (Count collection) (batch_size g)
          then (* the collection is ~approximately equal to the batch size: use it directly *)
               repartition_loop rest None (schedule_batch collection g)
          else if Count collection <? batch_size g
          then (* the collection is smaller than the batch size - use it as a starting point *)
               repartition_loop rest (Some collection) g
          else (* the collection is too large for a batch - we need to repartition *)
               let (current, g) := append_chunks (Chunks collection) [] g in
               repartition_loop rest (Some current) g
      | Some current =>
          let (current, g) := append_chunks (Chunks collection) current g in
          repartition_loop rest (Some current) g
      end
  end.

Definition RepartitionBatches (g : FixedBatchCopyGlobalState) (min_index : idx_t)
    (final : bool) : FixedBatchCopyGlobalState :=
  (* repartition batches until the min index is reached *)
  match raw_batches g with
  | [] => g
  | _ :: _ =>
      if negb final && any_finished g then g
      else if negb final
              && (candidate_rows_loop min_index (raw_batches g) 0 <? batch_size g)
      then (* not enough rows - cancel! *) g
      else
        (* gather all collections we can repartition *)
        let '(max_batch_index, collections, remaining) :=
          gather_loop min_index (raw_batches g) 0 [] in
        let g := set_raw_batches remaining g in
        let (current_collection, g) := repartition_loop collections None g in
        match current_collection with
        | Some current =>
            if Count current >? 0 then
              if final || CorrectSizeForBatch (Count current) (batch_size g)
              then schedule_batch current g
              else set_raw_batches (OrderedMap.assign max_batch_index current (raw_batches g)) g
            else g
        | None => g
        end
  end.

(** ** Sink *)

(** The tail of [Sink]: append the chunk to the local collection. *)
Definition Sink_append (g : FixedBatchCopyGlobalState) (l : FixedBatchCopyLocalState)
    (batch_index : idx_t) (chunk : DataChunk)
  : Res (SinkResultType * FixedBatchCopyGlobalState * FixedBatchCopyLocalState) :=
  let l := match collection l with
           | None => set_batch_index (Some batch_index) (InitializeCollection l)
           | Some _ => l
           end in
  let l := set_local_rows_copied (wrap (local_rows_copied l + chunk)) l in
  let appended := Append (match collection l with Some c => c | None => [] end) chunk in
  let l := set_collection (Some appended) l in
  let new_memory_usage := SizeInBytes appended in
  if new_memory_usage >? local_memory_usage l then
    (* memory usage increased - add to global state *)
    let g := set_unflushed_memory_usage
               (wrap (unflushed_memory_usage g + (new_memory_usage - local_memory_usage l))) g in
    Ok (NEED_MORE_INPUT, g, set_local_memory_usage new_memory_usage l)
  else if new_memory_usage <? local_memory_usage l then
    Throw (InternalException "PhysicalFixedBatchCopy - memory usage decreased somehow?")
  else Ok (NEED_MORE_INPUT, g, set_local_memory_usage new_memory_usage l).

(** [Sink] calls itself after switching to [PROCESSING_TASKS]; [fuel] bounds
    the depth of that recursion. *)
Fixpoint Sink (fuel : nat) (alternative_verify : bool) (op : PhysicalFixedBatchCopy)
    (g : FixedBatchCopyGlobalState) (l : FixedBatchCopyLocalState) (chunk : DataChunk)
    (interrupt_state : InterruptState)
  : Res (SinkResultType * FixedBatchCopyGlobalState * FixedBatchCopyLocalState) :=
  match fuel with
  | O => OutOfFuel
  | S fuel =>
      batch_index <- GetIndex (partition_batch_index l) ;;
      '(blocked, g, l) <-
        match current_task l with
        | PROCESSING_TASKS =>
            g <- ExecuteTasks op g ;;
            g <- FlushBatchData op g (min_batch_index g) ;;
            if batch_index >? min_batch_index g then
              let (out_of_memory, g) := OutOfMemory alternative_verify g batch_index in
              if out_of_memory && (batch_index >? min_batch_index g)
              then (* no tasks to process, we are not the minimum batch index and we have
                      no memory available to buffer: block the task for now *)
                   Ok (true, BlockTask interrupt_state g, l)
              else Ok (false, g, set_current_task SINKING_DATA l)
            else Ok (false, g, set_current_task SINKING_DATA l)
        | SINKING_DATA => Ok (false, g, l)
        end ;;
      if blocked : bool then Ok (BLOCKED, g, l)
      else if batch_index >? min_batch_index g then
        partition_min <- GetIndex (partition_min_batch_index l) ;;
        let g := UpdateMinBatchIndex g partition_min in
        (* we are not processing the current min batch index:
           check if we have exceeded the maximum number of unflushed rows *)
        let (out_of_memory, g) := OutOfMemory alternative_verify g batch_index in
        if out_of_memory
        then (* out-of-memory - stop sinking chunks and instead assist in processing tasks *)
             Sink fuel alternative_verify op g (set_current_task PROCESSING_TASKS l)
                  chunk interrupt_state
        else Sink_append g l batch_index chunk
      else Sink_append g l batch_index chunk
  end.

Definition Combine (op : PhysicalFixedBatchCopy) (g : FixedBatchCopyGlobalState)
    (l : FixedBatchCopyLocalState) : Res FixedBatchCopyGlobalState :=
  let g := set_rows_copied (wrap (rows_copied g + local_rows_copied l)) g in
  let g := if negb (any_finished g) then set_any_finished true g else g in
  partition_min <- GetIndex (partition_min_batch_index l) ;;
  let g := UpdateMinBatchIndex g partition_min in
  ExecuteTasks op g.

(** ** Finalize *)

Definition FinalFlush (op : PhysicalFixedBatchCopy) (g : FixedBatchCopyGlobalState)
  : Res FixedBatchCopyGlobalState :=
  if negb (TaskCount g =? 0)
  then Throw (InternalException
                "Unexecuted tasks are remaining in PhysicalFixedBatchCopy::FinalFlush!?")
  else
    let min_batch_index := INT64_MAXIMUM in
    g <- FlushBatchData op g min_batch_index ;;
    if negb (scheduled_batch_index g =? flushed_batch_index g)
    then Throw (InternalException "Not all batches were flushed to disk - incomplete file?")
    else
      match copy_to_finalize (function op) with
      | Some finalize =>
          gs <- run (finalize (bind_data op) (global_state g)) ;;
          let g := set_finalized true (set_global_state gs g) in
          if use_tmp_file op then Ok (set_tmp_file_moved true g) else Ok g
      | None => Ok g
      end.

(** The loop of [ProcessRemainingBatchesTask::ExecuteTask]. *)
Fixpoint ProcessRemainingBatchesTask_loop (fuel : nat) (op : PhysicalFixedBatchCopy)
    (g : FixedBatchCopyGlobalState) : Res FixedBatchCopyGlobalState :=
  match fuel with
  | O => OutOfFuel
  | S fuel =>
      '(executed, g) <- ExecuteTask op g ;;
      if executed
      then g <- FlushBatchData op g 0 ;; ProcessRemainingBatchesTask_loop fuel op g
      else Ok g
  end.

Definition ProcessRemainingBatchesTask (op : PhysicalFixedBatchCopy)
    (g : FixedBatchCopyGlobalState) : Res FixedBatchCopyGlobalState :=
  ProcessRemainingBatchesTask_loop (task_budget g) op g.

(** [ProcessRemainingBatchesEvent]: [Schedule] creates one task per thread of
    the scheduler and [FinishEvent] runs once they are done.  The tasks are run
    one after the other here. *)
Fixpoint run_event_tasks (threads : nat) (op : PhysicalFixedBatchCopy)
    (g : FixedBatchCopyGlobalState) : Res FixedBatchCopyGlobalState :=
  match threads with
  | O => Ok g
  | S threads => g <- ProcessRemainingBatchesTask op g ;; run_event_tasks threads op g
  end.

Definition ProcessRemainingBatchesEvent (op : PhysicalFixedBatchCopy)
    (g : FixedBatchCopyGlobalState) : Res FixedBatchCopyGlobalState :=
  g <- run_event_tasks (NumberOfThreads (context g)) op g ;;
  FinalFlush op g.

(** [Finalize] returns [READY] in both cases; the boolean tells whether it
    inserted a [ProcessRemainingBatchesEvent] for the executor to run. *)
Definition Finalize (op : PhysicalFixedBatchCopy) (g : FixedBatchCopyGlobalState)
  : Res (SinkFinalizeType * bool * FixedBatchCopyGlobalState) :=
  let min_batch_index := INT64_MAXIMUM in
  (* repartition any remaining batches *)
  let g := RepartitionBatches g min_batch_index true in
  (* check if we have multiple tasks to execute *)
  if TaskCount g <=? 1 then
    (* we don't - just execute the remaining task and finish flushing to disk *)
    g <- ExecuteTasks op g ;;
    g <- FinalFlush op g ;;
    Ok (READY, false, g)
  else
    (* we have multiple tasks remaining - launch an event to execute the tasks in parallel *)
    Ok (READY, true, g).

(** ** Next batch *)

Definition NextBatch (op : PhysicalFixedBatchCopy) (g : FixedBatchCopyGlobalState)
    (l : FixedBatchCopyLocalState)
  : Res (FixedBatchCopyGlobalState * FixedBatchCopyLocalState) :=
  '(g, l) <-
    match collection l with
    | Some held =>
        if Count held >? 0 then
          (* we finished processing this batch: start flushing data *)
          min_batch_index_l <- GetIndex (partition_min_batch_index l) ;;
          (* push the raw batch data into the set of unprocessed batches *)
          index <- GetIndex (batch_index l) ;;
          g <- AddRawBatchData g index held ;;
          let l := set_collection None l in
          (* attempt to repartition to our desired batch size *)
          let g := RepartitionBatches g min_batch_index_l false in
          (* unblock tasks so they can help process batches (if any are blocked) *)
          let (any_unblocked, g) := UnblockTasks g in
          if negb any_unblocked then
            (* Execute a single repartition task *)
            '(_, g) <- ExecuteTask op g ;;
            (* Flush batch data to disk (if any is ready) *)
            g <- FlushBatchData op g (min_batch_index g) ;;
            Ok (g, l)
          else Ok (g, l)
        else Ok (g, l)
    | None => Ok (g, l)
    end ;;
  partition_min <- GetIndex (partition_min_batch_index l) ;;
  let g := UpdateMinBatchIndex g partition_min in
  index <- GetIndex (partition_batch_index l) ;;
  let l := set_batch_index (Some index) l in
  Ok (g, InitializeCollection l).

(** [GetGlobalSinkState].  [global_state_p] is what [copy_to_initialize_global]
    returned and [memory_state_p] what [TemporaryMemoryManager::Register]
    returned.  The constructor of [FixedBatchCopyGlobalState] has no
    initialiser for [available_memory], and [SetMemorySize] reads that field
    before anything has written it: [indeterminate_memory] is the value it
    finds there.  ([minimum_memory_per_thread] has no initialiser either, but
    is assigned before it is read.) *)
Definition GetGlobalSinkState (op : PhysicalFixedBatchCopy) (context_p : ClientContext)
    (global_state_p : GlobalFunctionData) (memory_state_p : TemporaryMemoryState)
    (indeterminate_memory : idx_t)
  : Res FixedBatchCopyGlobalState :=
  let result :=
    {| context := context_p; rows_copied := 0; global_state := global_state_p;
       batch_size := 0; raw_batches := []; batch_data := [];
       scheduled_batch_index := 0; flushed_batch_index := 0;
       any_flushing := false; any_finished := false;
       memory_state := memory_state_p; minimum_memory_per_thread := 0;
       unflushed_memory_usage := 0; min_batch_index := 0;
       available_memory := indeterminate_memory;
       blocked_tasks := []; can_increase_memory := true; task_queue := [];
       flush_trace := []; finalized := false; tmp_file_moved := false |} in
  size_of <- call (desired_batch_size (function op)) ;;
  let result := set_batch_size (size_of (bind_data op)) result in
  (* request memory based on the minimum amount of memory per column *)
  let result := set_minimum_memory_per_thread
                  (wrap (MINIMUM_MEMORY_PER_COLUMN_PER_THREAD * column_count op)) result in
  Ok (SetMemorySize result (minimum_memory_per_thread result)).

(** [GetLocalSinkState]. *)
Definition GetLocalSinkState : FixedBatchCopyLocalState :=
  {| collection := None; local_rows_copied := 0; local_memory_usage := 0;
     batch_index := None; current_task := SINKING_DATA;
     partition_batch_index := None; partition_min_batch_index := None |}.

(** [GetData]: the single output row, [Value::BIGINT(g.rows_copied)]. *)
Definition GetData (g : FixedBatchCopyGlobalState) : Z := to_int64 (rows_copied g).

(** ** Vocabulary of the properties *)

(** The two errors of [FinalFlush]. *)
Definition unexecuted_tasks_error : Exception :=
  InternalException "Unexecuted tasks are remaining in PhysicalFixedBatchCopy::FinalFlush!?".

Definition incomplete_file_error : Exception :=
  InternalException "Not all batches were flushed to disk - incomplete file?".

(** A quarter of the query memory, the most [SetMemorySize] asks for. *)
Definition request_cap (g : FixedBatchCopyGlobalState) : idx_t :=
  GetQueryMaxMemory (context g) / 4.





(** A prepare task. *)
Definition is_prepare (task : BatchCopyTask) : Prop :=
  match task with
  | PrepareBatchTask _ _ => True
  | RepartitionedFlushTask => False
  end.



(** The sum of [Count()] over the raw entries with key below [min_index], as
    the spec words it. *)
Definition rows_below (min_index : idx_t) (entries : OrderedMap.t ColumnDataCollection) : Z :=
  fold_right Z.add 0
    (map (fun e => Count (snd e)) (filter (fun e => fst e <? min_index) entries)).


(** The weight of a task queue, which every executed task lowers. *)
Definition queue_weight (q : list BatchCopyTask) : nat := list_sum (map task_weight q).

(** The entry of a map under a key, if there is one ([std::map::find]). *)
Fixpoint lookup {V : Type} (k : idx_t) (m : OrderedMap.t V) : option V :=
  match m with
  | [] => None
  | (k', v) :: rest => if k =? k' then Some v else lookup k rest
  end.

(** The collection a task carries, and its batch index. *)
Definition task_collection (task : BatchCopyTask) : ColumnDataCollection :=
  match task with
  | PrepareBatchTask _ c => c
  | RepartitionedFlushTask => []
  end.

Definition task_index (task : BatchCopyTask) : idx_t :=
  match task with
  | PrepareBatchTask index _ => index
  | RepartitionedFlushTask => 0
  end.

(** The [n] integers from [first] on. *)
Definition consecutive (first : Z) (n : nat) : list Z :=
  map (fun i => first + Z.of_nat i) (seq 0 n).

(** The sink has seen the batches [0, 1, 2, ...] in this order, one flush
    each, and [flushed_batch_index] counts them (as 64-bit integers). *)
Definition flush_order_ok (g : FixedBatchCopyGlobalState) : Prop :=
  flush_trace g = map (fun i => wrap (Z.of_nat i)) (seq 0 (List.length (flush_trace g)))
  /\ flushed_batch_index g = wrap (Z.of_nat (List.length (flush_trace g))).

(** The chunks of a map of collections, in key order. *)
Definition all_chunks (m : OrderedMap.t ColumnDataCollection) : list DataChunk :=
  List.concat (map snd m).


(** The error of [AddBatchData] and [AddRawBatchData]. *)
Definition duplicate_batch_index_error : Exception :=
  InternalException "Duplicate batch index %llu encountered in PhysicalFixedBatchCopy".

(** What the execution of tasks leaves alone: everything but the prepared
    batches, the flush counters, the memory in use, the sink and the queue. *)
Definition tasks_frame (g g' : FixedBatchCopyGlobalState) : Prop :=
  context g' = context g
  /\ rows_copied g' = rows_copied g
  /\ batch_size g' = batch_size g
  /\ raw_batches g' = raw_batches g
  /\ scheduled_batch_index g' = scheduled_batch_index g
  /\ any_finished g' = any_finished g
  /\ memory_state g' = memory_state g
  /\ minimum_memory_per_thread g' = minimum_memory_per_thread g
  /\ min_batch_index g' = min_batch_index g
  /\ available_memory g' = available_memory g
  /\ blocked_tasks g' = blocked_tasks g
  /\ can_increase_memory g' = can_increase_memory g
  /\ finalized g' = finalized g
  /\ tmp_file_moved g' = tmp_file_moved g.

(** What a memory request leaves alone: everything but the broker state, the
    granted memory and the flag that stops further requests. *)
Definition memory_frame (g g' : FixedBatchCopyGlobalState) : Prop :=
  context g' = context g
  /\ rows_copied g' = rows_copied g
  /\ global_state g' = global_state g
  /\ batch_size g' = batch_size g
  /\ raw_batches g' = raw_batches g
  /\ batch_data g' = batch_data g
  /\ scheduled_batch_index g' = scheduled_batch_index g
  /\ flushed_batch_index g' = flushed_batch_index g
  /\ any_flushing g' = any_flushing g
  /\ any_finished g' = any_finished g
  /\ minimum_memory_per_thread g' = minimum_memory_per_thread g
  /\ unflushed_memory_usage g' = unflushed_memory_usage g
  /\ min_batch_index g' = min_batch_index g
  /\ blocked_tasks g' = blocked_tasks g
  /\ task_queue g' = task_queue g
  /\ flush_trace g' = flush_trace g
  /\ finalized g' = finalized g
  /\ tmp_file_moved g' = tmp_file_moved g.

(** The collection a producer holds, the empty one for the null pointer. *)
Definition held (l : FixedBatchCopyLocalState) : ColumnDataCollection :=
  match collection l with
  | Some c => c
  | None => []
  end.

(** The local state of a producer that [Sink] told [BLOCKED]: the chunk was
    not taken, and the producer is in task-processing mode. *)
Definition chunk_refused (l l' : FixedBatchCopyLocalState) : Prop :=
  collection l' = collection l
  /\ local_rows_copied l' = local_rows_copied l
  /\ local_memory_usage l' = local_memory_usage l
  /\ batch_index l' = batch_index l
  /\ current_task l' = PROCESSING_TASKS
  /\ partition_batch_index l' = partition_batch_index l
  /\ partition_min_batch_index l' = partition_min_batch_index l.

(** The local state of a producer that [Sink] told [NEED_MORE_INPUT]: the
    chunk is the last one of its collection. *)
Definition chunk_taken (l : FixedBatchCopyLocalState) (chunk : DataChunk)
    (l' : FixedBatchCopyLocalState) : Prop :=
  collection l' = Some (Append (held l) chunk)
  /\ local_rows_copied l' = wrap (local_rows_copied l + chunk)
  /\ local_memory_usage l' = SizeInBytes (Append (held l) chunk)
  /\ batch_index l' = match collection l with
                      | Some _ => batch_index l
                      | None => partition_batch_index l
                      end
  /\ current_task l' = SINKING_DATA
  /\ partition_batch_index l' = partition_batch_index l
  /\ partition_min_batch_index l' = partition_min_batch_index l.

(** The error of [Sink] for a local collection that shrank. *)
Definition memory_decreased_error : Exception :=
  InternalException "PhysicalFixedBatchCopy - memory usage decreased somehow?".

(** What repartitioning leaves alone: everything but the raw batches, the
    scheduling counter and the task queue. *)
Definition repartition_frame (g g' : FixedBatchCopyGlobalState) : Prop :=
  context g' = context g
  /\ rows_copied g' = rows_copied g
  /\ global_state g' = global_state g
  /\ batch_size g' = batch_size g
  /\ batch_data g' = batch_data g
  /\ flushed_batch_index g' = flushed_batch_index g
  /\ any_flushing g' = any_flushing g
  /\ any_finished g' = any_finished g
  /\ memory_state g' = memory_state g
  /\ minimum_memory_per_thread g' = minimum_memory_per_thread g
  /\ unflushed_memory_usage g' = unflushed_memory_usage g
  /\ min_batch_index g' = min_batch_index g
  /\ available_memory g' = available_memory g
  /\ blocked_tasks g' = blocked_tasks g
  /\ can_increase_memory g' = can_increase_memory g
  /\ flush_trace g' = flush_trace g
  /\ finalized g' = finalized g
  /\ tmp_file_moved g' = tmp_file_moved g.

(** The accumulator of the repartitioning loop as a list of chunks, empty for
    the null pointer. *)
Definition accumulated (current : option ColumnDataCollection) : ColumnDataCollection :=
  match current with
  | Some c => c
  | None => []
  end.

(** The tasks [new] were appended to the queue with the batch indices that
    follow [scheduled], as long as the 64-bit counter does not overflow. *)
Definition numbered_from (scheduled : idx_t) (new : list BatchCopyTask)
    (scheduled' : idx_t) : Prop :=
  0 <= scheduled -> scheduled + Z.of_nat (List.length new) < IDX_MODULUS ->
  map task_index new = consecutive scheduled (List.length new)
  /\ scheduled' = scheduled + Z.of_nat (List.length new).

(** What a call of [RepartitionBatches] achieves: it only appends prepare
    tasks, numbered densely from [scheduled_batch_index]; on a sorted map of
    non-empty chunks the chunks of the new tasks followed by the chunks left in
    the map are the chunks that were in the map, in their order; and a final
    call with every key below [min_index] empties the map. *)
Definition repartition_post (g : FixedBatchCopyGlobalState) (min_index : idx_t)
    (final : bool) (g' : FixedBatchCopyGlobalState) : Prop :=
  repartition_frame g g'
  /\ exists new,
      task_queue g' = task_queue g ++ new
      /\ Forall is_prepare new
      /\ numbered_from (scheduled_batch_index g) new (scheduled_batch_index g')
      /\ (OrderedMap.sorted (raw_batches g) ->
          Forall (fun chunk => 0 < chunk) (all_chunks (raw_batches g)) ->
          List.concat (map task_collection new) ++ all_chunks (raw_batches g')
          = all_chunks (raw_batches g)
          /\ OrderedMap.sorted (raw_batches g'))
      /\ (final = true ->
          Forall (fun k => k < min_index) (OrderedMap.keys (raw_batches g)) ->
          raw_batches g' = []).


(** One call of the sink interface that returns, as the executor makes them:
    the global state before and after. *)
Inductive sink_step (op : PhysicalFixedBatchCopy)
  : FixedBatchCopyGlobalState -> FixedBatchCopyGlobalState -> Prop :=
| step_MaxThreads (g : FixedBatchCopyGlobalState) (source_max_threads threads : idx_t)
    (g' : FixedBatchCopyGlobalState) :
    MaxThreads g source_max_threads = Ok (threads, g') -> sink_step op g g'
| step_Sink (fuel : nat) (alternative_verify : bool) (g : FixedBatchCopyGlobalState)
    (l : FixedBatchCopyLocalState) (chunk : DataChunk) (interrupt_state : InterruptState)
    (r : SinkResultType) (g' : FixedBatchCopyGlobalState) (l' : FixedBatchCopyLocalState) :
    Sink fuel alternative_verify op g l chunk interrupt_state = Ok (r, g', l') ->
    sink_step op g g'
| step_NextBatch (g : FixedBatchCopyGlobalState) (l : FixedBatchCopyLocalState)
    (g' : FixedBatchCopyGlobalState) (l' : FixedBatchCopyLocalState) :
    NextBatch op g l = Ok (g', l') -> sink_step op g g'
| step_Combine (g : FixedBatchCopyGlobalState) (l : FixedBatchCopyLocalState)
    (g' : FixedBatchCopyGlobalState) :
    Combine op g l = Ok g' -> sink_step op g g'
| step_Finalize (g : FixedBatchCopyGlobalState) (r : SinkFinalizeType) (inserted : bool)
    (g' : FixedBatchCopyGlobalState) :
    Finalize op g = Ok (r, inserted, g') -> sink_step op g g'
| step_Event (g g' : FixedBatchCopyGlobalState) :
    ProcessRemainingBatchesEvent op g = Ok g' -> sink_step op g g'.

(** Any number of such calls, one after the other. *)
Inductive sink_steps (op : PhysicalFixedBatchCopy)
  : FixedBatchCopyGlobalState -> FixedBatchCopyGlobalState -> Prop :=
| steps_none (g : FixedBatchCopyGlobalState) : sink_steps op g g
| steps_more (g g' g'' : FixedBatchCopyGlobalState) :
    sink_steps op g g' -> sink_step op g' g'' -> sink_steps op g g''.

(** The life of one producer: its local state and the rows of the chunks
    [Sink] has taken from it so far.  The executor sets the partition indices
    between the calls; the global state at each call is whatever the other
    producers have left. *)
Inductive producer_history (op : PhysicalFixedBatchCopy)
  : FixedBatchCopyLocalState -> Z -> Prop :=
| history_start : producer_history op GetLocalSinkState 0
| history_partition (l : FixedBatchCopyLocalState) (rows : Z) (index min_index : idx_t) :
    producer_history op l rows ->
    producer_history op
      (set_partition_min_batch_index (Some min_index)
         (set_partition_batch_index (Some index) l)) rows
| history_NextBatch (l : FixedBatchCopyLocalState) (rows : Z)
    (g g' : FixedBatchCopyGlobalState) (l' : FixedBatchCopyLocalState) :
    producer_history op l rows ->
    NextBatch op g l = Ok (g', l') ->
    producer_history op l' rows
| history_Sink_taken (l : FixedBatchCopyLocalState) (rows : Z) (fuel : nat)
    (alternative_verify : bool) (g g' : FixedBatchCopyGlobalState) (chunk : DataChunk)
    (interrupt_state : InterruptState) (l' : FixedBatchCopyLocalState) :
    producer_history op l rows ->
    Sink fuel alternative_verify op g l chunk interrupt_state = Ok (NEED_MORE_INPUT, g', l') ->
    producer_history op l' (rows + chunk)
| history_Sink_blocked (l : FixedBatchCopyLocalState) (rows : Z) (fuel : nat)
    (alternative_verify : bool) (g g' : FixedBatchCopyGlobalState) (chunk : DataChunk)
    (interrupt_state : InterruptState) (l' : FixedBatchCopyLocalState) :
    producer_history op l rows ->
    Sink fuel alternative_verify op g l chunk interrupt_state = Ok (BLOCKED, g', l') ->
    producer_history op l' rows.

(** The local state [NextBatch] hands back for the batch [index]. *)
Definition fresh_batch (index : idx_t) (l : FixedBatchCopyLocalState)
  : FixedBatchCopyLocalState :=
  set_local_memory_usage 0 (set_collection (Some []) (set_batch_index (Some index) l)).

(** The batch indices of the prepare tasks of a queue, in queue order. *)
Definition pending_indices (queue : list BatchCopyTask) : list idx_t :=
  flat_map (fun task => match task with
                        | PrepareBatchTask index _ => [index]
                        | RepartitionedFlushTask => []
                        end) queue.

(** The order in which batch indices travel: with [flushed] and [scheduled]
    the two counters, [keys] the keys of the prepared batches and [pending]
    the indices of the queued prepare tasks, every index that is prepared or
    pending lies in [flushed, scheduled), and no index is there twice. *)
Definition order_ok (flushed scheduled : Z) (keys pending : list idx_t) : Prop :=
  0 <= flushed <= scheduled /\ scheduled < IDX_MODULUS
  /\ StronglySorted Z.lt keys
  /\ Forall (fun k => flushed <= k < scheduled) keys
  /\ Forall (fun k => flushed <= k < scheduled) pending
  /\ NoDup pending
  /\ (forall k, In k pending -> ~ In k keys).

Definition batch_order_ok (g : FixedBatchCopyGlobalState) : Prop :=
  order_ok (flushed_batch_index g) (scheduled_batch_index g)
           (OrderedMap.keys (batch_data g)) (pending_indices (task_queue g)).

(** The four fields the order of the batches lives in are the same. *)
Definition order_frame (g g' : FixedBatchCopyGlobalState) : Prop :=
  batch_data g' = batch_data g
  /\ flushed_batch_index g' = flushed_batch_index g
  /\ scheduled_batch_index g' = scheduled_batch_index g
  /\ task_queue g' = task_queue g.

(** The 64-bit counter [scheduled_batch_index] has room for the tasks of a
    step from [g] to [g']. *)
Definition counter_fits (g g' : FixedBatchCopyGlobalState) : Prop :=
  scheduled_batch_index g + TaskCount g' + 1 < IDX_MODULUS.


(** The states the operator passes through, as long as the batch counter has
    room: the state of [GetGlobalSinkState]; the state after a returning call
    of the sink interface; and, inside those calls and in the tasks of the
    event, the state after [RepartitionBatches], after [FlushBatchData] and
    after the execution of a queued task.  The threads take the tasks from the
    head of the queue but finish them in any order: the tasks before the one
    that is executed are the ones still in flight. *)
Inductive operator_state (op : PhysicalFixedBatchCopy) : FixedBatchCopyGlobalState -> Prop :=
| state_initial (context_p : ClientContext) (global_state_p : GlobalFunctionData)
    (memory_state_p : TemporaryMemoryState) (indeterminate_memory : idx_t)
    (g : FixedBatchCopyGlobalState) :
    GetGlobalSinkState op context_p global_state_p memory_state_p indeterminate_memory
    = Ok g ->
    operator_state op g
| state_interface (g g' : FixedBatchCopyGlobalState) :
    operator_state op g -> sink_step op g g' -> counter_fits g g' ->
    operator_state op g'
| state_repartition (g : FixedBatchCopyGlobalState) (min_index : idx_t) (final : bool) :
    operator_state op g ->
    counter_fits g (RepartitionBatches g min_index final) ->
    operator_state op (RepartitionBatches g min_index final)
| state_task (g : FixedBatchCopyGlobalState) (in_flight : list BatchCopyTask)
    (task : BatchCopyTask) (queued : list BatchCopyTask) (g' : FixedBatchCopyGlobalState) :
    operator_state op g ->
    task_queue g = in_flight ++ task :: queued ->
    Execute op task (set_task_queue (in_flight ++ queued) g) = Ok g' ->
    operator_state op g'
| state_flush (g : FixedBatchCopyGlobalState) (min_index : idx_t)
    (g' : FixedBatchCopyGlobalState) :
    operator_state op g -> FlushBatchData op g min_index = Ok g' ->
    operator_state op g'.
End Operator.

Arguments CopyFunction : clear implicits.
Arguments PhysicalFixedBatchCopy : clear implicits.
Arguments FixedPreparedBatchData : clear implicits.
Arguments FixedBatchCopyGlobalState : clear implicits.

(** * A mock sink, a mock broker and a single producer *)

(** The mock copy function prepares a collection by keeping it and flushes it
    by appending it to a log, which is its global function data. *)
Definition MockLog : Type := list ColumnDataCollection.

Definition mock_function : CopyFunction unit MockLog ColumnDataCollection :=
  {| desired_batch_size := Some (fun _ => 1000);
     prepare_batch := Some (fun _ _ c => Returns c);
     flush_batch := Some (fun _ log prepared => Returns (log ++ [prepared]));
     copy_to_finalize := Some (fun _ log => Returns log) |}.

(** The same copy function without a finalize callback. *)
Definition mock_function_without_finalize : CopyFunction unit MockLog ColumnDataCollection :=
  {| desired_batch_size := desired_batch_size mock_function;
     prepare_batch := prepare_batch mock_function;
     flush_batch := flush_batch mock_function;
     copy_to_finalize := None |}.

(** The mock broker grants what is asked up to a limit and records the
    requests. *)
Record MockBroker : Type := {
  requests : list idx_t;
  reservation : idx_t;
  limit : idx_t
}.

#[export] Instance mock_broker : MemoryBroker MockBroker :=
  {| SetRemainingSize m size :=
       {| requests := requests m ++ [size];
          reservation := Z.min size (limit m);
          limit := limit m |};
     GetReservation m := wrap (reservation m);
     GetReservation_range m := Z.mod_pos_bound (reservation m) IDX_MODULUS eq_refl |}.

(** Eight bytes a row. *)
#[export] Instance mock_collection_size : CollectionSize := fun c => 8 * Count c.

Definition MockState : Type := FixedBatchCopyGlobalState MockLog ColumnDataCollection MockBroker.

Definition mock_op : PhysicalFixedBatchCopy unit MockLog ColumnDataCollection :=
  {| function := mock_function; bind_data := tt; use_tmp_file := false; column_count := 1 |}.

(** 16 GiB of query memory and one thread. *)
Definition mock_context : ClientContext :=
  {| GetQueryMaxMemory := 2 ^ 34; NumberOfThreads := 1 |}.

Definition mock_memory (limit_p : idx_t) : MockBroker :=
  {| requests := []; reservation := 0; limit := limit_p |}.

(** A state with the given maps, counters and queue, a batch size of 1000
    rows and 4 MiB of memory. *)
Definition mock_state (raw : OrderedMap.t ColumnDataCollection)
    (prepared : OrderedMap.t (FixedPreparedBatchData ColumnDataCollection))
    (scheduled flushed : idx_t) (tasks : list BatchCopyTask) : MockState :=
  {| context := mock_context; rows_copied := 0; global_state := [];
     batch_size := 1000; raw_batches := raw; batch_data := prepared;
     scheduled_batch_index := scheduled; flushed_batch_index := flushed;
     any_flushing := false; any_finished := false;
     memory_state := mock_memory (2 ^ 40); minimum_memory_per_thread := 4194304;
     unflushed_memory_usage := 0; min_batch_index := 0; available_memory := 4194304;
     blocked_tasks := []; can_increase_memory := true; task_queue := tasks;
     flush_trace := []; finalized := false; tmp_file_moved := false |}.

(** The executor's side of a producer: it sets [partition_info] before it
    calls the operator. *)
Definition set_partition_info (index min_index : idx_t) (l : FixedBatchCopyLocalState)
  : FixedBatchCopyLocalState :=
  set_partition_min_batch_index (Some min_index) (set_partition_batch_index (Some index) l).

(** Sink the chunks one after the other; a producer that is told [BLOCKED]
    stops.  [Sink] recurses at most once, so it runs on two levels of fuel. *)
Fixpoint sink_chunks (op : PhysicalFixedBatchCopy unit MockLog ColumnDataCollection)
    (g : MockState) (l : FixedBatchCopyLocalState) (chunks : list DataChunk)
  : Res (MockState * FixedBatchCopyLocalState) :=
  match chunks with
  | [] => Ok (g, l)
  | chunk :: rest =>
      '(result, g, l) <- Sink 2 false op g l chunk (Interrupt 0) ;;
      match result with
      | NEED_MORE_INPUT => sink_chunks op g l rest
      | BLOCKED => Ok (g, l)
      end
  end.

(** A single producer has sunk batch 0 as the given chunks; the field the
    constructor leaves without initialiser holds 0. *)
Definition single_producer_sunk (chunks : list DataChunk)
  : Res (PhysicalFixedBatchCopy unit MockLog ColumnDataCollection
         * MockState * FixedBatchCopyLocalState) :=
  op <- make_PhysicalFixedBatchCopy mock_function tt false 1 ;;
  g <- GetGlobalSinkState op mock_context [] (mock_memory (2 ^ 40)) 0 ;;
  let l := set_partition_info 0 0 GetLocalSinkState in
  '(g, l) <- sink_chunks op g l chunks ;;
  Ok (op, g, l).

(** What [NextBatch] hands to the repartitioner after that, and what the
    repartitioner makes of it: the task queue and the raw batches left. *)
Definition scheduled_at_next_batch (chunks : list DataChunk)
  : option (list BatchCopyTask * OrderedMap.t ColumnDataCollection) :=
  match single_producer_sunk chunks with
  | Ok (_, g, l) =>
      match collection l, batch_index l with
      | Some held, Some index =>
          match AddRawBatchData g index held with
          | Ok g =>
              let g := RepartitionBatches g 1 false in
              Some (task_queue g, raw_batches g)
          | _ => None
          end
      | _, _ => None
      end
  | _ => None
  end.

(** The whole run: the producer sinks batch 0, moves on to batch 1
    ([NextBatch]), optionally finishes ([Combine]), and the operator is
    finalized; an event that [Finalize] inserted is run. *)
Definition single_producer_run (chunks : list DataChunk) (with_combine : bool)
  : Res MockState :=
  '(op, g, l) <- single_producer_sunk chunks ;;
  let l := set_partition_info 1 1 l in
  '(g, l) <- NextBatch op g l ;;
  g <- (if with_combine then Combine op g l else Ok g) ;;
  '(_, event_inserted, g) <- Finalize op g ;;
  if event_inserted : bool then ProcessRemainingBatchesEvent op g
  else Ok g.

(** What the mock sink saw in a run: the batch index and the row count of
    every flush, in call order. *)
Definition flushes_of_run (chunks : list DataChunk) (with_combine : bool)
  : option (list idx_t * list idx_t) :=
  match single_producer_run chunks with_combine with
  | Ok g => Some (flush_trace g, map Count (global_state g))
  | _ => None
  end.

(** ** Concrete states *)

(** A prepared batch of 1000 rows. *)
Definition stale_prepared : FixedPreparedBatchData ColumnDataCollection :=
  {| memory_usage := 0; prepared_data := [1000] |}.

(** The smallest prepared key is 0 and [flushed_batch_index] is 1. *)
Definition stale_state : MockState := mock_state [] [(0, stale_prepared)] 1 1 [].

(** A state at the request cap: 100 bytes granted, 100 bytes unflushed, and a
    quarter of the query memory is 100 bytes. *)
Definition capped_state : MockState :=
  set_context {| GetQueryMaxMemory := 400; NumberOfThreads := 1 |}
    (set_available_memory 100
       (set_unflushed_memory_usage 100
          (set_memory_state {| requests := []; reservation := 100; limit := 1000 |}
             (mock_state [] [] 0 0 [])))).

(** A state below the cap whose broker grants at most 120 bytes. *)
Definition growing_state : MockState :=
  set_context {| GetQueryMaxMemory := 4000; NumberOfThreads := 1 |}
    (set_available_memory 100
       (set_unflushed_memory_usage 150
          (set_memory_state {| requests := []; reservation := 100; limit := 120 |}
             (mock_state [] [] 0 0 [])))).

(** A state whose broker grants at most 50 bytes although 100 are held. *)
Definition shrinking_state : MockState :=
  set_context {| GetQueryMaxMemory := 4000; NumberOfThreads := 1 |}
    (set_available_memory 100
       (set_memory_state {| requests := []; reservation := 100; limit := 50 |}
          (mock_state [] [] 0 0 []))).

(** A fresh state. *)
Definition idle_state : MockState := mock_state [] [] 0 0 [].

(** A state whose request was declined before. *)
Definition declined_state : MockState := set_can_increase_memory false growing_state.

(** Batch 0 is raw, held as two chunks. *)
Definition two_chunk_state : MockState := mock_state [(0, [2048; 1452])] [] 0 0 [].

(** A producer on batch 0. *)
Definition first_producer : FixedBatchCopyLocalState :=
  set_partition_info 0 0 GetLocalSinkState.



(** Batch 0 is raw and holds 500 rows. *)
Definition small_batch_state : MockState := mock_state [(0, [500])] [] 0 0 [].


(** ** More concrete states *)


(** Batch 0, of 1000 rows, is scheduled and waits to be prepared. *)
Definition prepare_state : MockState := mock_state [] [] 1 0 [PrepareBatchTask 0 [1000]].

(** A producer on batch 1 while the minimum is batch 0. *)
Definition second_producer : FixedBatchCopyLocalState :=
  set_partition_info 1 0 GetLocalSinkState.

(** A producer that holds the 1000 rows of batch 0 and has moved on to
    batch 1. *)
Definition holding_producer : FixedBatchCopyLocalState :=
  set_partition_info 1 1
    (set_local_rows_copied 1000
       (set_batch_index (Some 0) (set_collection (Some [1000]) first_producer))).

(** The global state of a run, or a fresh one if the run threw. *)
Definition state_or_idle (r : Res MockState) : MockState :=
  match r with
  | Ok g => g
  | _ => idle_state
  end.

(** The state [GetGlobalSinkState] returns for the mock operator when the
    field without initialiser holds 0. *)
Definition initial_state : MockState :=
  state_or_idle (GetGlobalSinkState mock_op mock_context [] (mock_memory (2 ^ 40)) 0).

(** The state after the producer that holds batch 0 has called [NextBatch]. *)
Definition after_next_batch : MockState :=
  state_or_idle ('(g, _) <- NextBatch mock_op initial_state holding_producer ;; Ok g).

(** The state after [Finalize] on top of that. *)
Definition after_finalize : MockState :=
  state_or_idle ('(_, _, g) <- Finalize mock_op after_next_batch ;; Ok g).

(** The states [Sink] leaves when the producer of batch 0 sinks 1000 rows into
    a fresh state, and when the producer of batch 1 is refused at the request
    cap. *)
Definition sunk_state : MockState :=
  state_or_idle ('(_, g, _) <- Sink 1 false mock_op idle_state first_producer 1000
                                    (Interrupt 0) ;; Ok g).

Definition sunk_producer : FixedBatchCopyLocalState :=
  match Sink 1 false mock_op idle_state first_producer 1000 (Interrupt 0) with
  | Ok (_, _, l) => l
  | _ => first_producer
  end.

Definition blocked_state : MockState :=
  state_or_idle ('(_, g, _) <- Sink 2 false mock_op capped_state second_producer 1000
                                    (Interrupt 7) ;; Ok g).

Definition blocked_producer : FixedBatchCopyLocalState :=
  match Sink 2 false mock_op capped_state second_producer 1000 (Interrupt 7) with
  | Ok (_, _, l) => l
  | _ => second_producer
  end.

(** A producer that holds the 3100 rows of batch 0 in three chunks and has
    moved on to batch 1. *)
Definition three_chunk_producer : FixedBatchCopyLocalState :=
  set_partition_info 1 1
    (set_local_rows_copied 3100
       (set_batch_index (Some 0)
          (set_collection (Some [1000; 1000; 1100]) first_producer))).

(** The state after that producer has called [NextBatch]: three batches were
    scheduled, the first of them has been prepared and flushed, the other two
    are queued. *)
Definition after_three_chunks : MockState :=
  state_or_idle ('(g, _) <- NextBatch mock_op initial_state three_chunk_producer ;; Ok g).

(** The thread that took the last prepare task has finished it while the one
    before it is still in flight. *)
Definition out_of_order_state : MockState :=
  state_or_idle
    (Execute mock_op (PrepareBatchTask 2 [1100])
       (set_task_queue [PrepareBatchTask 1 [1000]; RepartitionedFlushTask]
          after_three_chunks)).
(** * Properties *)

Section Properties.

Context {FunctionData GlobalFunctionData PreparedBatchData : Type}.
Context {TemporaryMemoryState : Type} {broker : MemoryBroker TemporaryMemoryState}.
Context {collection_bytes : CollectionSize}.

Local Abbreviation GlobalState :=
  (FixedBatchCopyGlobalState GlobalFunctionData PreparedBatchData TemporaryMemoryState).
Local Abbreviation Operator :=
  (PhysicalFixedBatchCopy FunctionData GlobalFunctionData PreparedBatchData).
Local Abbreviation Function :=
  (CopyFunction FunctionData GlobalFunctionData PreparedBatchData).

(** ** Results and field updates *)

Lemma bind_Ok_inv {A B : Type} (c : Res A) (k : A -> Res B) (b : B) :
  bind c k = Ok b -> exists a, c = Ok a /\ k a = Ok b.
Proof.
  destruct c as [a | e | ]; cbn; intros H; try discriminate.
  exists a; split; [reflexivity | exact H].
Qed.

Lemma global_state_eta (g : GlobalState) :
  {| context := context g; rows_copied := rows_copied g; global_state := global_state g;
     batch_size := batch_size g; raw_batches := raw_batches g; batch_data := batch_data g;
     scheduled_batch_index := scheduled_batch_index g;
     flushed_batch_index := flushed_batch_index g; any_flushing := any_flushing g;
     any_finished := any_finished g; memory_state := memory_state g;
     minimum_memory_per_thread := minimum_memory_per_thread g;
     unflushed_memory_usage := unflushed_memory_usage g; min_batch_index := min_batch_index g;
     available_memory := available_memory g; blocked_tasks := blocked_tasks g;
     can_increase_memory := can_increase_memory g; task_queue := task_queue g;
     flush_trace := flush_trace g; finalized := finalized g;
     tmp_file_moved := tmp_file_moved g |} = g.
Proof. destruct g; reflexivity. Qed.

(** ** The constructor *)

Lemma make_PhysicalFixedBatchCopy_Ok (f : Function) (b : FunctionData) (u : bool)
    (c : idx_t) :
  flush_batch f <> None -> prepare_batch f <> None -> desired_batch_size f <> None ->
  make_PhysicalFixedBatchCopy f b u c
  = Ok {| function := f; bind_data := b; use_tmp_file := u; column_count := c |}.
Proof.
  unfold make_PhysicalFixedBatchCopy.
  destruct (flush_batch f), (prepare_batch f), (desired_batch_size f);
    cbn; intros; congruence.
Qed.

(** C2 (as amended): the constructor fails exactly when one of [flush_batch],
    [prepare_batch] and [desired_batch_size] is a null pointer; whether
    [copy_to_finalize] is null plays no role, and a successful construction
    stores the copy function as it was given. *)
Theorem make_PhysicalFixedBatchCopy_fails_iff (f : Function) (b : FunctionData)
    (u : bool) (c : idx_t) :
  ((exists e, make_PhysicalFixedBatchCopy f b u c = Throw e)
   <-> (flush_batch f = None \/ prepare_batch f = None \/ desired_batch_size f = None))
  /\ (forall op, make_PhysicalFixedBatchCopy f b u c = Ok op ->
                 function op = f /\ flush_batch f <> None /\ prepare_batch f <> None
                 /\ desired_batch_size f <> None).
Proof.
  unfold make_PhysicalFixedBatchCopy.
  destruct (flush_batch f) as [fl | ], (prepare_batch f) as [pr | ],
    (desired_batch_size f) as [ds | ]; cbn; split;
    try (split; [intros [e He]; try discriminate; auto | intros Hn; eauto;
                 destruct Hn as [Hn | [Hn | Hn]]; discriminate]);
    intros op Hop; try discriminate.
  inversion Hop; subst; cbn. repeat split; discriminate.
Qed.

(** ** Flushing *)




(** The argument [min_index] is dead. *)
Lemma FlushBatchData_min_index_irrelevant (op : Operator)
    (g : GlobalState) (i j : idx_t) :
  FlushBatchData op g i = FlushBatchData op g j.
Proof. reflexivity. Qed.

Lemma FlushBatchData_loop_fields (op : Operator) entries :
  forall g g' : GlobalState, FlushBatchData_loop op entries g = Ok g' ->
    task_queue g' = task_queue g
    /\ scheduled_batch_index g' = scheduled_batch_index g
    /\ min_batch_index g' = min_batch_index g
    /\ raw_batches g' = raw_batches g
    /\ available_memory g' = available_memory g
    /\ any_flushing g' = any_flushing g.
Proof.
  induction entries as [ | [first second] rest IH]; intros g g' H.
  - cbn in H. inversion H; subst; cbn; auto 10.
  - cbn [FlushBatchData_loop] in H.
    destruct (negb (first =? flushed_batch_index g)).
    + inversion H; subst; cbn; auto 10.
    + destruct (first <? flushed_batch_index g); [discriminate | ].
      apply bind_Ok_inv in H. destruct H as [fl [_ H]].
      apply bind_Ok_inv in H. destruct H as [gs [_ H]].
      apply IH in H. cbn in H. exact H.
Qed.

Lemma FlushBatchData_fields (op : Operator) (g g' : GlobalState)
    (min_index : idx_t) :
  FlushBatchData op g min_index = Ok g' ->
    task_queue g' = task_queue g
    /\ scheduled_batch_index g' = scheduled_batch_index g
    /\ min_batch_index g' = min_batch_index g
    /\ raw_batches g' = raw_batches g
    /\ available_memory g' = available_memory g.
Proof.
  unfold FlushBatchData. destruct (any_flushing g).
  - intros H; inversion H; subst; auto.
  - intros H. apply bind_Ok_inv in H. destruct H as [g1 [H1 H2]].
    apply FlushBatchData_loop_fields in H1. cbn in H1.
    inversion H2; subst; cbn. tauto.
Qed.

(** ** Final flush *)

Lemma TaskCount_zero (g : GlobalState) :
  TaskCount g = 0 <-> task_queue g = [].
Proof.
  unfold TaskCount. destruct (task_queue g); cbn [List.length]; split; intros H;
    try reflexivity; try discriminate; lia.
Qed.

(** C6: [FinalFlush] throws when tasks are left in the queue on entry; otherwise
    it flushes with [min_index] equal to the largest signed 64-bit integer, and
    throws the incomplete-file error when [scheduled_batch_index] and
    [flushed_batch_index] differ after that flush.  It returns normally only
    when both checks passed. *)
Theorem FinalFlush_checks (op : Operator) (g : GlobalState) :
  (task_queue g <> [] -> FinalFlush op g = Throw unexecuted_tasks_error)
  /\ (task_queue g = [] ->
      forall g', FlushBatchData op g INT64_MAXIMUM = Ok g' ->
                 scheduled_batch_index g' <> flushed_batch_index g' ->
                 FinalFlush op g = Throw incomplete_file_error)
  /\ (forall g'', FinalFlush op g = Ok g'' ->
        task_queue g = []
        /\ exists g', FlushBatchData op g (2 ^ 63 - 1) = Ok g'
                      /\ scheduled_batch_index g' = flushed_batch_index g'
                      /\ scheduled_batch_index g'' = flushed_batch_index g'').
Proof.
  unfold FinalFlush. repeat split.
  - intros Hq. rewrite <- TaskCount_zero in Hq. apply Z.eqb_neq in Hq.
    rewrite Hq. reflexivity.
  - intros Hq g' Hfl Hne. rewrite <- TaskCount_zero in Hq. rewrite Hq.
    cbv zeta. cbn [negb]. rewrite Hfl. cbn [bind].
    apply Z.eqb_neq in Hne. rewrite Hne. reflexivity.
  - destruct (TaskCount g =? 0) eqn:Hq; cbn [negb] in H; [ | discriminate].
    apply Z.eqb_eq in Hq. apply TaskCount_zero. exact Hq.
  - destruct (TaskCount g =? 0) eqn:Hq; cbn [negb] in H; [ | discriminate].
    cbv zeta in H. apply bind_Ok_inv in H. destruct H as [g' [Hfl H]].
    exists g'. split; [exact Hfl | ].
    destruct (scheduled_batch_index g' =? flushed_batch_index g') eqn:He;
      cbn [negb] in H; [ | discriminate].
    apply Z.eqb_eq in He. split; [exact He | ].
    destruct (copy_to_finalize (function op)) as [fin | ].
    + apply bind_Ok_inv in H. destruct H as [gs [_ H]].
      destruct (use_tmp_file op); inversion H; subst; cbn; exact He.
    + inversion H; subst; exact He.
Qed.

(** ** The memory reservation *)

Lemma SetMemorySize_no_request (g : GlobalState) (size : idx_t) :
  Z.min size (request_cap g) <= available_memory g -> SetMemorySize g size = g.
Proof.
  intros H. unfold SetMemorySize. fold (request_cap g).
  apply Z.leb_le in H. rewrite H. reflexivity.
Qed.

Lemma SetMemorySize_request (g : GlobalState) (size : idx_t) :
  available_memory g < Z.min size (request_cap g) ->
  let granted := GetReservation (SetRemainingSize (memory_state g)
                                                  (Z.min size (request_cap g))) in
  memory_state (SetMemorySize g size)
  = SetRemainingSize (memory_state g) (Z.min size (request_cap g))
  /\ available_memory (SetMemorySize g size) = granted
  /\ can_increase_memory (SetMemorySize g size)
     = (if granted <=? available_memory g then false else can_increase_memory g).
Proof.
  intros H granted. unfold SetMemorySize. fold (request_cap g).
  apply Z.leb_gt in H. rewrite H. cbn.
  rewrite Z.geb_leb. fold granted.
  destruct (granted <=? available_memory g); cbn; auto.
Qed.

(** What [SetMemorySize] leaves alone. *)
Lemma SetMemorySize_frame (g : GlobalState) (size : idx_t) :
  let g' := SetMemorySize g size in
  context g' = context g
  /\ minimum_memory_per_thread g' = minimum_memory_per_thread g
  /\ unflushed_memory_usage g' = unflushed_memory_usage g
  /\ min_batch_index g' = min_batch_index g
  /\ task_queue g' = task_queue g
  /\ blocked_tasks g' = blocked_tasks g
  /\ batch_data g' = batch_data g
  /\ flushed_batch_index g' = flushed_batch_index g.
Proof.
  cbv zeta. unfold SetMemorySize.
  destruct (Z.min size (GetQueryMaxMemory (context g) / 4) <=? available_memory g);
    [tauto | ].
  cbn. destruct (_ >=? _); cbn; tauto.
Qed.

Lemma SetMemorySize_declined_stays (g : GlobalState) (size : idx_t) :
  can_increase_memory g = false -> can_increase_memory (SetMemorySize g size) = false.
Proof.
  intros H. unfold SetMemorySize.
  destruct (Z.min size (GetQueryMaxMemory (context g) / 4) <=? available_memory g);
    [exact H | ].
  cbn. destruct (_ >=? _); cbn; auto.
Qed.

Lemma SetMemorySize_available_range (g : GlobalState) (size : idx_t) :
  idx_range (available_memory g) -> idx_range (available_memory (SetMemorySize g size)).
Proof.
  intros H. unfold SetMemorySize.
  destruct (Z.min size (GetQueryMaxMemory (context g) / 4) <=? available_memory g);
    [exact H | ].
  cbn. apply GetReservation_range.
Qed.

Lemma IncreaseMemory_declined (g : GlobalState) :
  can_increase_memory g = false -> IncreaseMemory g = g.
Proof. intros H. unfold IncreaseMemory. rewrite H. reflexivity. Qed.

Lemma OutOfMemory_declined (g : GlobalState) (batch_index : idx_t) :
  can_increase_memory g = false ->
  OutOfMemory false g batch_index
  = ((unflushed_memory_usage g >=? available_memory g) && (batch_index >? min_batch_index g),
     g).
Proof.
  intros H. unfold OutOfMemory. rewrite (IncreaseMemory_declined g H).
  destruct (unflushed_memory_usage g >=? available_memory g);
    destruct (batch_index >? min_batch_index g); reflexivity.
Qed.

(** C7 (as amended): with the predicate true, [batch_index] above
    [min_batch_index], [can_increase_memory] still set and the capped request
    [min(2 * available_memory, query_max_memory / 4)] above [available_memory],
    [OutOfMemory] hands exactly that request to the broker, takes the granted
    reservation as the new [available_memory], clears [can_increase_memory]
    when the grant is not above the old value, and answers by the predicate
    re-checked.  When the capped request is not above [available_memory],
    [OutOfMemory] makes no request and leaves the state alone.  Once
    [can_increase_memory] is clear, [IncreaseMemory] does nothing,
    [OutOfMemory] leaves the whole state alone, and no later [SetMemorySize]
    sets the flag again. *)
Theorem OutOfMemory_growth (g : GlobalState) (batch_index : idx_t) :
  (unflushed_memory_usage g >= available_memory g ->
   batch_index > min_batch_index g ->
   can_increase_memory g = true ->
   0 <= available_memory g -> available_memory g * 2 < IDX_MODULUS ->
   available_memory g < Z.min (available_memory g * 2) (GetQueryMaxMemory (context g) / 4) ->
   let request := Z.min (available_memory g * 2) (GetQueryMaxMemory (context g) / 4) in
   let granted := GetReservation (SetRemainingSize (memory_state g) request) in
   let g' := snd (OutOfMemory false g batch_index) in
   memory_state g' = SetRemainingSize (memory_state g) request
   /\ available_memory g' = granted
   /\ can_increase_memory g' = negb (granted <=? available_memory g)
   /\ fst (OutOfMemory false g batch_index) = (unflushed_memory_usage g >=? granted))
  /\ (Z.min (wrap (available_memory g * 2)) (GetQueryMaxMemory (context g) / 4)
      <= available_memory g ->
      snd (OutOfMemory false g batch_index) = g)
  /\ (can_increase_memory g = false ->
      IncreaseMemory g = g
      /\ snd (OutOfMemory false g batch_index) = g
      /\ forall size, can_increase_memory (SetMemorySize g size) = false).
Proof.
  split; [ | split].
  - intros Hoom Hidx Hcan Hnn Hno Hreq request granted g'.
    assert (Hw : wrap (available_memory g * 2) = available_memory g * 2).
    { unfold wrap. apply Z.mod_small. lia. }
    assert (Hinc : IncreaseMemory g = SetMemorySize g (available_memory g * 2)).
    { unfold IncreaseMemory. rewrite Hcan, Hw. reflexivity. }
    destruct (SetMemorySize_request g (available_memory g * 2) Hreq) as [Hms [Hav Hci]].
    destruct (SetMemorySize_frame g (available_memory g * 2)) as [_ [_ [Hun _]]].
    fold (request_cap g) in request. fold request in Hms, Hav, Hci. fold granted in Hav, Hci.
    assert (Hout : OutOfMemory false g batch_index
                   = (unflushed_memory_usage g >=? granted,
                      SetMemorySize g (available_memory g * 2))).
    { unfold OutOfMemory.
      replace (unflushed_memory_usage g >=? available_memory g) with true
        by (symmetry; rewrite Z.geb_leb; apply Z.leb_le; lia).
      replace (batch_index >? min_batch_index g) with true
        by (symmetry; rewrite Z.gtb_ltb; apply Z.ltb_lt; lia).
      rewrite Hinc, Hun, Hav.
      destruct (unflushed_memory_usage g >=? granted); reflexivity. }
    subst g'. rewrite Hout. cbn [fst snd].
    rewrite Hms, Hav, Hci, Hcan.
    repeat split.
  - intros Hcap.
    assert (Hinc : IncreaseMemory g = g).
    { unfold IncreaseMemory. destruct (can_increase_memory g); [ | reflexivity].
      apply SetMemorySize_no_request. exact Hcap. }
    unfold OutOfMemory. rewrite Hinc.
    destruct (unflushed_memory_usage g >=? available_memory g); [ | reflexivity].
    destruct (batch_index >? min_batch_index g); reflexivity.
  - intros Hcan. split; [apply IncreaseMemory_declined; exact Hcan | ].
    split.
    + rewrite OutOfMemory_declined by exact Hcan. reflexivity.
    + intros size. apply SetMemorySize_declined_stays. exact Hcan.
Qed.

(** ** The thread cap *)

Lemma MaxThreads_bounds (g : GlobalState) (source_max_threads : idx_t) :
  1 <= source_max_threads ->
  1 < minimum_memory_per_thread g ->
  idx_range (available_memory g) ->
  exists threads g',
    MaxThreads g source_max_threads = Ok (threads, g')
    /\ 1 <= threads <= source_max_threads
    /\ threads = Z.min source_max_threads
                       (available_memory g' / minimum_memory_per_thread g' + 1).
Proof.
  intros Hs Hm Ha. unfold MaxThreads.
  set (g' := SetMemorySize g _).
  assert (Hm' : minimum_memory_per_thread g' = minimum_memory_per_thread g)
    by (subst g'; apply SetMemorySize_frame).
  assert (Ha' : idx_range (available_memory g'))
    by (subst g'; apply SetMemorySize_available_range; exact Ha).
  rewrite Hm'.
  replace (minimum_memory_per_thread g =? 0) with false
    by (symmetry; apply Z.eqb_neq; lia).
  unfold idx_range, IDX_MODULUS in Ha'.
  assert (Hq : 0 <= available_memory g' / minimum_memory_per_thread g < 2 ^ 63).
  { split.
    - apply Z.div_pos; lia.
    - apply Z.div_lt_upper_bound; lia. }
  assert (Hw : wrap (available_memory g' / minimum_memory_per_thread g + 1)
               = available_memory g' / minimum_memory_per_thread g + 1).
  { unfold wrap, IDX_MODULUS. apply Z.mod_small. lia. }
  rewrite Hw. eexists. eexists. split; [reflexivity | ]. split; [lia | ].
  rewrite Hm'. reflexivity.
Qed.

(** C10: for a state set up for at least one column (so that
    [minimum_memory_per_thread] is [4 MiB * columns], as [GetGlobalSinkState]
    computes it), every
    [source_max_threads >= 1] and every [available_memory], zero included,
    [MaxThreads] returns a value between 1 and [source_max_threads]: it is the
    smaller of [source_max_threads] and
    [available_memory / minimum_memory_per_thread + 1]. *)
Theorem MaxThreads_at_least_one (g : GlobalState)
    (source_max_threads columns : idx_t) :
  1 <= source_max_threads < IDX_MODULUS ->
  1 <= columns < 2 ^ 42 ->
  minimum_memory_per_thread g = wrap (MINIMUM_MEMORY_PER_COLUMN_PER_THREAD * columns) ->
  idx_range (available_memory g) ->
  exists threads g',
    MaxThreads g source_max_threads = Ok (threads, g')
    /\ 1 <= threads <= source_max_threads
    /\ threads = Z.min source_max_threads
                       (available_memory g' / minimum_memory_per_thread g' + 1)
    /\ 1 <= available_memory g' / minimum_memory_per_thread g' + 1.
Proof.
  intros Hs Hc Hm Ha.
  assert (Hm1 : 1 < minimum_memory_per_thread g).
  { rewrite Hm. unfold wrap, IDX_MODULUS, MINIMUM_MEMORY_PER_COLUMN_PER_THREAD.
    rewrite Z.mod_small; lia. }
  destruct (MaxThreads_bounds g source_max_threads (proj1 Hs) Hm1 Ha)
    as [threads [g' [Hr [Hb He]]]].
  exists threads, g'. repeat split; try tauto.
  unfold MaxThreads in Hr.
  destruct (minimum_memory_per_thread _ =? 0); [discriminate | ].
  inversion Hr; subst g'.
  pose proof (SetMemorySize_available_range g
                (wrap (source_max_threads * minimum_memory_per_thread g)) Ha) as Hr'.
  destruct (SetMemorySize_frame g (wrap (source_max_threads * minimum_memory_per_thread g)))
    as [_ [Hmm _]].
  rewrite Hmm. unfold idx_range in Hr'.
  assert (0 <= available_memory (SetMemorySize g
                 (wrap (source_max_threads * minimum_memory_per_thread g)))
               / minimum_memory_per_thread g) by (apply Z.div_pos; lia).
  lia.
Qed.

(** ** Repartitioning *)

Lemma Count_app (c d : ColumnDataCollection) : Count (c ++ d) = Count c + Count d.
Proof.
  unfold Count. induction c as [ | x c IH]; cbn; [reflexivity | ].
  cbn in IH. rewrite IH. lia.
Qed.



Lemma to_int64_small (x : Z) : 0 <= x < 2 ^ 63 -> to_int64 x = x.
Proof.
  intros H. unfold to_int64, IDX_MODULUS. rewrite Z.mod_small; lia.
Qed.



Lemma schedule_batch_fields (c : ColumnDataCollection) (g : GlobalState) :
  task_queue (schedule_batch c g)
  = task_queue g ++ [PrepareBatchTask (scheduled_batch_index g) c]
  /\ batch_size (schedule_batch c g) = batch_size g
  /\ raw_batches (schedule_batch c g) = raw_batches g
  /\ scheduled_batch_index (schedule_batch c g) = wrap (scheduled_batch_index g + 1).
Proof. unfold schedule_batch, AddTask. cbn. auto. Qed.














Lemma rows_below_nonneg (min_index : idx_t) (entries : OrderedMap.t ColumnDataCollection) :
  Forall (fun c => 0 <= Count c) (map snd entries) -> 0 <= rows_below min_index entries.
Proof.
  unfold rows_below. induction entries as [ | [k c] rest IH]; intros H.
  - cbn. lia.
  - inversion H as [ | ? ? Hc Hrest]; subst. specialize (IH Hrest).
    cbn [filter fst snd]. destruct (k <? min_index); [ | exact IH].
    cbn [map fold_right snd] in *. lia.
Qed.

Lemma rows_below_sorted_tail (min_index k : idx_t) (entries : OrderedMap.t ColumnDataCollection) :
  min_index <= k -> Forall (Z.lt k) (OrderedMap.keys entries) ->
  rows_below min_index entries = 0.
Proof.
  unfold rows_below, OrderedMap.keys. intros Hk.
  induction entries as [ | [k' c] rest IH]; intros H; [reflexivity | ].
  inversion H as [ | ? ? Hlt Hrest]; subst. cbn [filter fst snd map] in *.
  replace (k' <? min_index) with false by (symmetry; apply Z.ltb_ge; lia).
  auto.
Qed.

(** On a sorted map the loop that stops at the first key [>= min_index] sums
    exactly the entries below [min_index], unless the sum overflows. *)
Lemma candidate_rows_loop_sorted (min_index : idx_t)
    (entries : OrderedMap.t ColumnDataCollection) :
  forall candidate_rows,
    OrderedMap.sorted entries ->
    Forall (fun c => 0 <= Count c) (map snd entries) ->
    0 <= candidate_rows ->
    candidate_rows + rows_below min_index entries < IDX_MODULUS ->
    candidate_rows_loop min_index entries candidate_rows
    = candidate_rows + rows_below min_index entries.
Proof.
  unfold OrderedMap.sorted, OrderedMap.keys.
  induction entries as [ | [k c] rest IH]; intros acc Hs Hc Hacc Hsum.
  - cbn. unfold rows_below. cbn. lia.
  - inversion Hs as [ | ? ? Hrest Hhead]; subst. inversion Hc as [ | ? ? Hcount Hcounts]; subst.
    cbn [candidate_rows_loop fst snd] in *.
    assert (Hsplit : rows_below min_index ((k, c) :: rest)
                     = (if k <? min_index then Count c else 0) + rows_below min_index rest).
    { unfold rows_below. cbn [filter fst snd].
      destruct (k <? min_index); cbn [map fold_right snd]; lia. }
    rewrite Z.geb_leb. destruct (Z.leb_spec min_index k) as [Hge | Hlt].
    + rewrite Hsplit.
      rewrite (rows_below_sorted_tail min_index k rest Hge Hhead).
      replace (k <? min_index) with false by (symmetry; apply Z.ltb_ge; lia).
      lia.
    + rewrite Hsplit in *.
      replace (k <? min_index) with true in * by (symmetry; apply Z.ltb_lt; lia).
      pose proof (rows_below_nonneg min_index rest Hcounts) as Hnn.
      assert (Hw : wrap (acc + Count c) = acc + Count c).
      { unfold wrap. apply Z.mod_small. lia. }
      rewrite Hw. rewrite IH; auto; lia.
Qed.

(** C8: a call with [final = false] returns with the state as it was (so with
    [raw_batches], [scheduled_batch_index] and the task queue as they were)
    when [any_finished] is set, and when the rows of the raw entries with key
    below [min_index] add up to less than [batch_size]. *)
Theorem RepartitionBatches_not_final_returns (g : GlobalState)
    (min_index : idx_t) :
  OrderedMap.sorted (raw_batches g) ->
  Forall (fun c => 0 <= Count c) (map snd (raw_batches g)) ->
  batch_size g < IDX_MODULUS ->
  any_finished g = true \/ rows_below min_index (raw_batches g) < batch_size g ->
  let g' := RepartitionBatches g min_index false in
  raw_batches g' = raw_batches g
  /\ scheduled_batch_index g' = scheduled_batch_index g
  /\ task_queue g' = task_queue g
  /\ g' = g.
Proof.
  intros Hsorted Hcounts Hbs Hcase g'.
  assert (Hsame : g' = g).
  { subst g'. unfold RepartitionBatches.
    destruct (raw_batches g) as [ | e entries] eqn:Hraw; [reflexivity | ].
    cbn [negb andb].
    destruct (any_finished g) eqn:Hfin; [reflexivity | ].
    destruct Hcase as [Habs | Hrows]; [discriminate | ].
    rewrite candidate_rows_loop_sorted; auto; try lia.
    cbn [Z.add]. apply Z.ltb_lt in Hrows. rewrite Hrows. reflexivity. }
  rewrite Hsame. auto.
Qed.

(** ** Task execution terminates *)

Lemma queue_weight_app (q r : list BatchCopyTask) :
  queue_weight (q ++ r) = (queue_weight q + queue_weight r)%nat.
Proof. unfold queue_weight. rewrite map_app, list_sum_app. reflexivity. Qed.

Lemma run_not_OutOfFuel {A : Type} (o : Outcome A) : run o <> OutOfFuel.
Proof. destruct o; discriminate. Qed.

Lemma call_not_OutOfFuel {A : Type} (p : option A) : call p <> OutOfFuel.
Proof. destruct p; discriminate. Qed.

Lemma bind_not_OutOfFuel {A B : Type} (c : Res A) (k : A -> Res B) :
  c <> OutOfFuel -> (forall a, c = Ok a -> k a <> OutOfFuel) -> bind c k <> OutOfFuel.
Proof.
  destruct c as [a | e | ]; cbn; intros Hc Hk; [apply Hk; reflexivity | discriminate | ].
  exfalso; apply Hc; reflexivity.
Qed.

Lemma FlushBatchData_loop_not_OutOfFuel (op : Operator) entries :
  forall g : GlobalState, FlushBatchData_loop op entries g <> OutOfFuel.
Proof.
  induction entries as [ | [first second] rest IH]; intros g; cbn [FlushBatchData_loop].
  - discriminate.
  - destruct (negb (first =? flushed_batch_index g)); [discriminate | ].
    destruct (first <? flushed_batch_index g); [discriminate | ].
    apply bind_not_OutOfFuel; [apply call_not_OutOfFuel | intros flush _].
    apply bind_not_OutOfFuel; [apply run_not_OutOfFuel | intros gs _].
    apply IH.
Qed.

Lemma FlushBatchData_not_OutOfFuel (op : Operator)
    (g : GlobalState) (min_index : idx_t) :
  FlushBatchData op g min_index <> OutOfFuel.
Proof.
  unfold FlushBatchData. destruct (any_flushing g); [discriminate | ].
  apply bind_not_OutOfFuel; [apply FlushBatchData_loop_not_OutOfFuel | ].
  intros; discriminate.
Qed.

Lemma AddBatchData_fields (g g' : GlobalState) (batch_index : idx_t)
    (new_batch : PreparedBatchData) (usage : idx_t) :
  AddBatchData g batch_index new_batch usage = Ok g' ->
  task_queue g' = task_queue g /\ min_batch_index g' = min_batch_index g
  /\ flushed_batch_index g' = flushed_batch_index g.
Proof.
  unfold AddBatchData. destruct (OrderedMap.insert _ _ _) as [m fresh].
  destruct fresh; cbn; intros H; inversion H; subst; cbn; auto.
Qed.

Lemma AddBatchData_not_OutOfFuel (g : GlobalState) (batch_index : idx_t)
    (new_batch : PreparedBatchData) (usage : idx_t) :
  AddBatchData g batch_index new_batch usage <> OutOfFuel.
Proof.
  unfold AddBatchData. destruct (OrderedMap.insert _ _ _) as [m fresh].
  destruct fresh; discriminate.
Qed.

Lemma Execute_not_OutOfFuel (op : Operator) (task : BatchCopyTask)
    (g : GlobalState) : Execute op task g <> OutOfFuel.
Proof.
  destruct task as [ | index c]; cbn [Execute].
  - apply FlushBatchData_not_OutOfFuel.
  - apply bind_not_OutOfFuel; [apply call_not_OutOfFuel | intros prepare _].
    apply bind_not_OutOfFuel; [apply run_not_OutOfFuel | intros prepared _].
    apply bind_not_OutOfFuel; [apply AddBatchData_not_OutOfFuel | intros g1 _].
    destruct (index =? flushed_batch_index g1); discriminate.
Qed.

(** A task leaves the queue it was taken from lighter than it found it. *)
Lemma Execute_fields (op : Operator) (task : BatchCopyTask)
    (g g' : GlobalState) :
  Execute op task g = Ok g' ->
  (queue_weight (task_queue g') < task_weight task + queue_weight (task_queue g))%nat
  /\ min_batch_index g' = min_batch_index g.
Proof.
  destruct task as [ | index c]; cbn [Execute task_weight]; intros H.
  - apply FlushBatchData_fields in H. destruct H as [Hq [_ [Hm _]]].
    rewrite Hq, Hm. split; [lia | reflexivity].
  - apply bind_Ok_inv in H. destruct H as [prepare [_ H]].
    apply bind_Ok_inv in H. destruct H as [prepared [_ H]].
    apply bind_Ok_inv in H. destruct H as [g1 [Hadd H]].
    apply AddBatchData_fields in Hadd. destruct Hadd as [Hq [Hm _]].
    destruct (index =? flushed_batch_index g1); inversion H; subst.
    + unfold AddTask. cbn [task_queue set_task_queue min_batch_index].
      rewrite queue_weight_app, Hq, Hm. cbn. split; [lia | reflexivity].
    + rewrite Hq, Hm. split; [lia | reflexivity].
Qed.

Lemma ExecuteTask_not_OutOfFuel (op : Operator)
    (g : GlobalState) : ExecuteTask op g <> OutOfFuel.
Proof.
  unfold ExecuteTask, GetTask. destruct (task_queue g) as [ | task rest]; [discriminate | ].
  apply bind_not_OutOfFuel; [apply Execute_not_OutOfFuel | intros; discriminate].
Qed.

Lemma ExecuteTask_fields (op : Operator) (g g' : GlobalState)
    (executed : bool) :
  ExecuteTask op g = Ok (executed, g') ->
  min_batch_index g' = min_batch_index g
  /\ (if executed
      then (queue_weight (task_queue g') < queue_weight (task_queue g))%nat
      else task_queue g = [] /\ g' = g).
Proof.
  unfold ExecuteTask, GetTask. destruct (task_queue g) as [ | task rest] eqn:Hq.
  - intros H; inversion H; subst. auto.
  - intros H. apply bind_Ok_inv in H. destruct H as [g1 [Hex H]].
    inversion H; subst. apply Execute_fields in Hex.
    cbn [task_queue set_task_queue min_batch_index] in Hex.
    destruct Hex as [Hw Hm]. split; [exact Hm | ].
    unfold queue_weight, list_sum in *. cbn [map fold_right]. lia.
Qed.

Lemma ExecuteTasks_loop_not_OutOfFuel (op : Operator) (fuel : nat) :
  forall g : GlobalState, (queue_weight (task_queue g) < fuel)%nat ->
            ExecuteTasks_loop fuel op g <> OutOfFuel.
Proof.
  induction fuel as [ | fuel IH]; intros g Hfuel; [lia | ].
  cbn [ExecuteTasks_loop].
  apply bind_not_OutOfFuel; [apply ExecuteTask_not_OutOfFuel | ].
  intros [executed g1] Hex. apply ExecuteTask_fields in Hex.
  destruct executed; [ | discriminate].
  apply IH. destruct Hex as [_ Hw]. lia.
Qed.

(** The loop of [ExecuteTasks] comes to an end: it returns or it throws. *)
Lemma ExecuteTasks_not_OutOfFuel (op : Operator)
    (g : GlobalState) : ExecuteTasks op g <> OutOfFuel.
Proof.
  unfold ExecuteTasks, task_budget. apply ExecuteTasks_loop_not_OutOfFuel.
  unfold queue_weight. lia.
Qed.

Lemma ExecuteTasks_loop_fields (op : Operator) (fuel : nat) :
  forall g g' : GlobalState, ExecuteTasks_loop fuel op g = Ok g' ->
               min_batch_index g' = min_batch_index g /\ task_queue g' = [].
Proof.
  induction fuel as [ | fuel IH]; intros g g' H; [discriminate | ].
  cbn [ExecuteTasks_loop] in H.
  apply bind_Ok_inv in H. destruct H as [[executed g1] [Hex H]].
  apply ExecuteTask_fields in Hex. destruct Hex as [Hm Hq].
  destruct executed.
  - apply IH in H. destruct H as [Hm' Hq']. split; congruence.
  - inversion H; subst. destruct Hq as [Hq ->]. auto.
Qed.

Lemma ExecuteTasks_fields (op : Operator) (g g' : GlobalState) :
  ExecuteTasks op g = Ok g' ->
  min_batch_index g' = min_batch_index g /\ task_queue g' = [].
Proof. apply ExecuteTasks_loop_fields. Qed.

(** ** The producer at the minimum batch index *)

Lemma OutOfMemory_at_min (g : GlobalState) (batch_index : idx_t) :
  batch_index <= min_batch_index g -> OutOfMemory false g batch_index = (false, g).
Proof.
  intros H. unfold OutOfMemory.
  replace (batch_index >? min_batch_index g) with false
    by (symmetry; rewrite Z.gtb_ltb; apply Z.ltb_ge; lia).
  destruct (unflushed_memory_usage g >=? available_memory g); reflexivity.
Qed.

Lemma Sink_append_outcome (g : GlobalState) (l : FixedBatchCopyLocalState)
    (batch_index : idx_t) (chunk : DataChunk) :
  (exists e, Sink_append g l batch_index chunk = Throw e)
  \/ (exists g' l', Sink_append g l batch_index chunk = Ok (NEED_MORE_INPUT, g', l')).
Proof.
  unfold Sink_append.
  destruct (_ >? _); [right; eauto | ].
  destruct (_ <? _); [left; eauto | right; eauto].
Qed.

(** C5: for a producer whose batch index is [min_batch_index], [OutOfMemory]
    (of a regular build) answers false and leaves the state alone, and [Sink]
    returns [NEED_MORE_INPUT] or throws: it never returns [BLOCKED], under
    either setting of the verification flag, and one level of fuel is enough
    because the call does not recurse. *)
Theorem Sink_min_batch_index_never_blocked (fuel : nat) (alternative_verify : bool)
    (op : Operator) (g : GlobalState)
    (l : FixedBatchCopyLocalState) (chunk : DataChunk) (interrupt_state : InterruptState)
    (batch_index : idx_t) :
  partition_batch_index l = Some batch_index ->
  batch_index = min_batch_index g ->
  OutOfMemory false g batch_index = (false, g)
  /\ ((exists e, Sink (S fuel) alternative_verify op g l chunk interrupt_state = Throw e)
      \/ (exists g' l', Sink (S fuel) alternative_verify op g l chunk interrupt_state
                        = Ok (NEED_MORE_INPUT, g', l')))
  /\ (forall g' l', Sink (S fuel) alternative_verify op g l chunk interrupt_state
                    <> Ok (BLOCKED, g', l')).
Proof.
  intros Hindex Hmin.
  split; [apply OutOfMemory_at_min; lia | ].
  assert (Hout : (exists e, Sink (S fuel) alternative_verify op g l chunk interrupt_state
                            = Throw e)
                 \/ (exists g' l', Sink (S fuel) alternative_verify op g l chunk
                                        interrupt_state = Ok (NEED_MORE_INPUT, g', l'))).
  { cbn [Sink]. rewrite Hindex. cbn [GetIndex bind].
    destruct (current_task l).
    - cbn [bind].
      replace (batch_index >? min_batch_index g) with false
        by (symmetry; rewrite Z.gtb_ltb; apply Z.ltb_ge; lia).
      apply Sink_append_outcome.
    - pose proof (ExecuteTasks_not_OutOfFuel op g) as Hfuel.
      destruct (ExecuteTasks op g) as [g1 | e | ] eqn:Hex;
        [ | left; eexists; reflexivity | exfalso; apply Hfuel; reflexivity].
      apply ExecuteTasks_fields in Hex. destruct Hex as [Hm1 _].
      cbn [bind].
      pose proof (FlushBatchData_not_OutOfFuel op g1 (min_batch_index g1)) as Hfuel2.
      destruct (FlushBatchData op g1 (min_batch_index g1)) as [g2 | e | ] eqn:Hfl;
        [ | left; eexists; reflexivity | exfalso; apply Hfuel2; reflexivity].
      apply FlushBatchData_fields in Hfl. destruct Hfl as [_ [_ [Hm2 _]]].
      cbn [bind].
      replace (batch_index >? min_batch_index g2) with false
        by (symmetry; rewrite Z.gtb_ltb; apply Z.ltb_ge; lia).
      cbn [bind].
      replace (batch_index >? min_batch_index g2) with false
        by (symmetry; rewrite Z.gtb_ltb; apply Z.ltb_ge; lia).
      apply Sink_append_outcome. }
  split; [exact Hout | ].
  intros g' l' Hblocked.
  destruct Hout as [[e He] | [g1 [l1 Hok]]]; rewrite Hblocked in *; discriminate.
Qed.

(** ** [Sink] terminates *)

Lemma OutOfMemory_min_batch_index (alternative_verify : bool) (g : GlobalState)
    (batch_index : idx_t) :
  min_batch_index (snd (OutOfMemory alternative_verify g batch_index)) = min_batch_index g.
Proof.
  unfold OutOfMemory. destruct alternative_verify; [reflexivity | ].
  destruct (unflushed_memory_usage g >=? available_memory g); [ | reflexivity].
  destruct (batch_index >? min_batch_index g); [ | reflexivity].
  assert (Hm : min_batch_index (IncreaseMemory g) = min_batch_index g).
  { unfold IncreaseMemory. destruct (negb (can_increase_memory g)); [reflexivity | ].
    apply SetMemorySize_frame. }
  destruct (unflushed_memory_usage (IncreaseMemory g) >=? available_memory (IncreaseMemory g));
    exact Hm.
Qed.

(** A producer above the minimum that is told "not out of memory" is below
    its budget afterwards. *)
Lemma OutOfMemory_false_below (g g' : GlobalState) (batch_index : idx_t) :
  OutOfMemory false g batch_index = (false, g') ->
  (batch_index >? min_batch_index g) = true ->
  (unflushed_memory_usage g' >=? available_memory g') = false.
Proof.
  unfold OutOfMemory. intros H Hb. rewrite Hb in H.
  destruct (unflushed_memory_usage g >=? available_memory g) eqn:H1.
  - destruct (unflushed_memory_usage (IncreaseMemory g)
              >=? available_memory (IncreaseMemory g)) eqn:H2; inversion H; subst.
    exact H2.
  - inversion H; subst. exact H1.
Qed.

Lemma OutOfMemory_below (g : GlobalState) (batch_index : idx_t) :
  (unflushed_memory_usage g >=? available_memory g) = false ->
  OutOfMemory false g batch_index = (false, g).
Proof. intros H. unfold OutOfMemory. rewrite H. reflexivity. Qed.

Lemma UpdateMinBatchIndex_memory (g : GlobalState) (current_min_batch_index : idx_t) :
  unflushed_memory_usage (UpdateMinBatchIndex g current_min_batch_index)
  = unflushed_memory_usage g
  /\ available_memory (UpdateMinBatchIndex g current_min_batch_index) = available_memory g.
Proof.
  unfold UpdateMinBatchIndex, UnblockTasksInternal.
  destruct (min_batch_index g >=? current_min_batch_index); [auto | ].
  destruct (negb _); [ | auto].
  cbn. destruct (blocked_tasks g); cbn; auto.
Qed.

Lemma Sink_append_not_OutOfFuel (g : GlobalState) (l : FixedBatchCopyLocalState)
    (batch_index : idx_t) (chunk : DataChunk) :
  Sink_append g l batch_index chunk <> OutOfFuel.
Proof.
  destruct (Sink_append_outcome g l batch_index chunk) as [[e H] | [g' [l' H]]];
    rewrite H; discriminate.
Qed.

(** The second half of [Sink], for a producer that is at the minimum or, in a
    regular build, below its budget: it does not call [Sink] again. *)
Lemma Sink_tail_not_OutOfFuel (fuel : nat) (alternative_verify : bool) (op : Operator)
    (g : GlobalState) (l : FixedBatchCopyLocalState) (batch_index : idx_t)
    (chunk : DataChunk) (interrupt_state : InterruptState) :
  ((batch_index >? min_batch_index g) = true ->
   alternative_verify = false
   /\ (unflushed_memory_usage g >=? available_memory g) = false) ->
  (if batch_index >? min_batch_index g then
     partition_min <- GetIndex (partition_min_batch_index l) ;;
     let g := UpdateMinBatchIndex g partition_min in
     let (out_of_memory, g) := OutOfMemory alternative_verify g batch_index in
     if out_of_memory
     then Sink fuel alternative_verify op g (set_current_task PROCESSING_TASKS l)
               chunk interrupt_state
     else Sink_append g l batch_index chunk
   else Sink_append g l batch_index chunk) <> OutOfFuel.
Proof.
  intros H. destruct (batch_index >? min_batch_index g);
    [ | apply Sink_append_not_OutOfFuel].
  destruct (H eq_refl) as [-> Hbelow].
  destruct (partition_min_batch_index l) as [partition_min | ]; cbn [GetIndex bind];
    [ | discriminate].
  destruct (UpdateMinBatchIndex_memory g partition_min) as [Hu Ha].
  rewrite OutOfMemory_below by (rewrite Hu, Ha; exact Hbelow).
  apply Sink_append_not_OutOfFuel.
Qed.

(** A producer that is processing tasks gets its answer without a further
    call of [Sink]. *)
Lemma Sink_processing_not_OutOfFuel (fuel : nat) (alternative_verify : bool) (op : Operator)
    (g : GlobalState) (l : FixedBatchCopyLocalState) (chunk : DataChunk)
    (interrupt_state : InterruptState) :
  current_task l = PROCESSING_TASKS ->
  Sink (S fuel) alternative_verify op g l chunk interrupt_state <> OutOfFuel.
Proof.
  intros Htask. cbn [Sink].
  destruct (partition_batch_index l) as [batch_index | ]; cbn [GetIndex bind];
    [ | discriminate].
  rewrite Htask.
  pose proof (ExecuteTasks_not_OutOfFuel op g) as Hfuel.
  destruct (ExecuteTasks op g) as [g1 | e | ]; cbn [bind];
    [ | discriminate | exfalso; apply Hfuel; reflexivity].
  pose proof (FlushBatchData_not_OutOfFuel op g1 (min_batch_index g1)) as Hfuel2.
  destruct (FlushBatchData op g1 (min_batch_index g1)) as [g2 | e | ]; cbn [bind];
    [ | discriminate | exfalso; apply Hfuel2; reflexivity].
  destruct (batch_index >? min_batch_index g2) eqn:Habove.
  - destruct (OutOfMemory alternative_verify g2 batch_index) as [out_of_memory g3] eqn:Hoom.
    pose proof (OutOfMemory_min_batch_index alternative_verify g2 batch_index) as Hmin.
    rewrite Hoom in Hmin. cbn [snd] in Hmin.
    rewrite Hmin, Habove.
    destruct out_of_memory; cbn [andb bind]; [discriminate | ].
    apply Sink_tail_not_OutOfFuel. intros _.
    destruct alternative_verify; [discriminate | ].
    split; [reflexivity | ].
    eapply OutOfMemory_false_below; [exact Hoom | exact Habove].
  - cbn [bind]. apply Sink_tail_not_OutOfFuel. intros Habs.
    rewrite Habove in Habs. discriminate.
Qed.

(** Two levels of fuel are enough for every call of [Sink]: it returns or it
    throws. *)
Lemma Sink_not_OutOfFuel (fuel : nat) (alternative_verify : bool) (op : Operator)
    (g : GlobalState) (l : FixedBatchCopyLocalState) (chunk : DataChunk)
    (interrupt_state : InterruptState) :
  Sink (S (S fuel)) alternative_verify op g l chunk interrupt_state <> OutOfFuel.
Proof.
  destruct (current_task l) eqn:Htask;
    [ | apply Sink_processing_not_OutOfFuel; exact Htask].
  cbn [Sink].
  destruct (partition_batch_index l) as [batch_index | ] eqn:Hindex; cbn [GetIndex bind];
    [ | discriminate].
  rewrite Htask. cbn [bind].
  destruct (batch_index >? min_batch_index g); [ | apply Sink_append_not_OutOfFuel].
  destruct (partition_min_batch_index l) as [partition_min | ]; cbn [GetIndex bind];
    [ | discriminate].
  destruct (OutOfMemory alternative_verify (UpdateMinBatchIndex g partition_min) batch_index)
    as [out_of_memory g1].
  destruct out_of_memory; [ | apply Sink_append_not_OutOfFuel].
  apply (Sink_processing_not_OutOfFuel fuel). reflexivity.
Qed.

(** * Further properties of the operator *)

(** ** The two ordered maps *)

Lemma insert_keys {V : Type} (k : idx_t) (v : V) (m : OrderedMap.t V) :
  forall k', In k' (OrderedMap.keys (fst (OrderedMap.insert k v m)))
             -> k' = k \/ In k' (OrderedMap.keys m).
Proof.
  unfold OrderedMap.keys. induction m as [ | [k0 v0] rest IH]; intros k' H; cbn in *.
  - destruct H as [H | []]; auto.
  - destruct (k <? k0); cbn in H.
    + destruct H as [H | H]; auto.
    + destruct (k =? k0); cbn in H; [auto | ].
      destruct (OrderedMap.insert k v rest) as [rest' fresh]; cbn in *.
      destruct H as [H | H]; [auto | ].
      destruct (IH k' H); auto.
Qed.

Lemma insert_sorted {V : Type} (k : idx_t) (v : V) (m : OrderedMap.t V) :
  OrderedMap.sorted m -> OrderedMap.sorted (fst (OrderedMap.insert k v m)).
Proof.
  unfold OrderedMap.sorted.
  induction m as [ | [k0 v0] rest IH]; intros Hs; cbn.
  - repeat constructor.
  - inversion Hs as [ | ? ? Hrest Hhead]; subst.
    destruct (Z.ltb_spec k k0) as [Hlt | Hge]; cbn.
    + constructor; [exact Hs | ].
      constructor; [exact Hlt | ].
      eapply Forall_impl; [ | exact Hhead]. intros; lia.
    + destruct (Z.eqb_spec k k0) as [Heq | Hne]; [exact Hs | ].
      pose proof (insert_keys k v rest) as Hkeys.
      specialize (IH Hrest).
      destruct (OrderedMap.insert k v rest) as [rest' fresh]; cbn in *.
      constructor; [exact IH | ].
      apply Forall_forall. intros k' Hin.
      destruct (Hkeys k' Hin) as [-> | Hold]; [lia | ].
      rewrite Forall_forall in Hhead. apply Hhead. exact Hold.
Qed.

(** On a sorted map [insert] reports a key as present exactly when it is. *)
Lemma insert_fresh_iff {V : Type} (k : idx_t) (v : V) (m : OrderedMap.t V) :
  OrderedMap.sorted m ->
  (snd (OrderedMap.insert k v m) = false <-> In k (OrderedMap.keys m)).
Proof.
  unfold OrderedMap.sorted, OrderedMap.keys.
  induction m as [ | [k0 v0] rest IH]; intros Hs; cbn.
  - split; [discriminate | tauto].
  - inversion Hs as [ | ? ? Hrest Hhead]; subst.
    destruct (Z.ltb_spec k k0) as [Hlt | Hge]; cbn.
    + split; [discriminate | ]. intros [Heq | Hin]; [lia | ].
      rewrite Forall_forall in Hhead. specialize (Hhead k Hin). lia.
    + destruct (Z.eqb_spec k k0) as [Heq | Hne]; cbn; [split; auto | ].
      specialize (IH Hrest).
      destruct (OrderedMap.insert k v rest) as [rest' fresh]; cbn in *.
      rewrite IH. split; [auto | ]. intros [Heq | Hin]; [congruence | exact Hin].
Qed.

Lemma insert_present_unchanged {V : Type} (k : idx_t) (v : V) (m : OrderedMap.t V) :
  snd (OrderedMap.insert k v m) = false -> fst (OrderedMap.insert k v m) = m.
Proof.
  induction m as [ | [k0 v0] rest IH]; cbn; [discriminate | ].
  destruct (k <? k0); cbn; [discriminate | ].
  destruct (k =? k0); cbn; [reflexivity | ].
  destruct (OrderedMap.insert k v rest) as [rest' fresh]; cbn in *.
  intros H. rewrite (IH H). reflexivity.
Qed.

Lemma insert_lookup {V : Type} (k : idx_t) (v : V) (m : OrderedMap.t V) :
  snd (OrderedMap.insert k v m) = true ->
  lookup k (fst (OrderedMap.insert k v m)) = Some v
  /\ (forall k', k' <> k ->
        lookup k' (fst (OrderedMap.insert k v m)) = lookup k' m)
  /\ List.length (fst (OrderedMap.insert k v m)) = S (List.length m).
Proof.
  induction m as [ | [k0 v0] rest IH]; cbn.
  - intros _. rewrite Z.eqb_refl. repeat split.
    intros k' Hne. apply Z.eqb_neq in Hne. rewrite Hne. reflexivity.
  - destruct (Z.ltb_spec k k0) as [Hlt | Hge]; cbn.
    + intros _. rewrite Z.eqb_refl. repeat split.
      intros k' Hne. apply Z.eqb_neq in Hne. rewrite Hne. reflexivity.
    + destruct (Z.eqb_spec k k0) as [Heq | Hne]; cbn; [discriminate | ].
      destruct (OrderedMap.insert k v rest) as [rest' fresh]; cbn in *.
      intros Hfresh. destruct (IH Hfresh) as [H1 [H2 H3]].
      apply Z.eqb_neq in Hne. rewrite Hne. repeat split; auto.
      intros k' Hk'. destruct (k' =? k0); [reflexivity | auto].
Qed.

(** X1: on sorted maps, [AddBatchData] and [AddRawBatchData] throw the
    duplicate-index error exactly for a key that is already present; for a new
    key they return a state whose map is sorted again, holds the new entry
    under that key, keeps every other entry, and has one entry more. *)
Theorem AddBatchData_AddRawBatchData_insert (g : GlobalState) (batch_index : idx_t)
    (new_batch : PreparedBatchData) (usage : idx_t) (collection_p : ColumnDataCollection) :
  (OrderedMap.sorted (batch_data g) ->
   (In batch_index (OrderedMap.keys (batch_data g)) ->
    AddBatchData g batch_index new_batch usage = Throw duplicate_batch_index_error)
   /\ (~ In batch_index (OrderedMap.keys (batch_data g)) ->
       exists g', AddBatchData g batch_index new_batch usage = Ok g'
         /\ g' = set_batch_data (batch_data g') g
         /\ OrderedMap.sorted (batch_data g')
         /\ lookup batch_index (batch_data g')
            = Some {| memory_usage := usage; prepared_data := new_batch |}
         /\ (forall k, k <> batch_index ->
               lookup k (batch_data g') = lookup k (batch_data g))
         /\ List.length (batch_data g') = S (List.length (batch_data g))))
  /\ (OrderedMap.sorted (raw_batches g) ->
      (In batch_index (OrderedMap.keys (raw_batches g)) ->
       AddRawBatchData g batch_index collection_p = Throw duplicate_batch_index_error)
      /\ (~ In batch_index (OrderedMap.keys (raw_batches g)) ->
          exists g', AddRawBatchData g batch_index collection_p = Ok g'
            /\ g' = set_raw_batches (raw_batches g') g
            /\ OrderedMap.sorted (raw_batches g')
            /\ lookup batch_index (raw_batches g') = Some collection_p
            /\ (forall k, k <> batch_index ->
                  lookup k (raw_batches g') = lookup k (raw_batches g))
            /\ List.length (raw_batches g') = S (List.length (raw_batches g)))).
Proof.
  split; intros Hsorted.
  - unfold AddBatchData.
    pose proof (insert_fresh_iff batch_index
                  {| memory_usage := usage; prepared_data := new_batch |}
                  (batch_data g) Hsorted) as Hiff.
    pose proof (insert_sorted batch_index
                  {| memory_usage := usage; prepared_data := new_batch |}
                  (batch_data g) Hsorted) as Hs.
    pose proof (insert_lookup batch_index
                  {| memory_usage := usage; prepared_data := new_batch |}
                  (batch_data g)) as Hl.
    destruct (OrderedMap.insert _ _ _) as [m fresh]; cbn [fst snd] in *.
    split.
    + intros Hin. apply Hiff in Hin. subst fresh. reflexivity.
    + intros Hnot. destruct fresh; [ | exfalso; apply Hnot, Hiff; reflexivity].
      destruct (Hl eq_refl) as [H1 [H2 H3]].
      eexists. split; [reflexivity | ]. cbn. repeat split; auto.
  - unfold AddRawBatchData.
    pose proof (insert_fresh_iff batch_index collection_p (raw_batches g) Hsorted) as Hiff.
    pose proof (insert_sorted batch_index collection_p (raw_batches g) Hsorted) as Hs.
    pose proof (insert_lookup batch_index collection_p (raw_batches g)) as Hl.
    destruct (OrderedMap.insert _ _ _) as [m fresh]; cbn [fst snd] in *.
    split.
    + intros Hin. apply Hiff in Hin. subst fresh. reflexivity.
    + intros Hnot. destruct fresh; [ | exfalso; apply Hnot, Hiff; reflexivity].
      destruct (Hl eq_refl) as [H1 [H2 H3]].
      eexists. split; [reflexivity | ]. cbn. repeat split; auto.
Qed.

(** ** The minimum batch index *)

(** X2: [UpdateMinBatchIndex] sets [min_batch_index] to the larger of its old
    value and the argument, so it never lowers it; when the value does not
    rise the state is returned as it was, and when it rises every blocked task
    is released and nothing else changes. *)
Theorem UpdateMinBatchIndex_max (g : GlobalState) (current_min_batch_index : idx_t) :
  min_batch_index (UpdateMinBatchIndex g current_min_batch_index)
  = Z.max (min_batch_index g) current_min_batch_index
  /\ (current_min_batch_index <= min_batch_index g ->
      UpdateMinBatchIndex g current_min_batch_index = g)
  /\ (min_batch_index g < current_min_batch_index ->
      UpdateMinBatchIndex g current_min_batch_index
      = set_blocked_tasks [] (set_min_batch_index current_min_batch_index g)).
Proof.
  unfold UpdateMinBatchIndex, UnblockTasksInternal.
  rewrite Z.geb_leb.
  destruct (Z.leb_spec current_min_batch_index (min_batch_index g)) as [Hle | Hgt].
  - repeat split; [lia | lia].
  - assert (Hmax : Z.max (min_batch_index g) current_min_batch_index
                   = current_min_batch_index) by lia.
    rewrite Hmax.
    replace (current_min_batch_index =? min_batch_index g) with false
      by (symmetry; apply Z.eqb_neq; lia).
    cbn [negb]. cbn [blocked_tasks set_min_batch_index].
    destruct (blocked_tasks g) eqn:Hb; cbn [snd]; repeat split; try lia.
    intros _. destruct g; cbn in *; subst; reflexivity.
Qed.

(** ** Flushing in order *)

Lemma consecutive_S (first : Z) (n : nat) :
  consecutive first (S n) = first :: consecutive (first + 1) n.
Proof.
  unfold consecutive. cbn [seq map]. rewrite Z.add_0_r. f_equal.
  rewrite <- seq_shift, map_map. apply map_ext. intros i. lia.
Qed.


Lemma wrap_add_wrap (x y : Z) : wrap (wrap x + y) = wrap (x + y).
Proof. unfold wrap. apply Zplus_mod_idemp_l. Qed.

Lemma wrap_small (x : Z) : 0 <= x < IDX_MODULUS -> wrap x = x.
Proof. intros H. unfold wrap. apply Z.mod_small. exact H. Qed.



Lemma flush_order_ok_frame (g g' : GlobalState) :
  flush_trace g' = flush_trace g -> flushed_batch_index g' = flushed_batch_index g ->
  flush_order_ok g -> flush_order_ok g'.
Proof. unfold flush_order_ok. intros -> ->. auto. Qed.

Lemma FlushBatchData_loop_flush_order (op : Operator) entries :
  forall g g' : GlobalState,
    FlushBatchData_loop op entries g = Ok g' -> flush_order_ok g -> flush_order_ok g'.
Proof.
  induction entries as [ | [first second] rest IH]; intros g g' H Hok.
  - cbn in H. inversion H; subst. exact Hok.
  - cbn [FlushBatchData_loop] in H.
    destruct (Z.eqb_spec first (flushed_batch_index g)) as [Heq | Hne]; cbn [negb] in H.
    + destruct (first <? flushed_batch_index g); [discriminate | ].
      apply bind_Ok_inv in H. destruct H as [flush [_ H]].
      apply bind_Ok_inv in H. destruct H as [gs [_ H]].
      apply IH in H; [exact H | ].
      destruct Hok as [Htrace Hflushed].
      unfold flush_order_ok. cbn. rewrite length_app. cbn [List.length].
      rewrite Nat.add_1_r, seq_S, map_app. cbn [map Nat.add].
      rewrite <- Htrace. split.
      * subst first. rewrite Hflushed. reflexivity.
      * rewrite Hflushed, wrap_add_wrap. f_equal. lia.
    + inversion H; subst. exact Hok.
Qed.

Lemma FlushBatchData_flush_order (op : Operator) (g g' : GlobalState) (min_index : idx_t) :
  FlushBatchData op g min_index = Ok g' -> flush_order_ok g -> flush_order_ok g'.
Proof.
  unfold FlushBatchData. destruct (any_flushing g).
  - intros H; inversion H; subst; auto.
  - intros H Hok. apply bind_Ok_inv in H. destruct H as [g1 [Hloop H]].
    inversion H; subst.
    apply FlushBatchData_loop_flush_order in Hloop; [exact Hloop | exact Hok].
Qed.

(** ** Executing tasks *)

Lemma tasks_frame_refl (g : GlobalState) : tasks_frame g g.
Proof. unfold tasks_frame. repeat split. Qed.

Lemma tasks_frame_trans (g1 g2 g3 : GlobalState) :
  tasks_frame g1 g2 -> tasks_frame g2 g3 -> tasks_frame g1 g3.
Proof.
  unfold tasks_frame. intros H1 H2.
  repeat match goal with H : _ /\ _ |- _ => destruct H end.
  repeat split; congruence.
Qed.

Lemma FlushBatchData_loop_frame (op : Operator) entries :
  forall g g' : GlobalState,
    FlushBatchData_loop op entries g = Ok g' ->
    tasks_frame g g' /\ task_queue g' = task_queue g /\ any_flushing g' = any_flushing g.
Proof.
  induction entries as [ | [first second] rest IH]; intros g g' H.
  - cbn in H. inversion H; subst. split; [ | auto]. unfold tasks_frame. cbn. repeat split.
  - cbn [FlushBatchData_loop] in H.
    destruct (negb (first =? flushed_batch_index g)).
    + inversion H; subst. split; [ | auto]. unfold tasks_frame. cbn. repeat split.
    + destruct (first <? flushed_batch_index g); [discriminate | ].
      apply bind_Ok_inv in H. destruct H as [fl [_ H]].
      apply bind_Ok_inv in H. destruct H as [gs [_ H]].
      apply IH in H. unfold tasks_frame in *. cbn in H. exact H.
Qed.

Lemma FlushBatchData_frame (op : Operator) (g g' : GlobalState) (min_index : idx_t) :
  FlushBatchData op g min_index = Ok g' ->
  tasks_frame g g' /\ task_queue g' = task_queue g /\ any_flushing g' = any_flushing g.
Proof.
  unfold FlushBatchData. destruct (any_flushing g) eqn:Hfl.
  - intros H; inversion H; subst. split; [apply tasks_frame_refl | auto].
  - intros H. apply bind_Ok_inv in H. destruct H as [g1 [H1 H2]].
    apply FlushBatchData_loop_frame in H1. unfold tasks_frame in *. cbn in H1.
    inversion H2; subst; cbn. tauto.
Qed.

Lemma AddBatchData_frame (g g' : GlobalState) (batch_index : idx_t)
    (new_batch : PreparedBatchData) (usage : idx_t) :
  AddBatchData g batch_index new_batch usage = Ok g' ->
  tasks_frame g g' /\ flush_trace g' = flush_trace g
  /\ flushed_batch_index g' = flushed_batch_index g.
Proof.
  unfold AddBatchData. destruct (OrderedMap.insert _ _ _) as [m fresh].
  destruct fresh; cbn; intros H; inversion H; subst.
  unfold tasks_frame. cbn. repeat split.
Qed.

Lemma Execute_frame (op : Operator) (task : BatchCopyTask) (g g' : GlobalState) :
  Execute op task g = Ok g' ->
  tasks_frame g g' /\ (flush_order_ok g -> flush_order_ok g').
Proof.
  destruct task as [ | index c]; cbn [Execute]; intros H.
  - split; [apply (FlushBatchData_frame _ _ _ _ H) | ].
    apply (FlushBatchData_flush_order _ _ _ _ H).
  - apply bind_Ok_inv in H. destruct H as [prepare [_ H]].
    apply bind_Ok_inv in H. destruct H as [prepared [_ H]].
    apply bind_Ok_inv in H. destruct H as [g1 [Hadd H]].
    apply AddBatchData_frame in Hadd. destruct Hadd as [Hf [Ht Hfl]].
    destruct (index =? flushed_batch_index g1); inversion H; subst.
    + split.
      * eapply tasks_frame_trans; [exact Hf | ]. unfold tasks_frame, AddTask. cbn.
        repeat split.
      * apply flush_order_ok_frame; cbn; assumption.
    + split; [exact Hf | apply flush_order_ok_frame; assumption].
Qed.

Lemma ExecuteTask_frame (op : Operator) (g g' : GlobalState) (executed : bool) :
  ExecuteTask op g = Ok (executed, g') ->
  tasks_frame g g' /\ (flush_order_ok g -> flush_order_ok g').
Proof.
  unfold ExecuteTask, GetTask. destruct (task_queue g) as [ | task rest].
  - intros H; inversion H; subst. split; [apply tasks_frame_refl | auto].
  - intros H. apply bind_Ok_inv in H. destruct H as [g1 [Hex H]].
    inversion H; subst. apply Execute_frame in Hex. destruct Hex as [Hf Ho].
    split.
    + eapply tasks_frame_trans; [ | exact Hf]. unfold tasks_frame. cbn. repeat split.
    + intros Hok. apply Ho. eapply flush_order_ok_frame; [ | | exact Hok]; reflexivity.
Qed.

Lemma ExecuteTasks_loop_frame (op : Operator) (fuel : nat) :
  forall g g' : GlobalState,
    ExecuteTasks_loop fuel op g = Ok g' ->
    tasks_frame g g' /\ (flush_order_ok g -> flush_order_ok g').
Proof.
  induction fuel as [ | fuel IH]; intros g g' H; [discriminate | ].
  cbn [ExecuteTasks_loop] in H.
  apply bind_Ok_inv in H. destruct H as [[executed g1] [Hex H]].
  apply ExecuteTask_frame in Hex. destruct Hex as [Hf Ho].
  destruct executed.
  - apply IH in H. destruct H as [Hf' Ho']. split; [ | auto].
    eapply tasks_frame_trans; eassumption.
  - inversion H; subst. auto.
Qed.

Lemma ProcessRemainingBatchesTask_loop_spec (op : Operator) (fuel : nat) :
  forall g : GlobalState,
    (queue_weight (task_queue g) < fuel)%nat ->
    ProcessRemainingBatchesTask_loop fuel op g <> OutOfFuel
    /\ forall g', ProcessRemainingBatchesTask_loop fuel op g = Ok g' ->
                  task_queue g' = [] /\ tasks_frame g g'
                  /\ (flush_order_ok g -> flush_order_ok g').
Proof.
  induction fuel as [ | fuel IH]; intros g Hfuel; [lia | ].
  cbn [ProcessRemainingBatchesTask_loop].
  pose proof (ExecuteTask_not_OutOfFuel op g) as Hnot.
  destruct (ExecuteTask op g) as [[executed g1] | e | ] eqn:Hex; cbn [bind];
    [ | split; [discriminate | intros; discriminate] | exfalso; apply Hnot; reflexivity].
  pose proof (ExecuteTask_fields _ _ _ _ Hex) as [_ Hw].
  apply ExecuteTask_frame in Hex. destruct Hex as [Hf Ho].
  destruct executed.
  - pose proof (FlushBatchData_not_OutOfFuel op g1 0) as Hnot2.
    destruct (FlushBatchData op g1 0) as [g2 | e | ] eqn:Hfl; cbn [bind];
      [ | split; [discriminate | intros; discriminate] | exfalso; apply Hnot2; reflexivity].
    pose proof (FlushBatchData_flush_order _ _ _ _ Hfl) as Ho2.
    apply FlushBatchData_frame in Hfl. destruct Hfl as [Hf2 [Hq2 _]].
    assert (Hfuel2 : (queue_weight (task_queue g2) < fuel)%nat) by (rewrite Hq2; lia).
    destruct (IH g2 Hfuel2) as [Hn Hspec]. split; [exact Hn | ].
    intros g' Hg'. destruct (Hspec g' Hg') as [H1 [H2 H3]].
    split; [exact H1 | split; [ | auto]].
    eapply tasks_frame_trans; [ | exact H2]. eapply tasks_frame_trans; eassumption.
  - split; [discriminate | ]. intros g' Hg'. inversion Hg'; subst.
    destruct Hw as [Hq ->]. split; [exact Hq | split; [apply tasks_frame_refl | auto]].
Qed.

(** X4: the two loops that drain the task queue, [ExecuteTasks] and the loop of
    [ProcessRemainingBatchesTask], come to an end although a prepare task can
    enqueue a flush task; when they return the queue is empty, the fields
    outside the flush path are as before, and an in-order flush history is
    still in order. *)
Theorem task_loops_drain_the_queue (op : Operator) (g : GlobalState) :
  (ExecuteTasks op g <> OutOfFuel
   /\ forall g', ExecuteTasks op g = Ok g' ->
                 task_queue g' = [] /\ tasks_frame g g'
                 /\ (flush_order_ok g -> flush_order_ok g'))
  /\ (ProcessRemainingBatchesTask op g <> OutOfFuel
      /\ forall g', ProcessRemainingBatchesTask op g = Ok g' ->
                    task_queue g' = [] /\ tasks_frame g g'
                    /\ (flush_order_ok g -> flush_order_ok g')).
Proof.
  split.
  - split; [apply ExecuteTasks_not_OutOfFuel | ].
    intros g' H. pose proof (ExecuteTasks_fields _ _ _ H) as [_ Hq].
    unfold ExecuteTasks in H. apply ExecuteTasks_loop_frame in H.
    destruct H as [Hf Ho]. auto.
  - unfold ProcessRemainingBatchesTask, task_budget.
    apply ProcessRemainingBatchesTask_loop_spec. unfold queue_weight. lia.
Qed.

(** X5: a queue that holds one prepare task for the batch index that is next
    to flush, on a state without prepared batches, is drained by [ExecuteTasks]
    in two steps: the collection is prepared, the flush task this enqueues
    hands the prepared batch to the sink, the flush counter advances by one and
    the bytes of the collection are taken off [unflushed_memory_usage]. *)
Theorem ExecuteTasks_prepare_then_flush (op : Operator) (g : GlobalState)
    (c : ColumnDataCollection) prepare flush prepared gs' :
  task_queue g = [PrepareBatchTask (flushed_batch_index g) c] ->
  batch_data g = [] ->
  any_flushing g = false ->
  prepare_batch (function op) = Some prepare ->
  prepare (bind_data op) (global_state g) c = Returns prepared ->
  flush_batch (function op) = Some flush ->
  flush (bind_data op) (global_state g) prepared = Returns gs' ->
  exists g',
    ExecuteTasks op g = Ok g'
    /\ global_state g' = gs'
    /\ flush_trace g' = flush_trace g ++ [flushed_batch_index g]
    /\ flushed_batch_index g' = wrap (flushed_batch_index g + 1)
    /\ unflushed_memory_usage g' = wrap (unflushed_memory_usage g - SizeInBytes c)
    /\ batch_data g' = [] /\ task_queue g' = [] /\ any_flushing g' = false
    /\ tasks_frame g g'.
Proof.
  intros Hq Hbd Hfl Hprepare Hprepared Hflush Hflushed.
  unfold ExecuteTasks, task_budget. rewrite Hq.
  cbn [map task_weight list_sum fold_right Nat.add ExecuteTasks_loop].
  unfold ExecuteTask at 1. unfold GetTask. rewrite Hq. cbn [Execute].
  rewrite Hprepare. cbn [call bind]. cbn [global_state set_task_queue].
  rewrite Hprepared. cbn [run bind].
  unfold AddBatchData. cbn [batch_data set_task_queue]. rewrite Hbd.
  cbn [OrderedMap.insert negb bind flushed_batch_index set_batch_data set_task_queue].
  rewrite Z.eqb_refl. cbn [bind].
  unfold ExecuteTask at 1. unfold GetTask, AddTask.
  cbn [task_queue set_task_queue set_batch_data app bind Execute].
  unfold FlushBatchData.
  cbn [any_flushing set_task_queue set_batch_data set_any_flushing batch_data].
  rewrite Hfl.
  cbn [FlushBatchData_loop flushed_batch_index set_any_flushing set_task_queue
       set_batch_data].
  rewrite Z.eqb_refl, Z.ltb_irrefl. cbn [negb].
  rewrite Hflush. cbn [call bind prepared_data global_state set_any_flushing
                       set_task_queue set_batch_data].
  rewrite Hflushed. cbn [run bind].
  unfold ExecuteTask, GetTask. cbn.
  eexists. split; [reflexivity | ]. cbn. unfold tasks_frame. cbn.
  repeat split.
Qed.

(** ** Sinking a chunk *)

Lemma memory_frame_refl (g : GlobalState) : memory_frame g g.
Proof. unfold memory_frame. repeat split. Qed.

Lemma SetMemorySize_memory_frame (g : GlobalState) (size : idx_t) :
  memory_frame g (SetMemorySize g size).
Proof.
  unfold SetMemorySize.
  destruct (Z.min size (GetQueryMaxMemory (context g) / 4) <=? available_memory g);
    [apply memory_frame_refl | ].
  cbn. destruct (_ >=? _); unfold memory_frame; cbn; repeat split.
Qed.

Lemma OutOfMemory_memory_frame (alternative_verify : bool) (g : GlobalState)
    (batch_index : idx_t) :
  memory_frame g (snd (OutOfMemory alternative_verify g batch_index)).
Proof.
  unfold OutOfMemory. destruct alternative_verify; [apply memory_frame_refl | ].
  destruct (unflushed_memory_usage g >=? available_memory g); [ | apply memory_frame_refl].
  destruct (batch_index >? min_batch_index g); [ | apply memory_frame_refl].
  assert (H : memory_frame g (IncreaseMemory g)).
  { unfold IncreaseMemory. destruct (negb (can_increase_memory g));
      [apply memory_frame_refl | apply SetMemorySize_memory_frame]. }
  destruct (_ >=? _); exact H.
Qed.

Lemma UpdateMinBatchIndex_fields (g : GlobalState) (current_min_batch_index : idx_t) :
  let g' := UpdateMinBatchIndex g current_min_batch_index in
  min_batch_index g <= min_batch_index g'
  /\ flush_trace g' = flush_trace g
  /\ flushed_batch_index g' = flushed_batch_index g
  /\ task_queue g' = task_queue g
  /\ raw_batches g' = raw_batches g
  /\ any_finished g' = any_finished g
  /\ rows_copied g' = rows_copied g.
Proof.
  cbv zeta. unfold UpdateMinBatchIndex, UnblockTasksInternal.
  rewrite Z.geb_leb.
  destruct (Z.leb_spec current_min_batch_index (min_batch_index g)); [repeat split; lia | ].
  destruct (negb _); [ | repeat split; lia].
  cbn. destruct (blocked_tasks g); cbn; repeat split; lia.
Qed.

Lemma UpdateMinBatchIndex_min (g : GlobalState) (current_min_batch_index : idx_t) :
  min_batch_index (UpdateMinBatchIndex g current_min_batch_index)
  = Z.max (min_batch_index g) current_min_batch_index.
Proof.
  unfold UpdateMinBatchIndex, UnblockTasksInternal. rewrite Z.geb_leb.
  destruct (Z.leb_spec current_min_batch_index (min_batch_index g)) as [Hle | Hgt]; [lia | ].
  destruct (Z.max (min_batch_index g) current_min_batch_index =? min_batch_index g) eqn:E;
    cbn [negb].
  - apply Z.eqb_eq in E. lia.
  - cbn [blocked_tasks set_min_batch_index]. destruct (blocked_tasks g); reflexivity.
Qed.

Lemma Sink_append_spec (g g' : GlobalState) (l l' : FixedBatchCopyLocalState)
    (b : idx_t) (chunk : DataChunk) (r : SinkResultType) :
  partition_batch_index l = Some b ->
  (current_task l = SINKING_DATA) ->
  Sink_append g l b chunk = Ok (r, g', l') ->
  r = NEED_MORE_INPUT
  /\ chunk_taken l chunk l'
  /\ min_batch_index g' = min_batch_index g
  /\ flush_trace g' = flush_trace g
  /\ flushed_batch_index g' = flushed_batch_index g.
Proof.
  intros Hb Htask. unfold Sink_append, chunk_taken, held, InitializeCollection.
  destruct (collection l) as [c | ] eqn:Hc; cbn; rewrite ?Hc; cbn;
    destruct (_ >? _); try destruct (_ <? _);
    intros H; inversion H; subst; cbn; rewrite ?Hc; repeat split; auto.
Qed.

(** What every returning call of [Sink] guarantees, by the depth of the
    recursion. *)
Lemma Sink_spec (fuel : nat) (alternative_verify : bool) (op : Operator) (chunk : DataChunk)
    (interrupt_state : InterruptState) :
  forall (g : GlobalState) (l : FixedBatchCopyLocalState) r g' l',
    Sink fuel alternative_verify op g l chunk interrupt_state = Ok (r, g', l') ->
    min_batch_index g <= min_batch_index g'
    /\ (flush_order_ok g -> flush_order_ok g')
    /\ match r with
       | BLOCKED =>
           chunk_refused l l'
           /\ (exists b, partition_batch_index l = Some b /\ min_batch_index g' < b)
           /\ (exists waiting, blocked_tasks g' = waiting ++ [interrupt_state])
           /\ task_queue g' = []
       | NEED_MORE_INPUT => chunk_taken l chunk l'
       end.
Proof.
  induction fuel as [ | fuel IH]; intros g l r g' l' H; [discriminate | ].
  cbn [Sink] in H.
  destruct (partition_batch_index l) as [b | ] eqn:Hb; cbn [GetIndex bind] in H;
    [ | discriminate].
  rewrite <- Hb.
  (* the second half of the function, from a state in sinking mode *)
  assert (Htail : forall (g1 : GlobalState) (l1 : FixedBatchCopyLocalState),
             partition_batch_index l1 = Some b ->
             current_task l1 = SINKING_DATA ->
             (if b >? min_batch_index g1 then
                partition_min <- GetIndex (partition_min_batch_index l1) ;;
                let g := UpdateMinBatchIndex g1 partition_min in
                let (out_of_memory, g) := OutOfMemory alternative_verify g b in
                if out_of_memory
                then Sink fuel alternative_verify op g
                          (set_current_task PROCESSING_TASKS l1) chunk interrupt_state
                else Sink_append g l1 b chunk
              else Sink_append g1 l1 b chunk) = Ok (r, g', l') ->
             min_batch_index g1 <= min_batch_index g'
             /\ (flush_order_ok g1 -> flush_order_ok g')
             /\ match r with
                | BLOCKED =>
                    chunk_refused l1 l'
                    /\ (exists b, partition_batch_index l1 = Some b /\ min_batch_index g' < b)
                    /\ (exists waiting, blocked_tasks g' = waiting ++ [interrupt_state])
                    /\ task_queue g' = []
                | NEED_MORE_INPUT => chunk_taken l1 chunk l'
                end).
  { intros g1 l1 Hb1 Htask1 Ht.
    destruct (b >? min_batch_index g1).
    - destruct (partition_min_batch_index l1) as [pm | ] eqn:Hpm; cbn [GetIndex bind] in Ht;
        [ | discriminate].
      destruct (UpdateMinBatchIndex_fields g1 pm) as [Hm [Htr [Hfb _]]].
      pose proof (OutOfMemory_memory_frame alternative_verify
                    (UpdateMinBatchIndex g1 pm) b) as Hmem.
      destruct (OutOfMemory alternative_verify (UpdateMinBatchIndex g1 pm) b)
        as [oom g2]. cbn [snd] in Hmem. unfold memory_frame in Hmem.
      assert (Hm2 : min_batch_index g2 = min_batch_index (UpdateMinBatchIndex g1 pm))
        by tauto.
      assert (Ho2 : flush_order_ok g1 -> flush_order_ok g2).
      { intros Hok. eapply flush_order_ok_frame; [ | | exact Hok].
        - transitivity (flush_trace (UpdateMinBatchIndex g1 pm)); [tauto | exact Htr].
        - transitivity (flushed_batch_index (UpdateMinBatchIndex g1 pm)); [tauto | exact Hfb]. }
      destruct oom.
      + apply IH in Ht. destruct Ht as [H1 [H2 H3]].
        split; [lia | ]. split; [auto | ].
        destruct r.
        * unfold chunk_taken, held in *. cbn in H3. exact H3.
        * unfold chunk_refused in *. cbn in H3. exact H3.
      + apply Sink_append_spec in Ht; [ | exact Hb1 | exact Htask1].
        destruct Ht as [-> [Htaken [Hm3 [Htr3 Hfb3]]]].
        split; [lia | ]. split; [ | exact Htaken].
        intros Hok. eapply flush_order_ok_frame; [exact Htr3 | exact Hfb3 | auto].
    - apply Sink_append_spec in Ht; [ | exact Hb1 | exact Htask1].
      destruct Ht as [-> [Htaken [Hm3 [Htr3 Hfb3]]]].
      split; [lia | ]. split; [ | exact Htaken].
      intros Hok. eapply flush_order_ok_frame; [exact Htr3 | exact Hfb3 | auto]. }
  destruct (current_task l) eqn:Htask.
  - cbn [bind] in H. apply Htail; auto.
  - apply bind_Ok_inv in H. destruct H as [[[blocked g1] l1] [Hphase H]].
    apply bind_Ok_inv in Hphase. destruct Hphase as [ga [Hex Hphase]].
    apply bind_Ok_inv in Hphase. destruct Hphase as [gb [Hfl Hphase]].
    pose proof (ExecuteTasks_fields _ _ _ Hex) as [Hma Hqa].
    unfold ExecuteTasks in Hex. apply ExecuteTasks_loop_frame in Hex.
    destruct Hex as [_ Hoa].
    pose proof (FlushBatchData_flush_order _ _ _ _ Hfl) as Hob.
    apply FlushBatchData_fields in Hfl. destruct Hfl as [Hqb [_ [Hmb _]]].
    assert (Hl1 : forall l2, partition_batch_index (set_current_task SINKING_DATA l2)
                             = partition_batch_index l2) by reflexivity.
    destruct (b >? min_batch_index gb) eqn:Habove.
    + pose proof (OutOfMemory_memory_frame alternative_verify gb b) as Hmem.
      destruct (OutOfMemory alternative_verify gb b) as [oom gc].
      cbn [snd] in Hmem. unfold memory_frame in Hmem.
      assert (Hmc : min_batch_index gc = min_batch_index gb) by tauto.
      assert (Hoc : flush_order_ok gb -> flush_order_ok gc).
      { intros Hok. eapply flush_order_ok_frame; [ | | exact Hok]; tauto. }
      destruct (oom && (b >? min_batch_index gc)) eqn:Hblock.
      * inversion Hphase; subst blocked g1 l1. inversion H; subst r g' l'.
        unfold BlockTask. cbn.
        split; [lia | ]. split; [auto | ].
        split; [unfold chunk_refused; repeat split; auto | ].
        split; [exists b; split; [exact Hb | ] | ].
        -- rewrite Hmc. rewrite Z.gtb_ltb in Habove. apply Z.ltb_lt in Habove. exact Habove.
        -- split; [eexists; reflexivity | ].
           transitivity (task_queue gb); [tauto | congruence].
      * inversion Hphase; subst blocked g1 l1.
        apply Htail in H; [ | rewrite Hl1; exact Hb | reflexivity].
        destruct H as [H1 [H2 H3]]. split; [lia | ]. split; [auto | ].
        destruct r.
        -- unfold chunk_taken, held in *. cbn in H3. exact H3.
        -- unfold chunk_refused in *. cbn in H3. exact H3.
    + inversion Hphase; subst blocked g1 l1.
      apply Htail in H; [ | rewrite Hl1; exact Hb | reflexivity].
      destruct H as [H1 [H2 H3]]. split; [lia | ]. split; [auto | ].
      destruct r.
      * unfold chunk_taken, held in *. cbn in H3. exact H3.
      * unfold chunk_refused in *. cbn in H3. exact H3.
Qed.

(** X6: a call of [Sink] that returns [BLOCKED] has not taken the chunk: the
    local collection, its row and byte counters and batch index are as before
    and the producer is left in task-processing mode.  Its batch index is above
    [min_batch_index], its interrupt state is the last entry of
    [blocked_tasks], and the task queue has been drained. *)
Theorem Sink_blocked_refuses_chunk (fuel : nat) (alternative_verify : bool) (op : Operator)
    (g g' : GlobalState) (l l' : FixedBatchCopyLocalState) (chunk : DataChunk)
    (interrupt_state : InterruptState) :
  Sink fuel alternative_verify op g l chunk interrupt_state = Ok (BLOCKED, g', l') ->
  chunk_refused l l'
  /\ (exists b, partition_batch_index l = Some b /\ min_batch_index g' < b)
  /\ (exists waiting, blocked_tasks g' = waiting ++ [interrupt_state])
  /\ task_queue g' = [].
Proof. intros H. apply Sink_spec in H. tauto. Qed.

(** X7: a call of [Sink] that returns [NEED_MORE_INPUT] has appended the chunk
    to the local collection (a fresh one if the producer held none, which then
    takes the batch index of the partition), has added the rows of the chunk
    to the local row counter, has recorded the new size in bytes, and leaves
    the producer in sinking mode. *)
Theorem Sink_need_more_input_takes_chunk (fuel : nat) (alternative_verify : bool)
    (op : Operator) (g g' : GlobalState) (l l' : FixedBatchCopyLocalState)
    (chunk : DataChunk) (interrupt_state : InterruptState) :
  Sink fuel alternative_verify op g l chunk interrupt_state = Ok (NEED_MORE_INPUT, g', l') ->
  collection l' = Some (Append (held l) chunk)
  /\ local_rows_copied l' = wrap (local_rows_copied l + chunk)
  /\ local_memory_usage l' = SizeInBytes (Append (held l) chunk)
  /\ batch_index l' = match collection l with
                      | Some _ => batch_index l
                      | None => partition_batch_index l
                      end
  /\ current_task l' = SINKING_DATA.
Proof.
  intros H. apply Sink_spec in H. destruct H as [_ [_ H]].
  unfold chunk_taken in H. tauto.
Qed.

(** X8: [Sink] calls itself at most once: with two levels of recursion every
    call returns or throws, and one level is enough for a producer that is in
    task-processing mode. *)
Theorem Sink_recursion_bounded (fuel : nat) (alternative_verify : bool) (op : Operator)
    (g : GlobalState) (l : FixedBatchCopyLocalState) (chunk : DataChunk)
    (interrupt_state : InterruptState) :
  Sink (S (S fuel)) alternative_verify op g l chunk interrupt_state <> OutOfFuel
  /\ (current_task l = PROCESSING_TASKS ->
      Sink (S fuel) alternative_verify op g l chunk interrupt_state <> OutOfFuel).
Proof.
  split; [apply Sink_not_OutOfFuel | apply Sink_processing_not_OutOfFuel].
Qed.

(** X9: for a producer in sinking mode whose batch index is not above
    [min_batch_index], [Sink] only appends: it throws when the size in bytes of
    the local collection went down, and otherwise returns [NEED_MORE_INPUT]
    with a global state that differs from the old one by the growth in bytes,
    added to [unflushed_memory_usage]; no task is run, nothing is flushed and
    the broker is not asked. *)
Theorem Sink_at_minimum_only_appends (fuel : nat) (alternative_verify : bool)
    (op : Operator) (g : GlobalState) (l : FixedBatchCopyLocalState) (chunk : DataChunk)
    (interrupt_state : InterruptState) (b : idx_t) :
  partition_batch_index l = Some b ->
  b <= min_batch_index g ->
  current_task l = SINKING_DATA ->
  let before := match collection l with
                | Some _ => local_memory_usage l
                | None => 0
                end in
  let after := SizeInBytes (Append (held l) chunk) in
  (after < before ->
   Sink (S fuel) alternative_verify op g l chunk interrupt_state
   = Throw memory_decreased_error)
  /\ (after = before ->
      exists l', Sink (S fuel) alternative_verify op g l chunk interrupt_state
                 = Ok (NEED_MORE_INPUT, g, l'))
  /\ (before < after ->
      exists l', Sink (S fuel) alternative_verify op g l chunk interrupt_state
                 = Ok (NEED_MORE_INPUT,
                       set_unflushed_memory_usage
                         (wrap (unflushed_memory_usage g + (after - before))) g,
                       l')).
Proof.
  intros Hb Hmin Htask before after.
  assert (Hsink : Sink (S fuel) alternative_verify op g l chunk interrupt_state
                  = Sink_append g l b chunk).
  { cbn [Sink]. rewrite Hb, Htask. cbn [GetIndex bind].
    replace (b >? min_batch_index g) with false
      by (symmetry; rewrite Z.gtb_ltb; apply Z.ltb_ge; lia).
    reflexivity. }
  rewrite Hsink. unfold Sink_append, InitializeCollection.
  subst before after. unfold held, Append.
  destruct (collection l) as [c | ] eqn:Hc; cbn; rewrite ?Hc; cbn.
  - repeat split; intros H.
    + replace (_ >? _) with false by (symmetry; rewrite Z.gtb_ltb; apply Z.ltb_ge; lia).
      replace (_ <? _) with true by (symmetry; apply Z.ltb_lt; lia). reflexivity.
    + rewrite H, Z.gtb_ltb, Z.ltb_irrefl. eexists; reflexivity.
    + replace (_ >? _) with true by (symmetry; rewrite Z.gtb_ltb; apply Z.ltb_lt; lia).
      eexists; reflexivity.
  - repeat split; intros H.
    + replace (_ >? _) with false by (symmetry; rewrite Z.gtb_ltb; apply Z.ltb_ge; lia).
      replace (_ <? _) with true by (symmetry; apply Z.ltb_lt; lia). reflexivity.
    + rewrite H, Z.gtb_ltb, Z.ltb_irrefl. eexists; reflexivity.
    + replace (_ >? _) with true by (symmetry; rewrite Z.gtb_ltb; apply Z.ltb_lt; lia).
      eexists; reflexivity.
Qed.

(** ** Repartitioning keeps the rows and numbers the batches densely *)

Lemma repartition_frame_refl (g : GlobalState) : repartition_frame g g.
Proof. unfold repartition_frame. repeat split. Qed.

Lemma repartition_frame_trans (g1 g2 g3 : GlobalState) :
  repartition_frame g1 g2 -> repartition_frame g2 g3 -> repartition_frame g1 g3.
Proof.
  unfold repartition_frame. intros H1 H2.
  repeat match goal with H : _ /\ _ |- _ => destruct H end.
  repeat split; congruence.
Qed.

Lemma schedule_batch_frame (c : ColumnDataCollection) (g : GlobalState) :
  repartition_frame g (schedule_batch c g).
Proof. unfold repartition_frame, schedule_batch, AddTask. cbn. repeat split. Qed.

Lemma numbered_from_nil (scheduled : idx_t) : numbered_from scheduled [] scheduled.
Proof. unfold numbered_from. cbn. intros. split; [reflexivity | lia]. Qed.

Lemma numbered_from_cons (scheduled : idx_t) (c : ColumnDataCollection)
    (new : list BatchCopyTask) (scheduled' : idx_t) :
  numbered_from (wrap (scheduled + 1)) new scheduled' ->
  numbered_from scheduled (PrepareBatchTask scheduled c :: new) scheduled'.
Proof.
  unfold numbered_from. cbn [List.length map task_index]. intros H Hnn Hbound.
  rewrite wrap_small in H by (unfold IDX_MODULUS in *; lia).
  destruct H as [H1 H2]; [lia | lia | ].
  rewrite consecutive_S, H1. split; [reflexivity | lia].
Qed.

Lemma consecutive_app (first : Z) (n m : nat) :
  consecutive first (n + m) = consecutive first n ++ consecutive (first + Z.of_nat n) m.
Proof.
  revert first. induction n as [ | n IH]; intros first.
  - cbn [Nat.add]. unfold consecutive at 2. cbn. rewrite Z.add_0_r. reflexivity.
  - cbn [Nat.add]. rewrite !consecutive_S, IH. cbn [app]. do 3 f_equal. lia.
Qed.

Lemma numbered_from_app (s1 s2 s3 : idx_t) (new1 new2 : list BatchCopyTask) :
  numbered_from s1 new1 s2 -> numbered_from s2 new2 s3 ->
  numbered_from s1 (new1 ++ new2) s3.
Proof.
  unfold numbered_from. rewrite length_app, Nat2Z.inj_add. intros H1 H2 Hnn Hbound.
  destruct H1 as [H1 H1']; [lia | lia | ].
  destruct H2 as [H2 H2']; [lia | lia | ].
  split; [ | lia].
  rewrite map_app, H1, H2, consecutive_app. subst s2. reflexivity.
Qed.

Lemma append_chunks_sequence (chunks : list DataChunk) :
  forall cur (g : GlobalState) cur' g',
    append_chunks chunks cur g = (cur', g') ->
    repartition_frame g g' /\ raw_batches g' = raw_batches g
    /\ exists new,
        task_queue g' = task_queue g ++ new
        /\ Forall is_prepare new
        /\ List.concat (map task_collection new) ++ cur' = cur ++ chunks
        /\ numbered_from (scheduled_batch_index g) new (scheduled_batch_index g').
Proof.
  induction chunks as [ | chunk rest IH]; intros cur g cur' g' H.
  - cbn in H. inversion H; subst.
    split; [apply repartition_frame_refl | ]. split; [reflexivity | ].
    exists []. rewrite !app_nil_r. cbn.
    repeat apply conj; try reflexivity; [constructor | apply numbered_from_nil].
  - cbn [append_chunks] in H.
    destruct (Count (Append cur chunk) <? batch_size g).
    + apply IH in H. destruct H as [Hf [Hr [new [Hq [Hp [Hc Hn]]]]]].
      split; [exact Hf | ]. split; [exact Hr | ].
      exists new. repeat apply conj; auto.
      rewrite Hc. unfold Append. rewrite <- app_assoc. reflexivity.
    + apply IH in H. destruct H as [Hf [Hr [new [Hq [Hp [Hc Hn]]]]]].
      destruct (schedule_batch_fields (Append cur chunk) g) as [Hsq [_ [Hsr Hss]]].
      split; [eapply repartition_frame_trans; [apply schedule_batch_frame | exact Hf] | ].
      split; [congruence | ].
      exists (PrepareBatchTask (scheduled_batch_index g) (Append cur chunk) :: new).
      repeat apply conj.
      * rewrite Hq, Hsq, <- app_assoc. reflexivity.
      * constructor; [exact I | exact Hp].
      * cbn [map task_collection List.concat]. rewrite <- app_assoc, Hc.
        unfold Append. cbn [app]. rewrite <- app_assoc. reflexivity.
      * apply numbered_from_cons. rewrite <- Hss. exact Hn.
Qed.

Lemma repartition_loop_sequence (collections : list ColumnDataCollection) :
  forall current (g : GlobalState) current' g',
    repartition_loop collections current g = (current', g') ->
    repartition_frame g g' /\ raw_batches g' = raw_batches g
    /\ (collections = [] -> current' = current)
    /\ exists new,
        task_queue g' = task_queue g ++ new
        /\ Forall is_prepare new
        /\ List.concat (map task_collection new) ++ accumulated current'
           = accumulated current ++ List.concat collections
        /\ numbered_from (scheduled_batch_index g) new (scheduled_batch_index g').
Proof.
  induction collections as [ | c rest IH]; intros current g current' g' H.
  - cbn in H. inversion H; subst.
    split; [apply repartition_frame_refl | ]. split; [reflexivity | ].
    split; [reflexivity | ].
    exists []. rewrite !app_nil_r. cbn.
    repeat apply conj; try reflexivity; [constructor | apply numbered_from_nil].
  - cbn [repartition_loop] in H.
    assert (Hstep : forall cur0 cur1 (g1 : GlobalState),
               append_chunks (Chunks c) cur0 g = (cur1, g1) ->
               repartition_loop rest (Some cur1) g1 = (current', g') ->
               repartition_frame g g' /\ raw_batches g' = raw_batches g
               /\ (c :: rest = [] -> current' = current)
               /\ exists new,
                   task_queue g' = task_queue g ++ new
                   /\ Forall is_prepare new
                   /\ List.concat (map task_collection new) ++ accumulated current'
                      = cur0 ++ List.concat (c :: rest)
                   /\ numbered_from (scheduled_batch_index g) new
                                    (scheduled_batch_index g')).
    { intros cur0 cur1 g1 Happ Hrest.
      apply append_chunks_sequence in Happ.
      destruct Happ as [Hf1 [Hr1 [new1 [Hq1 [Hp1 [Hc1 Hn1]]]]]].
      apply IH in Hrest. destruct Hrest as [Hf [Hr [_ [new [Hq [Hp [Hc Hn]]]]]]].
      split; [eapply repartition_frame_trans; eassumption | ].
      split; [congruence | ]. split; [discriminate | ].
      exists (new1 ++ new). repeat apply conj.
      - rewrite Hq, Hq1, <- app_assoc. reflexivity.
      - apply Forall_app; auto.
      - rewrite map_app, concat_app, <- app_assoc, Hc. cbn [accumulated List.concat].
        rewrite app_assoc, Hc1. unfold Chunks. rewrite <- app_assoc. reflexivity.
      - eapply numbered_from_app; eassumption. }
    destruct current as [cur | ].
    + destruct (append_chunks (Chunks c) cur g) as [cur1 g1] eqn:Happ.
      apply (Hstep cur cur1 g1 Happ H).
    + destruct (CorrectSizeForBatch (Count c) (batch_size g)).
      * apply IH in H. destruct H as [Hf [Hr [_ [new [Hq [Hp [Hc Hn]]]]]]].
        destruct (schedule_batch_fields c g) as [Hsq [_ [Hsr Hss]]].
        split; [eapply repartition_frame_trans; [apply schedule_batch_frame | exact Hf] | ].
        split; [congruence | ]. split; [discriminate | ].
        exists (PrepareBatchTask (scheduled_batch_index g) c :: new). repeat apply conj.
        -- rewrite Hq, Hsq, <- app_assoc. reflexivity.
        -- constructor; [exact I | exact Hp].
        -- cbn [map task_collection List.concat accumulated app] in *.
           rewrite <- app_assoc, Hc. reflexivity.
        -- apply numbered_from_cons. rewrite <- Hss. exact Hn.
      * destruct (Count c <? batch_size g).
        -- apply IH in H. destruct H as [Hf [Hr [_ [new [Hq [Hp [Hc Hn]]]]]]].
           split; [exact Hf | ]. split; [exact Hr | ]. split; [discriminate | ].
           exists new. repeat apply conj; auto.
        -- destruct (append_chunks (Chunks c) [] g) as [cur1 g1] eqn:Happ.
           apply (Hstep [] cur1 g1 Happ H).
Qed.

Lemma last_cons_default (k : idx_t) (keys : list idx_t) (d : idx_t) :
  last (k :: keys) d = last keys k.
Proof.
  revert k d. induction keys as [ | x keys IH]; intros k d; [reflexivity | ].
  change (last (k :: x :: keys) d) with (last (x :: keys) d).
  rewrite (IH x d), (IH x k). reflexivity.
Qed.

Lemma gather_loop_spec (min_index : idx_t) (entries : OrderedMap.t ColumnDataCollection) :
  forall max_batch_index collections,
  exists taken remaining,
    gather_loop min_index entries max_batch_index collections
    = (last (OrderedMap.keys taken) max_batch_index, collections ++ map snd taken, remaining)
    /\ entries = taken ++ remaining
    /\ Forall (fun k => k < min_index) (OrderedMap.keys taken)
    /\ (forall k v rest, remaining = (k, v) :: rest -> min_index <= k).
Proof.
  induction entries as [ | [first second] rest IH]; intros m cs.
  - exists [], []. cbn. rewrite app_nil_r.
    repeat apply conj; try reflexivity; [constructor | intros; discriminate].
  - cbn [gather_loop]. rewrite Z.geb_leb.
    destruct (Z.leb_spec min_index first) as [Hge | Hlt].
    + exists [], ((first, second) :: rest). cbn. rewrite app_nil_r.
      repeat apply conj; try reflexivity; [constructor | ].
      intros k v rest' Heq. inversion Heq; subst. exact Hge.
    + destruct (IH first (cs ++ [second])) as [taken [remaining [Hg [He [Hk Hr]]]]].
      exists ((first, second) :: taken), remaining.
      unfold OrderedMap.keys in *. cbn [map fst snd].
      rewrite last_cons_default, Hg, <- app_assoc. cbn [app].
      repeat apply conj; try reflexivity;
        [congruence | constructor; assumption | exact Hr].
Qed.

Lemma sorted_app_inv {V : Type} (taken remaining : OrderedMap.t V) :
  OrderedMap.sorted (taken ++ remaining) ->
  OrderedMap.sorted remaining
  /\ forall d, taken <> [] ->
               Forall (Z.lt (last (OrderedMap.keys taken) d)) (OrderedMap.keys remaining).
Proof.
  unfold OrderedMap.sorted, OrderedMap.keys.
  induction taken as [ | [k v] taken IH]; intros Hs.
  - split; [exact Hs | ]. intros d Hne. contradiction.
  - cbn [app map fst] in Hs. inversion Hs as [ | ? ? Hrest Hhead]; subst.
    destruct (IH Hrest) as [Hr Hlast]. split; [exact Hr | ].
    intros d _. cbn [map fst]. rewrite last_cons_default.
    destruct taken as [ | e taken].
    + cbn. rewrite map_app in Hhead. apply Forall_app in Hhead. cbn in Hhead. tauto.
    + apply Hlast. discriminate.
Qed.

Lemma assign_before {V : Type} (k : idx_t) (v : V) (m : OrderedMap.t V) :
  Forall (Z.lt k) (OrderedMap.keys m) -> OrderedMap.assign k v m = (k, v) :: m.
Proof.
  destruct m as [ | [k' v'] rest]; [reflexivity | ].
  unfold OrderedMap.keys. cbn. intros H. inversion H; subst.
  replace (k <? k') with true by (symmetry; apply Z.ltb_lt; assumption).
  reflexivity.
Qed.

Lemma positive_Count (c : ColumnDataCollection) :
  Forall (fun chunk => 0 < chunk) c -> c <> [] -> 0 < Count c.
Proof.
  unfold Count. induction 1 as [ | x c Hx Hc IH]; intros Hne; [contradiction | ].
  cbn [fold_right]. destruct c as [ | y c]; [cbn; lia | ].
  assert (0 < fold_right Z.add 0 (y :: c)) by (apply IH; discriminate). lia.
Qed.

Lemma repartition_post_unchanged (g : GlobalState) (min_index : idx_t) (final : bool) :
  (final = true -> raw_batches g = []) -> repartition_post g min_index final g.
Proof.
  intros Hfinal. split; [apply repartition_frame_refl | ].
  exists []. rewrite app_nil_r. cbn.
  repeat apply conj; try reflexivity; [constructor | apply numbered_from_nil | auto | auto].
Qed.

Lemma gather_all (min_index : idx_t) (taken remaining : OrderedMap.t ColumnDataCollection) :
  Forall (fun k => k < min_index) (OrderedMap.keys (taken ++ remaining)) ->
  (forall k v rest, remaining = (k, v) :: rest -> min_index <= k) ->
  remaining = [].
Proof.
  intros Hall Hhead. destruct remaining as [ | [k v] rest]; [reflexivity | ].
  specialize (Hhead k v rest eq_refl).
  unfold OrderedMap.keys in Hall. rewrite map_app in Hall.
  apply Forall_app in Hall. destruct Hall as [_ Hrem].
  inversion Hrem; subst. cbn in *. lia.
Qed.

Lemma repartition_main_post (g : GlobalState) (min_index : idx_t) (final : bool) :
  repartition_post g min_index final
    (let '(max_batch_index, collections, remaining) :=
       gather_loop min_index (raw_batches g) 0 [] in
     let g := set_raw_batches remaining g in
     let (current_collection, g) := repartition_loop collections None g in
     match current_collection with
     | Some current =>
         if Count current >? 0 then
           if final || CorrectSizeForBatch (Count current) (batch_size g)
           then schedule_batch current g
           else set_raw_batches
                  (OrderedMap.assign max_batch_index current (raw_batches g)) g
         else g
     | None => g
     end).
Proof.
  destruct (gather_loop_spec min_index (raw_batches g) 0 [])
    as [taken [remaining [Hg [He [Hk Hr]]]]].
  rewrite Hg. cbn [app].
  set (g0 := set_raw_batches remaining g).
  assert (Hf0 : repartition_frame g g0)
    by (unfold repartition_frame, g0; cbn; repeat split).
  destruct (repartition_loop (map snd taken) None g0) as [current g1] eqn:Hloop.
  apply repartition_loop_sequence in Hloop.
  destruct Hloop as [Hf1 [Hr1 [Hnil [new [Hq [Hp [Hc Hn]]]]]]].
  change (task_queue g0) with (task_queue g) in Hq.
  change (scheduled_batch_index g0) with (scheduled_batch_index g) in Hn.
  change (raw_batches g0) with remaining in Hr1.
  cbn [accumulated app] in Hc.
  assert (Hall : all_chunks (raw_batches g)
                 = List.concat (map snd taken) ++ all_chunks remaining).
  { unfold all_chunks. rewrite He, map_app, concat_app. reflexivity. }
  assert (Hdrain : final = true ->
                   Forall (fun k => k < min_index) (OrderedMap.keys (raw_batches g)) ->
                   remaining = []).
  { intros _ Hkeys. rewrite He in Hkeys. eapply gather_all; eassumption. }
  assert (Hf : repartition_frame g g1) by exact (repartition_frame_trans _ _ _ Hf0 Hf1).
  assert (Hsorted : OrderedMap.sorted (raw_batches g) -> OrderedMap.sorted remaining).
  { intros Hs. rewrite He in Hs. apply (sorted_app_inv taken remaining Hs). }
  (* the call ends without a rest *)
  assert (Hplain : accumulated current = [] \/
                   ~ Forall (fun chunk => 0 < chunk) (all_chunks (raw_batches g)) ->
                   repartition_post g min_index final g1).
  { intros Hempty. split; [exact Hf | ].
    exists new. repeat apply conj; auto.
    - intros Hs Hpos. split; [ | rewrite Hr1; auto].
      destruct Hempty as [Hempty | Hneg]; [ | contradiction].
      rewrite Hr1, Hall, <- Hc, Hempty, app_nil_r. reflexivity.
    - intros Hfin Hkeys. rewrite Hr1. auto. }
  destruct current as [cur | ]; [ | apply Hplain; left; reflexivity].
  cbn [accumulated] in *.
  destruct (Z.gtb_spec (Count cur) 0) as [Hcount | Hcount].
  - destruct (schedule_batch_fields cur g1) as [Hsq [_ [Hsr Hss]]].
    destruct (final || CorrectSizeForBatch (Count cur) (batch_size g1)) eqn:Hdecide.
    + split; [eapply repartition_frame_trans; [exact Hf | apply schedule_batch_frame] | ].
      exists (new ++ [PrepareBatchTask (scheduled_batch_index g1) cur]).
      repeat apply conj.
      * rewrite Hsq, Hq, <- app_assoc. reflexivity.
      * apply Forall_app. split; [exact Hp | constructor; [exact I | constructor]].
      * eapply numbered_from_app; [exact Hn | ].
        apply numbered_from_cons. rewrite <- Hss. apply numbered_from_nil.
      * intros Hs Hpos. split; [ | rewrite Hsr, Hr1; auto].
        rewrite Hsr, Hr1, Hall, <- Hc, map_app, concat_app. cbn.
        rewrite app_nil_r, <- app_assoc. reflexivity.
      * intros Hfin Hkeys. rewrite Hsr, Hr1. auto.
    + apply orb_false_iff in Hdecide. destruct Hdecide as [Hfinal _].
      split.
      { eapply repartition_frame_trans; [exact Hf | ].
        unfold repartition_frame. cbn. repeat split. }
      exists new. cbn [task_queue scheduled_batch_index raw_batches set_raw_batches].
      repeat apply conj; auto.
      * intros Hs Hpos.
        assert (Htaken : taken <> []).
        { intros ->. specialize (Hnil eq_refl). discriminate. }
        rewrite He in Hs. destruct (sorted_app_inv taken remaining Hs) as [Hrem Hlast].
        specialize (Hlast 0 Htaken).
        rewrite Hr1, (assign_before _ _ _ Hlast). split.
        -- rewrite Hall, <- Hc. unfold all_chunks. cbn. rewrite <- app_assoc. reflexivity.
        -- unfold OrderedMap.sorted, OrderedMap.keys in *. cbn [map fst].
           constructor; [exact Hrem | exact Hlast].
      * intros Hfin. congruence.
  - apply Hplain.
    destruct (list_eq_dec Z.eq_dec cur []) as [Hnil' | Hne]; [left; exact Hnil' | right].
    intros Hpos. rewrite Hall, <- Hc in Hpos.
    apply Forall_app in Hpos. destruct Hpos as [Hpos _].
    apply Forall_app in Hpos. destruct Hpos as [_ Hpos].
    pose proof (positive_Count cur Hpos Hne). lia.
Qed.

(** A call of [RepartitionBatches], whichever way it ends. *)
Lemma RepartitionBatches_post (g : GlobalState) (min_index : idx_t) (final : bool) :
  repartition_post g min_index final (RepartitionBatches g min_index final).
Proof.
  unfold RepartitionBatches.
  destruct (raw_batches g) as [ | e entries] eqn:Hraw.
  - apply repartition_post_unchanged. auto.
  - destruct final; cbn [negb andb].
    + rewrite <- Hraw. apply repartition_main_post.
    + destruct (any_finished g);
        [apply repartition_post_unchanged; intros; discriminate | ].
      destruct (_ <? _);
        [apply repartition_post_unchanged; intros; discriminate | ].
      rewrite <- Hraw. apply repartition_main_post.
Qed.

(** X10: on a sorted map of raw batches whose chunks are not empty, a call of
    [RepartitionBatches] neither drops nor duplicates nor reorders a chunk:
    the chunks of the prepare tasks it appends to the queue, in queue order,
    followed by the chunks of the raw batches it leaves, in key order, are
    the chunks of the raw batches it found; so the rows add up, and the map
    it leaves is sorted. *)
Theorem RepartitionBatches_keeps_chunks (g : GlobalState) (min_index : idx_t)
    (final : bool) :
  OrderedMap.sorted (raw_batches g) ->
  Forall (fun chunk => 0 < chunk) (all_chunks (raw_batches g)) ->
  let g' := RepartitionBatches g min_index final in
  exists new,
    task_queue g' = task_queue g ++ new
    /\ Forall is_prepare new
    /\ List.concat (map task_collection new) ++ all_chunks (raw_batches g')
       = all_chunks (raw_batches g)
    /\ Count (List.concat (map task_collection new)) + Count (all_chunks (raw_batches g'))
       = Count (all_chunks (raw_batches g))
    /\ OrderedMap.sorted (raw_batches g').
Proof.
  intros Hsorted Hpos g'.
  destruct (RepartitionBatches_post g min_index final) as [_ [new [Hq [Hp [_ [Hc _]]]]]].
  destruct (Hc Hsorted Hpos) as [Hchunks Hs].
  exists new. subst g'. repeat apply conj; auto.
  rewrite <- Count_app. f_equal. exact Hchunks.
Qed.

(** X11: [RepartitionBatches] changes nothing but the raw batches, the
    scheduling counter and the task queue; the tasks it appends are prepare
    tasks that carry the batch indices [scheduled_batch_index],
    [scheduled_batch_index + 1], ... in queue order, and the counter ends one
    past the last of them (as long as it stays below [2 ^ 64]). *)
Theorem RepartitionBatches_numbers_densely (g : GlobalState) (min_index : idx_t)
    (final : bool) :
  let g' := RepartitionBatches g min_index final in
  repartition_frame g g'
  /\ exists new,
      task_queue g' = task_queue g ++ new
      /\ Forall is_prepare new
      /\ (0 <= scheduled_batch_index g ->
          scheduled_batch_index g + Z.of_nat (List.length new) < IDX_MODULUS ->
          map task_index new = consecutive (scheduled_batch_index g) (List.length new)
          /\ scheduled_batch_index g'
             = scheduled_batch_index g + Z.of_nat (List.length new)).
Proof.
  cbv zeta.
  destruct (RepartitionBatches_post g min_index final) as [Hf [new [Hq [Hp [Hn _]]]]].
  split; [exact Hf | ]. exists new. repeat apply conj; auto.
Qed.

(** X12: a final call of [RepartitionBatches] with every key of the raw map
    below [min_index] leaves no raw batch behind. *)
Theorem RepartitionBatches_final_empties_raw (g : GlobalState) (min_index : idx_t) :
  Forall (fun k => k < min_index) (OrderedMap.keys (raw_batches g)) ->
  raw_batches (RepartitionBatches g min_index true) = [].
Proof.
  intros Hkeys.
  destruct (RepartitionBatches_post g min_index true) as [_ [new [_ [_ [_ [_ Hd]]]]]].
  apply Hd; [reflexivity | exact Hkeys].
Qed.

(** ** Finalize, Combine and NextBatch *)

Lemma RepartitionBatches_fields (g : GlobalState) (min_index : idx_t) (final : bool) :
  let g' := RepartitionBatches g min_index final in
  min_batch_index g' = min_batch_index g
  /\ flush_trace g' = flush_trace g
  /\ flushed_batch_index g' = flushed_batch_index g
  /\ any_finished g' = any_finished g
  /\ rows_copied g' = rows_copied g
  /\ blocked_tasks g' = blocked_tasks g.
Proof.
  cbv zeta. destruct (RepartitionBatches_post g min_index final) as [Hf _].
  unfold repartition_frame in Hf. tauto.
Qed.

Lemma flush_order_ok_tasks_frame_inv (g g' : GlobalState) :
  flush_trace g' = flush_trace g -> flushed_batch_index g' = flushed_batch_index g ->
  flush_order_ok g' -> flush_order_ok g.
Proof. unfold flush_order_ok. intros -> ->. auto. Qed.

(** What a returning [FinalFlush] has done. *)
Lemma FinalFlush_post (op : Operator) (g g' : GlobalState) :
  FinalFlush op g = Ok g' ->
  task_queue g = [] /\ task_queue g' = []
  /\ scheduled_batch_index g' = flushed_batch_index g'
  /\ raw_batches g' = raw_batches g
  /\ min_batch_index g' = min_batch_index g
  /\ rows_copied g' = rows_copied g
  /\ any_finished g' = any_finished g
  /\ (flush_order_ok g -> flush_order_ok g')
  /\ finalized g' = finalized g || negb (is_null (copy_to_finalize (function op)))
  /\ tmp_file_moved g'
     = tmp_file_moved g
       || (use_tmp_file op && negb (is_null (copy_to_finalize (function op)))).
Proof.
  unfold FinalFlush. intros H.
  destruct (TaskCount g =? 0) eqn:Hq; cbn [negb] in H; [ | discriminate].
  apply Z.eqb_eq, TaskCount_zero in Hq. cbv zeta in H.
  apply bind_Ok_inv in H. destruct H as [g1 [Hfl H]].
  pose proof (FlushBatchData_flush_order _ _ _ _ Hfl) as Ho.
  apply FlushBatchData_frame in Hfl. destruct Hfl as [Hf [Hq1 _]].
  unfold tasks_frame in Hf.
  destruct (scheduled_batch_index g1 =? flushed_batch_index g1) eqn:He;
    cbn [negb] in H; [ | discriminate].
  apply Z.eqb_eq in He.
  assert (Hrest : task_queue g1 = [] /\ scheduled_batch_index g1 = flushed_batch_index g1
                  /\ raw_batches g1 = raw_batches g
                  /\ min_batch_index g1 = min_batch_index g
                  /\ rows_copied g1 = rows_copied g
                  /\ any_finished g1 = any_finished g
                  /\ finalized g1 = finalized g /\ tmp_file_moved g1 = tmp_file_moved g).
  { repeat apply conj; try tauto. congruence. }
  destruct Hrest as [R1 [R2 [R3 [R4 [R5 [R6 [R7 R8]]]]]]].
  assert (Horder : flush_trace g' = flush_trace g1 ->
                   flushed_batch_index g' = flushed_batch_index g1 ->
                   flush_order_ok g -> flush_order_ok g').
  { intros Ht Hfb Hok. eapply flush_order_ok_frame; [exact Ht | exact Hfb | auto]. }
  destruct (copy_to_finalize (function op)) as [fin | ]; cbn [is_null negb].
  - apply bind_Ok_inv in H. destruct H as [gs [_ H]].
    destruct (use_tmp_file op); inversion H; subst; cbn in *;
      rewrite ?R7, ?R8, ?orb_true_r, ?orb_false_r;
      repeat apply conj; auto.
  - inversion H; subst. rewrite andb_false_r, !orb_false_r.
    repeat apply conj; auto.
Qed.

Lemma run_event_tasks_post (op : Operator) (threads : nat) :
  forall g g' : GlobalState,
    run_event_tasks threads op g = Ok g' ->
    tasks_frame g g' /\ (flush_order_ok g -> flush_order_ok g')
    /\ (threads <> O -> task_queue g' = []).
Proof.
  induction threads as [ | threads IH]; intros g g' H.
  - cbn in H. inversion H; subst.
    split; [apply tasks_frame_refl | ]. split; [auto | ]. intros Hne. contradiction.
  - cbn [run_event_tasks] in H.
    apply bind_Ok_inv in H. destruct H as [g1 [Htask H]].
    unfold ProcessRemainingBatchesTask, task_budget in Htask.
    destruct (ProcessRemainingBatchesTask_loop_spec op
                (S (list_sum (map task_weight (task_queue g)))) g) as [_ Hspec];
      [unfold queue_weight; lia | ].
    destruct (Hspec g1 Htask) as [Hq1 [Hf1 Ho1]].
    destruct (IH g1 g' H) as [Hf [Ho Hq]].
    split; [eapply tasks_frame_trans; eassumption | ]. split; [auto | ].
    intros _. destruct threads as [ | threads]; [ | apply Hq; discriminate].
    cbn in H. inversion H; subst. exact Hq1.
Qed.


(** What a returning [Finalize] has done. *)
Lemma Finalize_post (op : Operator) (g : GlobalState) :
  forall r inserted g',
      Finalize op g = Ok (r, inserted, g') ->
      inserted = negb (TaskCount (RepartitionBatches g INT64_MAXIMUM true) <=? 1)
      /\ (inserted = true -> g' = RepartitionBatches g INT64_MAXIMUM true)
      /\ (inserted = false ->
          task_queue g' = [] /\ scheduled_batch_index g' = flushed_batch_index g')
      /\ (Forall (fun k => k < INT64_MAXIMUM) (OrderedMap.keys (raw_batches g)) ->
          raw_batches g' = [])
      /\ (flush_order_ok g -> flush_order_ok g')
      /\ min_batch_index g' = min_batch_index g.
Proof.
  intros r inserted g' H. unfold Finalize in H. cbv zeta in H.
  assert (Hraw : Forall (fun k => k < INT64_MAXIMUM) (OrderedMap.keys (raw_batches g)) ->
                 raw_batches (RepartitionBatches g INT64_MAXIMUM true) = []).
  { intros Hkeys.
    destruct (RepartitionBatches_post g INT64_MAXIMUM true)
      as [_ [new [_ [_ [_ [_ Hd]]]]]].
    apply Hd; [reflexivity | exact Hkeys]. }
  destruct (RepartitionBatches_fields g INT64_MAXIMUM true) as [Hm [Ht [Hfb _]]].
  set (g0 := RepartitionBatches g INT64_MAXIMUM true) in *.
  assert (Ho0 : flush_order_ok g -> flush_order_ok g0)
    by (intros Hok; eapply flush_order_ok_frame; eauto).
  destruct (TaskCount g0 <=? 1); cbn [negb].
  + apply bind_Ok_inv in H. destruct H as [g1 [Hex H]].
    apply bind_Ok_inv in H. destruct H as [g2 [Hff H]].
    inversion H; subst r inserted g'.
    pose proof (ExecuteTasks_fields _ _ _ Hex) as [Hm1 _].
    unfold ExecuteTasks in Hex. apply ExecuteTasks_loop_frame in Hex.
    destruct Hex as [Hf1 Ho1]. unfold tasks_frame in Hf1.
    apply FinalFlush_post in Hff.
    destruct Hff as [_ [Hq2 [He2 [Hr2 [Hm2 [_ [_ [Ho2 _]]]]]]]].
    repeat apply conj; auto; try discriminate.
    * intros Hkeys. rewrite Hr2. transitivity (raw_batches g0); [tauto | auto].
    * congruence.
  + inversion H; subst r inserted g'.
    repeat apply conj; auto; discriminate.
Qed.

(** What a returning [ProcessRemainingBatchesEvent] has done. *)
Lemma ProcessRemainingBatchesEvent_post (op : Operator) (g : GlobalState) :
  forall g',
         ProcessRemainingBatchesEvent op g = Ok g' ->
         task_queue g' = [] /\ scheduled_batch_index g' = flushed_batch_index g'
         /\ raw_batches g' = raw_batches g
         /\ (flush_order_ok g -> flush_order_ok g')
         /\ min_batch_index g' = min_batch_index g.
Proof.
  intros g' H. unfold ProcessRemainingBatchesEvent in H.
  apply bind_Ok_inv in H. destruct H as [g1 [Hrun H]].
  apply run_event_tasks_post in Hrun. destruct Hrun as [Hf1 [Ho1 _]].
  unfold tasks_frame in Hf1.
  apply FinalFlush_post in H.
  destruct H as [_ [Hq2 [He2 [Hr2 [Hm2 [_ [_ [Ho2 _]]]]]]]].
  repeat apply conj; auto.
  + rewrite Hr2. tauto.
  + rewrite Hm2. tauto.
Qed.

(** X14: both ways through finalization end with an empty task queue and with
    [scheduled_batch_index = flushed_batch_index].  [Finalize] inserts the
    event exactly when more than one task is queued after the final
    repartitioning, and then returns the repartitioned state; otherwise it has
    run what was queued and [FinalFlush] itself.  When every raw key is below
    the largest signed 64-bit integer no raw batch is left.  An in-order flush
    history stays in order. *)
Theorem Finalize_closure (op : Operator) (g : GlobalState) :
  (forall r inserted g',
      Finalize op g = Ok (r, inserted, g') ->
      inserted = negb (TaskCount (RepartitionBatches g INT64_MAXIMUM true) <=? 1)
      /\ (inserted = true -> g' = RepartitionBatches g INT64_MAXIMUM true)
      /\ (inserted = false ->
          task_queue g' = [] /\ scheduled_batch_index g' = flushed_batch_index g')
      /\ (Forall (fun k => k < INT64_MAXIMUM) (OrderedMap.keys (raw_batches g)) ->
          raw_batches g' = [])
      /\ (flush_order_ok g -> flush_order_ok g')
      /\ min_batch_index g' = min_batch_index g)
  /\ (forall g',
         ProcessRemainingBatchesEvent op g = Ok g' ->
         task_queue g' = [] /\ scheduled_batch_index g' = flushed_batch_index g'
         /\ raw_batches g' = raw_batches g
         /\ (flush_order_ok g -> flush_order_ok g')
         /\ min_batch_index g' = min_batch_index g).
Proof.
  split; [apply Finalize_post | apply ProcessRemainingBatchesEvent_post].
Qed.

Lemma RepartitionBatches_any_finished (g : GlobalState) (min_index : idx_t) :
  any_finished g = true -> RepartitionBatches g min_index false = g.
Proof.
  intros H. unfold RepartitionBatches. destruct (raw_batches g); [reflexivity | ].
  rewrite H. reflexivity.
Qed.

(** What a returning [Combine] has done. *)
Lemma Combine_post (op : Operator) (g g' : GlobalState)
    (l : FixedBatchCopyLocalState) :
  Combine op g l = Ok g' ->
  rows_copied g' = wrap (rows_copied g + local_rows_copied l)
  /\ any_finished g' = true
  /\ (exists m, partition_min_batch_index l = Some m
                /\ min_batch_index g' = Z.max (min_batch_index g) m)
  /\ task_queue g' = []
  /\ raw_batches g' = raw_batches g
  /\ (forall min_index, RepartitionBatches g' min_index false = g')
  /\ (flush_order_ok g -> flush_order_ok g').
Proof.
  unfold Combine. intros H. cbv zeta in H.
  destruct (partition_min_batch_index l) as [m | ]; cbn [GetIndex bind] in H;
    [ | discriminate].
  set (g1 := set_rows_copied (wrap (rows_copied g + local_rows_copied l)) g) in *.
  set (g2 := if negb (any_finished g1) then set_any_finished true g1 else g1) in *.
  assert (H2 : any_finished g2 = true /\ rows_copied g2 = wrap (rows_copied g
                                                                + local_rows_copied l)
               /\ min_batch_index g2 = min_batch_index g
               /\ raw_batches g2 = raw_batches g
               /\ flush_trace g2 = flush_trace g
               /\ flushed_batch_index g2 = flushed_batch_index g).
  { subst g2 g1. cbn. destruct (any_finished g) eqn:Hfin; cbn; rewrite ?Hfin; auto 10. }
  destruct H2 as [Hfin [Hrows [Hmin [Hraw [Htr Hfb]]]]].
  pose proof (UpdateMinBatchIndex_min g2 m) as Hmax.
  destruct (UpdateMinBatchIndex_fields g2 m) as [_ [Htr3 [Hfb3 [_ [Hraw3 [Hfin3 Hrows3]]]]]].
  pose proof (ExecuteTasks_fields _ _ _ H) as [Hm4 Hq4].
  unfold ExecuteTasks in H. apply ExecuteTasks_loop_frame in H.
  destruct H as [Hf4 Ho4]. unfold tasks_frame in Hf4.
  assert (Hfin' : any_finished g' = true).
  { transitivity (any_finished (UpdateMinBatchIndex g2 m)); [tauto | congruence]. }
  repeat apply conj.
  - transitivity (rows_copied (UpdateMinBatchIndex g2 m)); [tauto | congruence].
  - exact Hfin'.
  - exists m. split; [reflexivity | ]. rewrite Hm4, Hmax, Hmin. reflexivity.
  - exact Hq4.
  - transitivity (raw_batches (UpdateMinBatchIndex g2 m)); [tauto | congruence].
  - intros min_index. apply RepartitionBatches_any_finished. exact Hfin'.
  - intros Hok. apply Ho4. eapply flush_order_ok_frame; [ | | exact Hok]; congruence.
Qed.

(** X15: a returning [Combine] has added the producer's rows to the global row
    counter, has set [any_finished], has raised [min_batch_index] to the
    producer's minimum if that is larger, and has drained the task queue.  The
    raw batches are untouched, and from then on a call of [RepartitionBatches]
    that is not final does nothing. *)
Theorem Combine_effects (op : Operator) (g g' : GlobalState)
    (l : FixedBatchCopyLocalState) :
  Combine op g l = Ok g' ->
  rows_copied g' = wrap (rows_copied g + local_rows_copied l)
  /\ any_finished g' = true
  /\ (exists m, partition_min_batch_index l = Some m
                /\ min_batch_index g' = Z.max (min_batch_index g) m)
  /\ task_queue g' = []
  /\ raw_batches g' = raw_batches g
  /\ (forall min_index, RepartitionBatches g' min_index false = g')
  /\ (flush_order_ok g -> flush_order_ok g').
Proof. apply Combine_post. Qed.

Lemma GetIndex_Ok (i : option idx_t) (v : idx_t) : GetIndex i = Ok v -> i = Some v.
Proof. destruct i; cbn; intros H; [inversion H; reflexivity | discriminate]. Qed.

Lemma AddRawBatchData_post (g g' : GlobalState) (k : idx_t) (c : ColumnDataCollection) :
  AddRawBatchData g k c = Ok g' ->
  g' = set_raw_batches (fst (OrderedMap.insert k c (raw_batches g))) g
  /\ snd (OrderedMap.insert k c (raw_batches g)) = true.
Proof.
  unfold AddRawBatchData.
  destruct (OrderedMap.insert k c (raw_batches g)) as [m fresh].
  destruct fresh; cbn; intros H; [inversion H; auto | discriminate].
Qed.

(** What a returning [NextBatch] has done. *)
Lemma NextBatch_post (op : Operator) (g g' : GlobalState)
    (l l' : FixedBatchCopyLocalState) :
  NextBatch op g l = Ok (g', l') ->
  exists m index,
    partition_min_batch_index l = Some m
    /\ partition_batch_index l = Some index
    /\ l' = fresh_batch index l
    /\ min_batch_index g' = Z.max (min_batch_index g) m
    /\ rows_copied g' = rows_copied g
    /\ any_finished g' = any_finished g
    /\ (flush_order_ok g -> flush_order_ok g')
    /\ (Count (held l) <= 0 -> g' = UpdateMinBatchIndex g m)
    /\ (0 < Count (held l) ->
        exists k, batch_index l = Some k
                  /\ snd (OrderedMap.insert k (held l) (raw_batches g)) = true).
Proof.
  unfold NextBatch. intros H.
  apply bind_Ok_inv in H. destruct H as [[g1 l1] [H1 H]].
  assert (P : (l1 = l \/ l1 = set_collection None l)
              /\ min_batch_index g1 = min_batch_index g
              /\ rows_copied g1 = rows_copied g
              /\ any_finished g1 = any_finished g
              /\ (flush_order_ok g -> flush_order_ok g1)
              /\ (Count (held l) <= 0 -> g1 = g)
              /\ (0 < Count (held l) ->
                  exists k, batch_index l = Some k
                            /\ snd (OrderedMap.insert k (held l) (raw_batches g)) = true)).
  { unfold held. destruct (collection l) as [c | ] eqn:Hc.
    - destruct (Count c >? 0) eqn:Hpos.
      + apply bind_Ok_inv in H1. destruct H1 as [m [Hm H1]].
        apply bind_Ok_inv in H1. destruct H1 as [k [Hk H1]].
        apply bind_Ok_inv in H1. destruct H1 as [g2 [Hadd H1]].
        apply GetIndex_Ok in Hk.
        apply AddRawBatchData_post in Hadd. destruct Hadd as [Hg2 Hfresh].
        cbv zeta in H1.
        destruct (RepartitionBatches_fields g2 m false) as [Rm [Rt [Rf [Ra [Rr _]]]]].
        set (g3 := RepartitionBatches g2 m false) in *.
        assert (F3 : min_batch_index g3 = min_batch_index g
                     /\ rows_copied g3 = rows_copied g
                     /\ any_finished g3 = any_finished g
                     /\ flush_trace g3 = flush_trace g
                     /\ flushed_batch_index g3 = flushed_batch_index g).
        { rewrite Rm, Rt, Rf, Ra, Rr, Hg2. cbn. auto. }
        clearbody g3. clear Rm Rt Rf Ra Rr.
        destruct F3 as [Fm [Fr [Fa [Ft Ff]]]].
        assert (Hlast : (Count c <= 0 -> g1 = g)
                        /\ (0 < Count c ->
                            exists k0, batch_index l = Some k0
                                       /\ snd (OrderedMap.insert k0 c (raw_batches g)) = true)).
        { split; [apply Z.gtb_lt in Hpos; lia | intros _; exists k; auto]. }
        unfold UnblockTasks, UnblockTasksInternal in H1.
        destruct (blocked_tasks g3) eqn:Hb; cbn [negb] in H1.
        * apply bind_Ok_inv in H1. destruct H1 as [[executed g4] [Hex H1]].
          apply bind_Ok_inv in H1. destruct H1 as [g5 [Hfl H1]].
          inversion H1; subst g5 l1.
          apply ExecuteTask_frame in Hex. destruct Hex as [F4 O4].
          pose proof (FlushBatchData_flush_order _ _ _ _ Hfl) as O5.
          apply FlushBatchData_frame in Hfl. destruct Hfl as [F5 _].
          unfold tasks_frame in F4, F5.
          repeat apply conj; try tauto; try congruence.
          -- transitivity (min_batch_index g4); [tauto | ].
             transitivity (min_batch_index g3); tauto.
          -- transitivity (rows_copied g4); [tauto | ].
             transitivity (rows_copied g3); tauto.
          -- transitivity (any_finished g4); [tauto | ].
             transitivity (any_finished g3); tauto.
          -- intros Hok. apply O5, O4.
             eapply flush_order_ok_frame; [exact Ft | exact Ff | exact Hok].
        * inversion H1; subst g1 l1. cbn.
          repeat apply conj; try tauto; try congruence.
          intros Hok. eapply flush_order_ok_frame; [ | | exact Hok]; cbn; assumption.
      + inversion H1; subst g1 l1.
        repeat apply conj; auto.
        intros Hgt. apply Z.gtb_lt in Hgt. congruence.
    - inversion H1; subst g1 l1.
      repeat apply conj; auto. cbn. lia. }
  destruct P as [Hl1 [Pm [Pr [Pa [Po [Pz Pk]]]]]].
  apply bind_Ok_inv in H. destruct H as [m [Hm H]].
  cbv zeta in H.
  apply bind_Ok_inv in H. destruct H as [index [Hi H]].
  apply GetIndex_Ok in Hm. apply GetIndex_Ok in Hi.
  inversion H; subst g' l'. clear H.
  destruct (UpdateMinBatchIndex_fields g1 m) as [_ [Ut [Uf [_ [_ [Ua Ur]]]]]].
  exists m, index.
  assert (Hpm : partition_min_batch_index l = Some m)
    by (destruct Hl1 as [-> | ->]; exact Hm).
  assert (Hpi : partition_batch_index l = Some index)
    by (destruct Hl1 as [-> | ->]; exact Hi).
  repeat apply conj; auto.
  - destruct Hl1 as [-> | ->]; reflexivity.
  - rewrite UpdateMinBatchIndex_min, Pm. reflexivity.
  - congruence.
  - congruence.
  - intros Hok. eapply flush_order_ok_frame; [exact Ut | exact Uf | auto].
  - intros Hz. rewrite (Pz Hz). reflexivity.
Qed.

(** X16: a returning [NextBatch] hands the producer an empty collection for
    the batch its partition info names, with no memory charged and its row
    counter untouched, and raises [min_batch_index] to the producer's minimum
    if that is larger.  A producer that held no rows changes nothing else in
    the global state; one that held rows had a batch index that was not yet a
    key of the raw batches.  The global row counter and an in-order flush
    history are kept. *)
Theorem NextBatch_starts_fresh_batch (op : Operator) (g g' : GlobalState)
    (l l' : FixedBatchCopyLocalState) :
  NextBatch op g l = Ok (g', l') ->
  exists m index,
    partition_min_batch_index l = Some m
    /\ partition_batch_index l = Some index
    /\ l' = fresh_batch index l
    /\ collection l' = Some []
    /\ local_memory_usage l' = 0
    /\ batch_index l' = Some index
    /\ local_rows_copied l' = local_rows_copied l
    /\ min_batch_index g' = Z.max (min_batch_index g) m
    /\ rows_copied g' = rows_copied g
    /\ (flush_order_ok g -> flush_order_ok g')
    /\ (Count (held l) <= 0 -> g' = UpdateMinBatchIndex g m)
    /\ (0 < Count (held l) -> OrderedMap.sorted (raw_batches g) ->
        exists k, batch_index l = Some k /\ ~ In k (OrderedMap.keys (raw_batches g))).
Proof.
  intros H. apply NextBatch_post in H.
  destruct H as [m [index [Hm [Hi [Hl [Hmin [Hr [_ [Ho [Hz Hk]]]]]]]]]].
  exists m, index. subst l'.
  repeat apply conj; auto.
  intros Hpos Hsorted. destruct (Hk Hpos) as [k [Hb Hfresh]].
  exists k. split; [exact Hb | ].
  intros Hin. apply (insert_fresh_iff k (held l)) in Hin; [ | exact Hsorted].
  congruence.
Qed.

(** X17: a producer that holds rows for a batch index that is already a key
    of the raw batches makes [NextBatch] throw the duplicate-batch-index
    error. *)
Theorem NextBatch_duplicate_batch_index (op : Operator) (g : GlobalState)
    (l : FixedBatchCopyLocalState) (m k : idx_t) :
  0 < Count (held l) ->
  partition_min_batch_index l = Some m ->
  batch_index l = Some k ->
  OrderedMap.sorted (raw_batches g) ->
  In k (OrderedMap.keys (raw_batches g)) ->
  NextBatch op g l = Throw duplicate_batch_index_error.
Proof.
  intros Hpos Hm Hk Hsorted Hin. unfold NextBatch, held in *.
  destruct (collection l) as [c | ]; [ | cbn in Hpos; lia].
  apply Z.gtb_lt in Hpos. rewrite Hpos, Hm, Hk. cbn [GetIndex bind].
  unfold AddRawBatchData.
  apply (insert_fresh_iff k c) in Hin; [ | exact Hsorted].
  destruct (OrderedMap.insert k c (raw_batches g)) as [map fresh].
  cbn [snd] in Hin. subst fresh. reflexivity.
Qed.

(** ** The sink interface as a whole *)

Lemma MaxThreads_state (g g' : GlobalState) (source_max_threads threads : idx_t) :
  MaxThreads g source_max_threads = Ok (threads, g') ->
  g' = SetMemorySize g (wrap (source_max_threads * minimum_memory_per_thread g)).
Proof.
  unfold MaxThreads. cbv zeta.
  destruct (minimum_memory_per_thread _ =? 0); intros H; [discriminate | ].
  inversion H; reflexivity.
Qed.

Lemma sink_step_invariant (op : Operator) (g g' : GlobalState) :
  sink_step op g g' ->
  min_batch_index g <= min_batch_index g' /\ (flush_order_ok g -> flush_order_ok g').
Proof.
  intros Hstep. destruct Hstep as
      [g n t g' H | fuel av g l chunk st r g' l' H | g l g' l' H | g l g' H
       | g r ins g' H | g g' H].
  - apply MaxThreads_state in H. subst g'.
    pose proof (SetMemorySize_memory_frame g (wrap (n * minimum_memory_per_thread g))) as F.
    unfold memory_frame in F. split; [lia | ].
    apply flush_order_ok_frame; tauto.
  - apply Sink_spec in H. tauto.
  - apply NextBatch_post in H.
    destruct H as [m [index [_ [_ [_ [Hmin [_ [_ [Ho _]]]]]]]]]. split; [lia | exact Ho].
  - apply Combine_post in H.
    destruct H as [_ [_ [[m [_ Hmin]] [_ [_ [_ Ho]]]]]]. split; [lia | exact Ho].
  - apply Finalize_post in H. destruct H as [_ [_ [_ [_ [Ho Hmin]]]]]. split; [lia | exact Ho].
  - apply ProcessRemainingBatchesEvent_post in H.
    destruct H as [_ [_ [_ [Ho Hmin]]]]. split; [lia | exact Ho].
Qed.

Lemma SetMemorySize_available (g : GlobalState) (size : idx_t) :
  let request := Z.min size (GetQueryMaxMemory (context g) / 4) in
  let granted := GetReservation (SetRemainingSize (memory_state g) request) in
  available_memory (SetMemorySize g size)
  = (if request <=? available_memory g then available_memory g else granted)
  /\ memory_state (SetMemorySize g size)
     = (if request <=? available_memory g then memory_state g
        else SetRemainingSize (memory_state g) request)
  /\ can_increase_memory (SetMemorySize g size)
     = (if request <=? available_memory g then can_increase_memory g
        else if available_memory g >=? granted then false else can_increase_memory g).
Proof.
  cbv zeta. unfold SetMemorySize. cbv zeta.
  destruct (Z.min size (GetQueryMaxMemory (context g) / 4) <=? available_memory g);
    [auto | ].
  cbn [set_memory_state available_memory memory_state].
  match goal with
  | |- context [if ?b then _ else _] => destruct b
  end; cbn; auto.
Qed.

(** The state [GetGlobalSinkState] returns. *)
Lemma GetGlobalSinkState_post (op : Operator) (context_p : ClientContext)
    (global_state_p : GlobalFunctionData) (memory_state_p : TemporaryMemoryState)
    (indeterminate_memory : idx_t) (g : GlobalState) :
  GetGlobalSinkState op context_p global_state_p memory_state_p indeterminate_memory = Ok g ->
  exists size_of,
    desired_batch_size (function op) = Some size_of
    /\ batch_size g = size_of (bind_data op)
    /\ minimum_memory_per_thread g
       = wrap (MINIMUM_MEMORY_PER_COLUMN_PER_THREAD * column_count op)
    /\ context g = context_p
    /\ global_state g = global_state_p
    /\ rows_copied g = 0
    /\ raw_batches g = [] /\ batch_data g = [] /\ task_queue g = []
    /\ blocked_tasks g = []
    /\ scheduled_batch_index g = 0 /\ flushed_batch_index g = 0
    /\ min_batch_index g = 0 /\ unflushed_memory_usage g = 0
    /\ any_finished g = false
    /\ flush_trace g = []
    /\ let request := Z.min (wrap (MINIMUM_MEMORY_PER_COLUMN_PER_THREAD * column_count op))
                            (GetQueryMaxMemory context_p / 4) in
       let granted := GetReservation (SetRemainingSize memory_state_p request) in
       available_memory g
       = (if request <=? indeterminate_memory then indeterminate_memory else granted)
       /\ memory_state g
          = (if request <=? indeterminate_memory then memory_state_p
             else SetRemainingSize memory_state_p request)
       /\ can_increase_memory g
          = (if request <=? indeterminate_memory then true
             else if indeterminate_memory >=? granted then false else true).
Proof.
  unfold GetGlobalSinkState. cbv zeta.
  destruct (desired_batch_size (function op)) as [size_of | ]; cbn [call bind];
    [ | discriminate].
  intros H. injection H as Hg. exists size_of. rewrite <- Hg.
  match goal with
  | |- context [SetMemorySize ?g0 ?size] =>
      pose proof (SetMemorySize_memory_frame g0 size) as F;
      pose proof (SetMemorySize_available g0 size) as A
  end.
  unfold memory_frame in F.
  cbn [context rows_copied global_state batch_size raw_batches batch_data
       scheduled_batch_index flushed_batch_index any_flushing any_finished
       memory_state minimum_memory_per_thread unflushed_memory_usage min_batch_index
       available_memory blocked_tasks can_increase_memory task_queue flush_trace
       finalized tmp_file_moved set_batch_size set_minimum_memory_per_thread] in F, A.
  cbv zeta in A.
  repeat apply conj; try reflexivity; try tauto.
Qed.

(** X18: along any sequence of returning calls of the sink interface
    ([MaxThreads], [Sink], [NextBatch], [Combine], [Finalize] and the event it
    inserts) [min_batch_index] never decreases and an in-order flush history
    stays in order.  Started from the state of [GetGlobalSinkState],
    whatever the field without initialiser held, the batches flushed so far are therefore 0, 1, 2, ... in this order, each
    once, [flushed_batch_index] is their number, and [min_batch_index] is not
    negative. *)
Theorem sink_steps_invariants (op : Operator) (g g' : GlobalState) :
  sink_steps op g g' ->
  min_batch_index g <= min_batch_index g'
  /\ (flush_order_ok g -> flush_order_ok g')
  /\ (forall context_p global_state_p memory_state_p indeterminate_memory,
         GetGlobalSinkState op context_p global_state_p memory_state_p
                            indeterminate_memory = Ok g ->
         flush_trace g'
         = map (fun i => wrap (Z.of_nat i)) (seq 0 (List.length (flush_trace g')))
         /\ flushed_batch_index g' = wrap (Z.of_nat (List.length (flush_trace g')))
         /\ 0 <= min_batch_index g').
Proof.
  intros Hsteps.
  assert (Hinv : min_batch_index g <= min_batch_index g'
                 /\ (flush_order_ok g -> flush_order_ok g')).
  { induction Hsteps as [g | g g1 g2 Hsteps IH Hstep].
    - split; [lia | auto].
    - apply sink_step_invariant in Hstep. destruct IH, Hstep. split; [lia | auto]. }
  destruct Hinv as [Hmin Ho]. repeat apply conj; auto.
  - intros context_p global_state_p memory_state_p indeterminate_memory Hinit.
    apply GetGlobalSinkState_post in Hinit.
    destruct Hinit as [size_of Hinit].
    assert (Hok : flush_order_ok g).
    { unfold flush_order_ok.
      replace (flush_trace g) with (@nil idx_t) by (symmetry; tauto).
      replace (flushed_batch_index g) with 0 by (symmetry; tauto).
      split; reflexivity. }
    specialize (Ho Hok). unfold flush_order_ok in Ho.
    assert (min_batch_index g = 0) by tauto.
    repeat split; try tauto. lia.
Qed.

(** X19: an operator the constructor has accepted gets its global state:
    given what [copy_to_initialize_global] and the registration with the
    memory manager returned, [GetGlobalSinkState] returns, with the desired
    batch size the copy function names for the bind data, 4MiB per column as
    the minimum memory per thread (as a 64-bit product) and nothing queued,
    buffered or flushed.  The first [SetMemorySize] compares its request, the
    smaller of that minimum and a quarter of the query memory, with an
    [available_memory] that nothing has initialised: when the value found
    there is not below the request, no memory is requested, the broker is left
    alone and [available_memory] keeps that value; otherwise the broker is
    asked and [available_memory] is what it granted. *)
Theorem constructed_operator_global_state (function_p : Function)
    (bind_data_p : FunctionData) (use_tmp_file_p : bool) (columns : idx_t)
    (op : Operator) (context_p : ClientContext) (global_state_p : GlobalFunctionData)
    (memory_state_p : TemporaryMemoryState) (indeterminate_memory : idx_t) :
  make_PhysicalFixedBatchCopy function_p bind_data_p use_tmp_file_p columns = Ok op ->
  exists size_of g,
    desired_batch_size function_p = Some size_of
    /\ GetGlobalSinkState op context_p global_state_p memory_state_p indeterminate_memory
       = Ok g
    /\ batch_size g = size_of bind_data_p
    /\ minimum_memory_per_thread g = wrap (MINIMUM_MEMORY_PER_COLUMN_PER_THREAD * columns)
    /\ rows_copied g = 0
    /\ raw_batches g = [] /\ batch_data g = [] /\ task_queue g = []
    /\ scheduled_batch_index g = 0 /\ flushed_batch_index g = 0
    /\ min_batch_index g = 0 /\ unflushed_memory_usage g = 0
    /\ any_finished g = false
    /\ let request := Z.min (wrap (MINIMUM_MEMORY_PER_COLUMN_PER_THREAD * columns))
                            (GetQueryMaxMemory context_p / 4) in
       let granted := GetReservation (SetRemainingSize memory_state_p request) in
       (request <= indeterminate_memory ->
        available_memory g = indeterminate_memory /\ memory_state g = memory_state_p)
       /\ (indeterminate_memory < request ->
           available_memory g = granted
           /\ memory_state g = SetRemainingSize memory_state_p request
           /\ can_increase_memory g = negb (indeterminate_memory >=? granted)).
Proof.
  unfold make_PhysicalFixedBatchCopy.
  destruct (is_null (flush_batch function_p) || is_null (prepare_batch function_p)
            || is_null (desired_batch_size function_p)) eqn:Hnull; [discriminate | ].
  intros H. inversion H as [Hop]. clear H.
  apply orb_false_iff in Hnull. destruct Hnull as [_ Hsize].
  destruct (desired_batch_size function_p) as [size_of | ] eqn:Hd; [ | discriminate].
  assert (Hg : exists g, GetGlobalSinkState op context_p global_state_p memory_state_p
                                            indeterminate_memory = Ok g).
  { subst op. unfold GetGlobalSinkState. cbn [function desired_batch_size].
    rewrite Hd. cbn [call bind]. cbv zeta. eexists. reflexivity. }
  destruct Hg as [g Hg]. exists size_of, g.
  pose proof (GetGlobalSinkState_post _ _ _ _ _ _ Hg) as [size_of' P].
  subst op. cbn [function bind_data column_count] in P.
  assert (size_of' = size_of) by (destruct P as [P _]; congruence). subst size_of'.
  destruct P as [P0 [P1 [P2 [P3 [P4 [P5 [P6 [P7 [P8 [P9 [P10 [P11 [P12 [P13 [P14
                [P15 P16]]]]]]]]]]]]]]]].
  cbv zeta in P16. destruct P16 as [A [M C]].
  repeat apply conj; auto; cbv zeta.
  - intros Hle. apply Z.leb_le in Hle. rewrite Hle in A, M. auto.
  - intros Hlt. apply Z.leb_gt in Hlt. rewrite Hlt in A, M, C.
    repeat apply conj; auto.
Qed.

(** ** Memory verdict and row accounting *)

(** X20: [OutOfMemory] touches nothing but the memory request state.  In a
    regular build it answers [true] exactly when the batch is above
    [min_batch_index] and the unflushed memory still reaches the available
    memory after the call; a batch at or below the minimum, or a sink below
    its budget, makes no request at all.  With [DUCKDB_ALTERNATIVE_VERIFY] it
    answers [true] and leaves the state as it is. *)
Theorem OutOfMemory_verdict (g : GlobalState) (batch_index : idx_t) :
  let r := fst (OutOfMemory false g batch_index) in
  let g' := snd (OutOfMemory false g batch_index) in
  memory_frame g g'
  /\ (r = true <->
      min_batch_index g < batch_index
      /\ available_memory g' <= unflushed_memory_usage g')
  /\ (batch_index <= min_batch_index g \/ unflushed_memory_usage g < available_memory g ->
      g' = g)
  /\ OutOfMemory true g batch_index = (true, g).
Proof.
  cbv zeta.
  pose proof (OutOfMemory_memory_frame false g batch_index) as F.
  split; [exact F | ].
  unfold memory_frame in F.
  assert (Hu : unflushed_memory_usage (snd (OutOfMemory false g batch_index))
               = unflushed_memory_usage g) by tauto.
  clear F. revert Hu. unfold OutOfMemory.
  rewrite Z.geb_leb, Z.gtb_ltb.
  destruct (Z.leb_spec (available_memory g) (unflushed_memory_usage g)) as [Hover | Hunder];
    [destruct (Z.ltb_spec (min_batch_index g) batch_index) as [Habove | Hat] | ].
  - rewrite Z.geb_leb.
    destruct (Z.leb_spec (available_memory (IncreaseMemory g))
                         (unflushed_memory_usage (IncreaseMemory g))) as [Hstill | Hroom];
      cbn [fst snd]; intros _;
      intuition (try discriminate; try reflexivity; try lia).
  - cbn [fst snd]. intros _. intuition (try discriminate; try reflexivity; try lia).
  - cbn [fst snd]. intros _. intuition (try discriminate; try reflexivity; try lia).
Qed.

Lemma to_int64_wrap (x : Z) : to_int64 (wrap x) = to_int64 x.
Proof.
  unfold to_int64, wrap. rewrite Zplus_mod_idemp_l. reflexivity.
Qed.

Lemma producer_history_rows (op : Operator) (l : FixedBatchCopyLocalState) (rows : Z) :
  producer_history op l rows -> local_rows_copied l = wrap rows.
Proof.
  induction 1 as [ | l rows index min_index _ IH | l rows g g' l' _ IH H
                  | l rows fuel av g g' chunk st l' _ IH H
                  | l rows fuel av g g' chunk st l' _ IH H].
  - reflexivity.
  - exact IH.
  - apply NextBatch_post in H. destruct H as [m [index [_ [_ [Hl _]]]]].
    subst l'. exact IH.
  - apply Sink_spec in H. destruct H as [_ [_ Htaken]].
    unfold chunk_taken in Htaken. destruct Htaken as [_ [Hrows _]].
    rewrite Hrows, IH. apply wrap_add_wrap.
  - apply Sink_spec in H. destruct H as [_ [_ [Hrefused _]]].
    unfold chunk_refused in Hrefused. destruct Hrefused as [_ [Hrows _]].
    rewrite Hrows. exact IH.
Qed.

(** X21: the rows are counted once.  Whatever calls of [Sink] and
    [NextBatch] a producer has been through, with whatever global states, its
    [Combine] adds to the global row counter the rows of exactly the chunks
    [Sink] answered [NEED_MORE_INPUT] for, as a 64-bit sum; chunks [Sink]
    refused with [BLOCKED] are not counted.  [GetData] reports the counter as
    a signed 64-bit integer: the sum itself as long as it is below 2^63. *)
Theorem rows_copied_accounting (op : Operator) (l : FixedBatchCopyLocalState) (rows : Z)
    (g g' : GlobalState) :
  producer_history op l rows ->
  Combine op g l = Ok g' ->
  rows_copied g' = wrap (rows_copied g + rows)
  /\ GetData g' = to_int64 (rows_copied g + rows)
  /\ (0 <= rows_copied g + rows < 2 ^ 63 -> GetData g' = rows_copied g + rows).
Proof.
  intros Hhistory Hcombine.
  apply producer_history_rows in Hhistory.
  apply Combine_post in Hcombine. destruct Hcombine as [Hrows _].
  assert (Hsum : rows_copied g' = wrap (rows_copied g + rows)).
  { rewrite Hrows, Hhistory, Z.add_comm, wrap_add_wrap, Z.add_comm. reflexivity. }
  unfold GetData. rewrite Hsum, to_int64_wrap.
  repeat apply conj; try reflexivity.
  apply to_int64_small.
Qed.

(** ** The order of the batch indices *)

Lemma In_consecutive (first : Z) (n : nat) (k : Z) :
  In k (consecutive first n) <-> first <= k < first + Z.of_nat n.
Proof.
  unfold consecutive. rewrite in_map_iff. split.
  - intros [i [Hi Hin]]. apply in_seq in Hin. lia.
  - intros Hk. exists (Z.to_nat (k - first)). split; [lia | ]. apply in_seq. lia.
Qed.

Lemma NoDup_consecutive (n : nat) : forall first, NoDup (consecutive first n).
Proof.
  induction n as [ | n IH]; intros first.
  - constructor.
  - rewrite consecutive_S. constructor; [ | apply IH].
    rewrite In_consecutive. lia.
Qed.

Lemma pending_indices_app (q q' : list BatchCopyTask) :
  pending_indices (q ++ q') = pending_indices q ++ pending_indices q'.
Proof. unfold pending_indices. apply flat_map_app. Qed.

Lemma pending_indices_prepare (new : list BatchCopyTask) :
  Forall is_prepare new -> pending_indices new = map task_index new.
Proof.
  induction 1 as [ | task rest Htask _ IH]; [reflexivity | ].
  destruct task; [contradiction | ]. cbn. f_equal. exact IH.
Qed.

(** The head of the prepared batches is flushed. *)
Lemma order_ok_flush (flushed scheduled : Z) (keys pending : list idx_t) :
  order_ok flushed scheduled (flushed :: keys) pending ->
  order_ok (flushed + 1) scheduled keys pending.
Proof.
  unfold order_ok. intros [Hf [Hs [Hsorted [Hkeys [Hpending [Hnodup Hapart]]]]]].
  inversion Hsorted as [ | ? ? Hrest Hhead]; subst.
  inversion Hkeys as [ | ? ? Hfirst Hothers]; subst.
  split; [lia | ]. split; [exact Hs | ]. split; [exact Hrest | ].
  split; [ | split; [ | split; [exact Hnodup | ]]].
  - rewrite !Forall_forall in *. intros k Hk.
    specialize (Hhead k Hk). specialize (Hothers k Hk). lia.
  - rewrite !Forall_forall in *. intros k Hk.
    specialize (Hpending k Hk).
    assert (k <> flushed) by (intros ->; apply (Hapart flushed Hk); left; reflexivity).
    lia.
  - intros k Hk Hin. apply (Hapart k Hk). right. exact Hin.
Qed.

(** A pending index is prepared. *)
Lemma order_ok_prepare (flushed scheduled : Z) (keys keys' before after : list idx_t)
    (index : idx_t) :
  order_ok flushed scheduled keys (before ++ index :: after) ->
  StronglySorted Z.lt keys' ->
  (forall k, In k keys' -> k = index \/ In k keys) ->
  order_ok flushed scheduled keys' (before ++ after).
Proof.
  unfold order_ok. intros [Hf [Hs [_ [Hkeys [Hpending [Hnodup Hapart]]]]]] Hsorted Hsub.
  rewrite !Forall_forall in *.
  split; [exact Hf | ]. split; [exact Hs | ]. split; [exact Hsorted | ].
  split; [ | split; [ | split]].
  - intros k Hk. destruct (Hsub k Hk) as [-> | Hold]; [ | auto].
    apply Hpending. apply in_elt.
  - intros k Hk. apply Hpending. apply in_app_iff in Hk. apply in_app_iff.
    destruct Hk; [left | right; right]; assumption.
  - apply NoDup_remove_1 in Hnodup. exact Hnodup.
  - intros k Hk Hin. destruct (Hsub k Hin) as [-> | Hold].
    + apply NoDup_remove_2 in Hnodup. contradiction.
    + apply (Hapart k); [ | exact Hold].
      apply in_app_iff in Hk. apply in_app_iff.
      destruct Hk; [left | right; right]; assumption.
Qed.

(** The next [n] indices are scheduled. *)
Lemma order_ok_schedule (flushed scheduled : Z) (keys pending : list idx_t) (n : nat) :
  order_ok flushed scheduled keys pending ->
  scheduled + Z.of_nat n < IDX_MODULUS ->
  order_ok flushed (scheduled + Z.of_nat n) keys (pending ++ consecutive scheduled n).
Proof.
  unfold order_ok. intros [Hf [Hs [Hsorted [Hkeys [Hpending [Hnodup Hapart]]]]]] Hroom.
  rewrite !Forall_forall in *.
  split; [lia | ]. split; [lia | ]. split; [exact Hsorted | ].
  split; [ | split; [ | split]].
  - intros k Hk. specialize (Hkeys k Hk). lia.
  - intros k Hk. apply in_app_iff in Hk. destruct Hk as [Hk | Hk].
    + specialize (Hpending k Hk). lia.
    + apply In_consecutive in Hk. lia.
  - apply NoDup_app; [exact Hnodup | apply NoDup_consecutive | ].
    intros k Hk Hnew. apply In_consecutive in Hnew. specialize (Hpending k Hk). lia.
  - intros k Hk Hin. apply in_app_iff in Hk. destruct Hk as [Hk | Hk].
    + apply (Hapart k Hk Hin).
    + apply In_consecutive in Hk. specialize (Hkeys k Hin). lia.
Qed.

Lemma batch_order_ok_frame (g g' : GlobalState) :
  order_frame g g' -> batch_order_ok g -> batch_order_ok g'.
Proof.
  unfold order_frame, batch_order_ok. intros [-> [-> [-> ->]]]. auto.
Qed.

Lemma order_frame_refl (g : GlobalState) : order_frame g g.
Proof. unfold order_frame. auto. Qed.

Lemma memory_frame_order_frame (g g' : GlobalState) : memory_frame g g' -> order_frame g g'.
Proof. unfold memory_frame, order_frame. tauto. Qed.

(** *** [FlushBatchData] *)

Lemma FlushBatchData_loop_order (op : Operator) entries :
  forall g g' : GlobalState,
    FlushBatchData_loop op entries g = Ok g' ->
    order_ok (flushed_batch_index g) (scheduled_batch_index g)
             (OrderedMap.keys entries) (pending_indices (task_queue g)) ->
    batch_order_ok g'.
Proof.
  induction entries as [ | [first second] rest IH]; intros g g' H Hok.
  - cbn in H. inversion H; subst. exact Hok.
  - cbn [FlushBatchData_loop] in H.
    destruct (Z.eqb_spec first (flushed_batch_index g)) as [Heq | Hne]; cbn [negb] in H.
    + destruct (first <? flushed_batch_index g); [discriminate | ].
      apply bind_Ok_inv in H. destruct H as [flush [_ H]].
      apply bind_Ok_inv in H. destruct H as [gs [_ H]].
      apply IH in H; [exact H | ].
      cbn [flushed_batch_index scheduled_batch_index task_queue set_batch_data
           set_global_state set_flush_trace set_unflushed_memory_usage
           set_flushed_batch_index].
      subst first. cbn [OrderedMap.keys map fst] in Hok.
      apply order_ok_flush in Hok.
      rewrite wrap_small; [exact Hok | ].
      unfold order_ok in Hok. lia.
    + inversion H; subst. exact Hok.
Qed.

Lemma FlushBatchData_order (op : Operator) (g g' : GlobalState) (min_index : idx_t) :
  FlushBatchData op g min_index = Ok g' -> batch_order_ok g -> batch_order_ok g'.
Proof.
  unfold FlushBatchData. intros H Hok.
  destruct (any_flushing g); [inversion H; subst; exact Hok | ].
  apply bind_Ok_inv in H. destruct H as [g1 [Hloop H]].
  inversion H; subst. apply FlushBatchData_loop_order in Hloop; [exact Hloop | exact Hok].
Qed.

(** *** Tasks *)

Lemma Execute_order (op : Operator) (g g' : GlobalState)
    (in_flight queued : list BatchCopyTask) (task : BatchCopyTask) :
  task_queue g = in_flight ++ task :: queued ->
  Execute op task (set_task_queue (in_flight ++ queued) g) = Ok g' ->
  batch_order_ok g -> batch_order_ok g'.
Proof.
  intros Hqueue H Hok. unfold batch_order_ok in Hok. rewrite Hqueue in Hok.
  rewrite pending_indices_app in Hok.
  destruct task as [ | index c]; cbn [Execute] in H.
  - apply FlushBatchData_order in H; [exact H | ].
    unfold batch_order_ok. cbn. rewrite pending_indices_app. exact Hok.
  - apply bind_Ok_inv in H. destruct H as [prepare [_ H]].
    apply bind_Ok_inv in H. destruct H as [prepared [_ H]].
    apply bind_Ok_inv in H. destruct H as [g1 [Hadd H]].
    assert (Hg1 : batch_order_ok g1).
    { unfold AddBatchData in Hadd.
      pose proof (insert_keys index
                    {| memory_usage := SizeInBytes c; prepared_data := prepared |}
                    (batch_data (set_task_queue (in_flight ++ queued) g))) as Hkeys.
      pose proof (insert_sorted index
                    {| memory_usage := SizeInBytes c; prepared_data := prepared |}
                    (batch_data (set_task_queue (in_flight ++ queued) g))) as Hsorted.
      destruct (OrderedMap.insert _ _ _) as [m fresh].
      destruct fresh; cbn [negb] in Hadd; [ | discriminate].
      inversion Hadd; subst g1. unfold batch_order_ok. cbn.
      rewrite pending_indices_app.
      cbn [pending_indices flat_map app] in Hok.
      eapply order_ok_prepare; [exact Hok | | exact Hkeys].
      apply Hsorted. unfold order_ok in Hok. tauto. }
    destruct (index =? flushed_batch_index g1); inversion H; subst; [ | exact Hg1].
    unfold batch_order_ok, AddTask. cbn.
    rewrite pending_indices_app. cbn. rewrite app_nil_r. exact Hg1.
Qed.

Lemma ExecuteTask_order (op : Operator) (g g' : GlobalState) (executed : bool) :
  ExecuteTask op g = Ok (executed, g') -> batch_order_ok g -> batch_order_ok g'.
Proof.
  unfold ExecuteTask, GetTask. intros H Hok.
  destruct (task_queue g) as [ | task queued] eqn:Hqueue.
  - inversion H; subst. exact Hok.
  - apply bind_Ok_inv in H. destruct H as [g1 [Hex H]]. inversion H; subst.
    eapply (Execute_order op g g' [] queued task); eauto.
Qed.

Lemma ExecuteTasks_loop_order (op : Operator) (fuel : nat) :
  forall g g' : GlobalState,
    ExecuteTasks_loop fuel op g = Ok g' -> batch_order_ok g -> batch_order_ok g'.
Proof.
  induction fuel as [ | fuel IH]; intros g g' H Hok; [discriminate | ].
  cbn [ExecuteTasks_loop] in H.
  apply bind_Ok_inv in H. destruct H as [[executed g1] [Hex H]].
  apply ExecuteTask_order in Hex; [ | exact Hok].
  destruct executed; [eapply IH; eauto | inversion H; subst; exact Hex].
Qed.

Lemma ProcessRemainingBatchesTask_loop_order (op : Operator) (fuel : nat) :
  forall g g' : GlobalState,
    ProcessRemainingBatchesTask_loop fuel op g = Ok g' ->
    batch_order_ok g -> batch_order_ok g'.
Proof.
  induction fuel as [ | fuel IH]; intros g g' H Hok; [discriminate | ].
  cbn [ProcessRemainingBatchesTask_loop] in H.
  apply bind_Ok_inv in H. destruct H as [[executed g1] [Hex H]].
  apply ExecuteTask_order in Hex; [ | exact Hok].
  destruct executed; [ | inversion H; subst; exact Hex].
  apply bind_Ok_inv in H. destruct H as [g2 [Hfl H]].
  apply FlushBatchData_order in Hfl; [ | exact Hex].
  eapply IH; eauto.
Qed.

(** *** Scheduling *)

Lemma RepartitionBatches_order (g : GlobalState) (min_index : idx_t) (final : bool) :
  batch_order_ok g ->
  scheduled_batch_index g + TaskCount (RepartitionBatches g min_index final) < IDX_MODULUS ->
  batch_order_ok (RepartitionBatches g min_index final).
Proof.
  intros Hok Hroom.
  destruct (RepartitionBatches_post g min_index final)
    as [Hframe [new [Hqueue [Hprepare [Hnumbered _]]]]].
  unfold repartition_frame in Hframe. unfold batch_order_ok in *.
  unfold TaskCount in Hroom. rewrite Hqueue, length_app in Hroom.
  destruct Hnumbered as [Hindices Hscheduled];
    [unfold order_ok in Hok; lia | lia | ].
  rewrite Hqueue, pending_indices_app, (pending_indices_prepare new Hprepare).
  rewrite Hindices, Hscheduled.
  replace (batch_data (RepartitionBatches g min_index final)) with (batch_data g)
    by (symmetry; tauto).
  replace (flushed_batch_index (RepartitionBatches g min_index final))
    with (flushed_batch_index g) by (symmetry; tauto).
  apply order_ok_schedule; [exact Hok | lia].
Qed.

Lemma ExecuteTask_queue_length (op : Operator) (g g' : GlobalState) (executed : bool) :
  ExecuteTask op g = Ok (executed, g') ->
  (List.length (task_queue g) <= S (List.length (task_queue g')))%nat.
Proof.
  unfold ExecuteTask, GetTask. intros H.
  destruct (task_queue g) as [ | task queued] eqn:Hqueue; [cbn; lia | ].
  apply bind_Ok_inv in H. destruct H as [g1 [Hex H]]. inversion H; subst.
  destruct task as [ | index c]; cbn [Execute] in Hex.
  - apply FlushBatchData_fields in Hex. destruct Hex as [Hq _].
    rewrite Hq. cbn. lia.
  - apply bind_Ok_inv in Hex. destruct Hex as [prepare [_ Hex]].
    apply bind_Ok_inv in Hex. destruct Hex as [prepared [_ Hex]].
    apply bind_Ok_inv in Hex. destruct Hex as [g2 [Hadd Hex]].
    apply AddBatchData_fields in Hadd. destruct Hadd as [Hq _].
    destruct (index =? flushed_batch_index g2); inversion Hex; subst;
      unfold AddTask; cbn; rewrite ?length_app, Hq; cbn; lia.
Qed.

(** *** The sink interface *)

Lemma UpdateMinBatchIndex_order_frame (g : GlobalState) (current_min_batch_index : idx_t) :
  order_frame g (UpdateMinBatchIndex g current_min_batch_index).
Proof.
  unfold UpdateMinBatchIndex, UnblockTasksInternal, order_frame.
  destruct (_ >=? _); [auto | ].
  destruct (negb _); [ | auto].
  cbn [blocked_tasks set_min_batch_index]. destruct (blocked_tasks g); cbn; auto.
Qed.

Lemma Sink_append_order_frame (g g' : GlobalState) (l l' : FixedBatchCopyLocalState)
    (b : idx_t) (chunk : DataChunk) (r : SinkResultType) :
  Sink_append g l b chunk = Ok (r, g', l') -> order_frame g g'.
Proof.
  unfold Sink_append, order_frame. cbv zeta.
  destruct (_ >? _); [ | destruct (_ <? _)];
    intros H; inversion H; subst; cbn; auto.
Qed.

Lemma Sink_order (fuel : nat) (alternative_verify : bool) (op : Operator) (chunk : DataChunk)
    (interrupt_state : InterruptState) :
  forall (g : GlobalState) (l : FixedBatchCopyLocalState) r g' l',
    Sink fuel alternative_verify op g l chunk interrupt_state = Ok (r, g', l') ->
    batch_order_ok g -> batch_order_ok g'.
Proof.
  induction fuel as [ | fuel IH]; intros g l r g' l' H Hok; [discriminate | ].
  cbn [Sink] in H.
  destruct (partition_batch_index l) as [b | ] eqn:Hb; cbn [GetIndex bind] in H;
    [ | discriminate].
  assert (Htail : forall (g1 : GlobalState) (l1 : FixedBatchCopyLocalState),
             batch_order_ok g1 ->
             (if b >? min_batch_index g1 then
                partition_min <- GetIndex (partition_min_batch_index l1) ;;
                let g := UpdateMinBatchIndex g1 partition_min in
                let (out_of_memory, g) := OutOfMemory alternative_verify g b in
                if out_of_memory
                then Sink fuel alternative_verify op g
                          (set_current_task PROCESSING_TASKS l1) chunk interrupt_state
                else Sink_append g l1 b chunk
              else Sink_append g1 l1 b chunk) = Ok (r, g', l') ->
             batch_order_ok g').
  { intros g1 l1 Hok1 Ht.
    destruct (b >? min_batch_index g1).
    - destruct (partition_min_batch_index l1) as [pm | ]; cbn [GetIndex bind] in Ht;
        [ | discriminate].
      pose proof (UpdateMinBatchIndex_order_frame g1 pm) as Hupdate.
      pose proof (OutOfMemory_memory_frame alternative_verify
                    (UpdateMinBatchIndex g1 pm) b) as Hmem.
      destruct (OutOfMemory alternative_verify (UpdateMinBatchIndex g1 pm) b)
        as [oom g2]. cbn [snd] in Hmem. apply memory_frame_order_frame in Hmem.
      assert (Hok2 : batch_order_ok g2).
      { eapply batch_order_ok_frame; [exact Hmem | ].
        eapply batch_order_ok_frame; [exact Hupdate | exact Hok1]. }
      destruct oom.
      + exact (IH _ _ _ _ _ Ht Hok2).
      + apply Sink_append_order_frame in Ht.
        exact (batch_order_ok_frame _ _ Ht Hok2).
    - apply Sink_append_order_frame in Ht.
      exact (batch_order_ok_frame _ _ Ht Hok1). }
  destruct (current_task l).
  - cbn [bind] in H. exact (Htail _ _ Hok H).
  - apply bind_Ok_inv in H. destruct H as [[[blocked g1] l1] [Hphase H]].
    apply bind_Ok_inv in Hphase. destruct Hphase as [ga [Hex Hphase]].
    apply bind_Ok_inv in Hphase. destruct Hphase as [gb [Hfl Hphase]].
    unfold ExecuteTasks in Hex. apply ExecuteTasks_loop_order in Hex; [ | exact Hok].
    apply FlushBatchData_order in Hfl; [ | exact Hex].
    destruct (b >? min_batch_index gb).
    + pose proof (OutOfMemory_memory_frame alternative_verify gb b) as Hmem.
      destruct (OutOfMemory alternative_verify gb b) as [oom gc].
      cbn [snd] in Hmem. apply memory_frame_order_frame in Hmem.
      assert (Hokc : batch_order_ok gc)
        by (eapply batch_order_ok_frame; [exact Hmem | exact Hfl]).
      destruct (oom && (b >? min_batch_index gc)).
      * inversion Hphase; subst blocked g1 l1. inversion H; subst r g' l'.
        eapply batch_order_ok_frame; [ | exact Hokc].
        unfold order_frame, BlockTask. cbn. auto.
      * inversion Hphase; subst blocked g1 l1. exact (Htail _ _ Hokc H).
    + inversion Hphase; subst blocked g1 l1. exact (Htail _ _ Hfl H).
Qed.

Lemma Combine_order (op : Operator) (g g' : GlobalState) (l : FixedBatchCopyLocalState) :
  Combine op g l = Ok g' -> batch_order_ok g -> batch_order_ok g'.
Proof.
  unfold Combine. intros H Hok. cbv zeta in H.
  destruct (partition_min_batch_index l) as [m | ]; cbn [GetIndex bind] in H;
    [ | discriminate].
  unfold ExecuteTasks in H. apply ExecuteTasks_loop_order in H; [exact H | ].
  eapply batch_order_ok_frame; [apply UpdateMinBatchIndex_order_frame | ].
  eapply batch_order_ok_frame; [ | exact Hok].
  unfold order_frame. destruct (negb _); cbn; auto.
Qed.

Lemma FinalFlush_order (op : Operator) (g g' : GlobalState) :
  FinalFlush op g = Ok g' -> batch_order_ok g -> batch_order_ok g'.
Proof.
  unfold FinalFlush. intros H Hok.
  destruct (negb (TaskCount g =? 0)); [discriminate | ]. cbv zeta in H.
  apply bind_Ok_inv in H. destruct H as [g1 [Hfl H]].
  apply FlushBatchData_order in Hfl; [ | exact Hok].
  destruct (negb (_ =? _)); [discriminate | ].
  destruct (copy_to_finalize (function op)) as [finalize | ].
  - apply bind_Ok_inv in H. destruct H as [gs [_ H]].
    eapply batch_order_ok_frame; [ | exact Hfl].
    destruct (use_tmp_file op); inversion H; subst; unfold order_frame; cbn; auto.
  - inversion H; subst. exact Hfl.
Qed.

Lemma run_event_tasks_order (op : Operator) (threads : nat) :
  forall g g' : GlobalState,
    run_event_tasks threads op g = Ok g' -> batch_order_ok g -> batch_order_ok g'.
Proof.
  induction threads as [ | threads IH]; intros g g' H Hok.
  - cbn in H. inversion H; subst. exact Hok.
  - cbn [run_event_tasks] in H.
    apply bind_Ok_inv in H. destruct H as [g1 [Htask H]].
    unfold ProcessRemainingBatchesTask in Htask.
    apply ProcessRemainingBatchesTask_loop_order in Htask; [ | exact Hok].
    eapply IH; eauto.
Qed.

Lemma Finalize_order (op : Operator) (g g' : GlobalState) (r : SinkFinalizeType)
    (inserted : bool) :
  Finalize op g = Ok (r, inserted, g') -> counter_fits g g' ->
  batch_order_ok g -> batch_order_ok g'.
Proof.
  unfold Finalize, counter_fits. intros H Hroom Hok. cbv zeta in H.
  assert (Hnn : forall g0 : GlobalState, 0 <= TaskCount g0) by (intros; unfold TaskCount; lia).
  destruct (Z.leb_spec (TaskCount (RepartitionBatches g INT64_MAXIMUM true)) 1) as [Hfew | Hmany].
  - apply bind_Ok_inv in H. destruct H as [g1 [Hex H]].
    apply bind_Ok_inv in H. destruct H as [g2 [Hff H]].
    inversion H; subst.
    apply FinalFlush_order in Hff; [exact Hff | ].
    unfold ExecuteTasks in Hex. apply ExecuteTasks_loop_order in Hex; [exact Hex | ].
    apply RepartitionBatches_order; [exact Hok | ].
    specialize (Hnn g'). lia.
  - inversion H; subst.
    apply RepartitionBatches_order; [exact Hok | lia].
Qed.

Lemma NextBatch_order (op : Operator) (g g' : GlobalState)
    (l l' : FixedBatchCopyLocalState) :
  NextBatch op g l = Ok (g', l') -> counter_fits g g' ->
  batch_order_ok g -> batch_order_ok g'.
Proof.
  unfold NextBatch, counter_fits. intros H Hroom Hok.
  apply bind_Ok_inv in H. destruct H as [[g1 l1] [H1 H]].
  apply bind_Ok_inv in H. destruct H as [m [_ H]]. cbv zeta in H.
  apply bind_Ok_inv in H. destruct H as [index [_ H]].
  inversion H; subst g' l'. clear H.
  pose proof (UpdateMinBatchIndex_order_frame g1 m) as Hupdate.
  assert (Hcount : TaskCount (UpdateMinBatchIndex g1 m) = TaskCount g1).
  { unfold TaskCount. unfold order_frame in Hupdate.
    destruct Hupdate as [_ [_ [_ ->]]]. reflexivity. }
  rewrite Hcount in Hroom.
  eapply batch_order_ok_frame; [exact Hupdate | ].
  destruct (collection l) as [held | ]; [ | inversion H1; subst; exact Hok].
  destruct (Count held >? 0); [ | inversion H1; subst; exact Hok].
  apply bind_Ok_inv in H1. destruct H1 as [min_l [_ H1]].
  apply bind_Ok_inv in H1. destruct H1 as [k [_ H1]].
  apply bind_Ok_inv in H1. destruct H1 as [g2 [Hadd H1]].
  apply AddRawBatchData_post in Hadd. destruct Hadd as [Hg2 _].
  cbv zeta in H1.
  assert (Hok2 : batch_order_ok g2).
  { eapply batch_order_ok_frame; [ | exact Hok].
    rewrite Hg2. unfold order_frame. cbn. auto. }
  assert (Hs2 : scheduled_batch_index g2 = scheduled_batch_index g)
    by (rewrite Hg2; reflexivity).
  set (g3 := RepartitionBatches g2 min_l false) in *.
  unfold UnblockTasks, UnblockTasksInternal in H1.
  destruct (blocked_tasks g3) eqn:Hblocked; cbn [negb] in H1.
  - apply bind_Ok_inv in H1. destruct H1 as [[executed g4] [Hex H1]].
    apply bind_Ok_inv in H1. destruct H1 as [g5 [Hfl H1]].
    inversion H1; subst g5 l1.
    pose proof (ExecuteTask_queue_length _ _ _ _ Hex) as Hlen.
    pose proof (FlushBatchData_fields _ _ _ _ Hfl) as [Hq _].
    apply FlushBatchData_order in Hfl; [exact Hfl | ].
    apply ExecuteTask_order in Hex; [exact Hex | ].
    apply RepartitionBatches_order; [exact Hok2 | ].
    fold g3. unfold TaskCount in *. rewrite Hq in Hroom. lia.
  - inversion H1; subst g1 l1.
    eapply batch_order_ok_frame;
      [ | apply (RepartitionBatches_order g2 min_l false Hok2)].
    + unfold order_frame. cbn. auto.
    + fold g3. unfold TaskCount in *.
      change (task_queue (set_blocked_tasks [] g3)) with (task_queue g3) in Hroom. lia.
Qed.

Lemma sink_step_order (op : Operator) (g g' : GlobalState) :
  sink_step op g g' -> counter_fits g g' -> batch_order_ok g -> batch_order_ok g'.
Proof.
  intros Hstep Hroom Hok. destruct Hstep as
      [g n t g' H | fuel av g l chunk st r g' l' H | g l g' l' H | g l g' H
       | g r ins g' H | g g' H].
  - apply MaxThreads_state in H. subst g'.
    eapply batch_order_ok_frame; [ | exact Hok].
    apply memory_frame_order_frame, SetMemorySize_memory_frame.
  - eapply Sink_order; eauto.
  - eapply NextBatch_order; eauto.
  - eapply Combine_order; eauto.
  - eapply Finalize_order; eauto.
  - unfold ProcessRemainingBatchesEvent in H.
    apply bind_Ok_inv in H. destruct H as [g1 [Hrun H]].
    apply run_event_tasks_order in Hrun; [ | exact Hok].
    eapply FinalFlush_order; eauto.
Qed.

Lemma operator_state_order (op : Operator) (g : GlobalState) :
  operator_state op g -> batch_order_ok g.
Proof.
  induction 1 as [context_p global_state_p memory_state_p start g Hinit
                 | g g' _ IH Hstep Hroom
                 | g min_index final _ IH Hroom
                 | g in_flight task queued g' _ IH Hqueue Hexec
                 | g min_index g' _ IH Hflush].
  - apply GetGlobalSinkState_post in Hinit. destruct Hinit as [size_of Hinit].
    unfold batch_order_ok.
    replace (flushed_batch_index g) with 0 by (symmetry; tauto).
    replace (scheduled_batch_index g) with 0 by (symmetry; tauto).
    replace (batch_data g) with (@nil (idx_t * FixedPreparedBatchData PreparedBatchData))
      by (symmetry; tauto).
    replace (task_queue g) with (@nil BatchCopyTask) by (symmetry; tauto).
    unfold order_ok. cbn. repeat apply conj; try constructor; try lia; try reflexivity.
  - eapply sink_step_order; eauto.
  - apply RepartitionBatches_order; [exact IH | ].
    unfold counter_fits in Hroom. lia.
  - eapply Execute_order; eauto.
  - eapply FlushBatchData_order; eauto.
Qed.


(** X22: in every state the operator passes through, the two batch counters
    and the batch indices in between are in order: [flushed_batch_index] is
    not above [scheduled_batch_index]; the prepared batches are sorted by key;
    every prepared key and every index of a queued prepare task lies in
    [flushed_batch_index, scheduled_batch_index); no index is queued twice,
    and none is both queued and prepared.  So whichever queued prepare task a
    thread finishes, [AddBatchData] takes its batch: the error for a duplicate
    batch index does not come up. *)
Theorem operator_state_batch_order (op : Operator) (g : GlobalState) :
  operator_state op g ->
  0 <= flushed_batch_index g <= scheduled_batch_index g
  /\ OrderedMap.sorted (batch_data g)
  /\ Forall (fun k => flushed_batch_index g <= k < scheduled_batch_index g)
            (OrderedMap.keys (batch_data g))
  /\ Forall (fun k => flushed_batch_index g <= k < scheduled_batch_index g)
            (pending_indices (task_queue g))
  /\ NoDup (pending_indices (task_queue g))
  /\ (forall k, In k (pending_indices (task_queue g)) ->
                ~ In k (OrderedMap.keys (batch_data g)))
  /\ (forall in_flight index c queued new_batch usage,
         task_queue g = in_flight ++ PrepareBatchTask index c :: queued ->
         exists g',
           AddBatchData (set_task_queue (in_flight ++ queued) g) index new_batch usage
           = Ok g'
           /\ lookup index (batch_data g')
              = Some {| memory_usage := usage; prepared_data := new_batch |}).
Proof.
  intros Hstate. apply operator_state_order in Hstate.
  unfold batch_order_ok, order_ok in Hstate.
  destruct Hstate as [Hf [Hs [Hsorted [Hkeys [Hpending [Hnodup Hapart]]]]]].
  repeat apply conj; try assumption; try lia.
  intros in_flight index c queued new_batch usage Hqueue.
  assert (Hin : In index (pending_indices (task_queue g))).
  { rewrite Hqueue, pending_indices_app. apply in_app_iff. right. left. reflexivity. }
  specialize (Hapart index Hin).
  unfold AddBatchData. cbn [batch_data set_task_queue].
  pose proof (insert_fresh_iff index
                {| memory_usage := usage; prepared_data := new_batch |}
                (batch_data g) Hsorted) as Hfresh.
  pose proof (insert_lookup index
                {| memory_usage := usage; prepared_data := new_batch |}
                (batch_data g)) as Hlookup.
  destruct (OrderedMap.insert index _ (batch_data g)) as [m fresh].
  cbn [fst snd] in Hfresh, Hlookup.
  destruct fresh; [ | exfalso; apply Hapart, Hfresh; reflexivity].
  cbn [negb]. eexists. split; [reflexivity | ].
  cbn. apply Hlookup. reflexivity.
Qed.

End Properties.

(** * The claims on concrete states *)

(** Outside the states the operator passes through: on a state whose smallest
    prepared key (0) is below [flushed_batch_index] (1), [FlushBatchData]
    returns normally and leaves the state as it was; the test for inequality
    ends the loop before the test that guards the throw. *)
Lemma FlushBatchData_stale_key_returns :
  (0 <? flushed_batch_index stale_state) = true
  /\ FlushBatchData mock_op stale_state 0 = Ok stale_state
  /\ FlushBatchData mock_op stale_state INT64_MAXIMUM = Ok stale_state
  /\ FinalFlush mock_op stale_state = Ok (set_finalized true stale_state).
Proof. repeat split. Qed.

(** C2, refuted as stated: a copy function whose finalize callback is null
    constructs the operator, and [FinalFlush] of that operator returns without
    the finalize step. *)
Lemma make_PhysicalFixedBatchCopy_null_finalize :
  copy_to_finalize mock_function_without_finalize = None
  /\ make_PhysicalFixedBatchCopy mock_function_without_finalize tt false 1
     = Ok {| function := mock_function_without_finalize; bind_data := tt;
             use_tmp_file := false; column_count := 1 |}
  /\ FinalFlush {| function := mock_function_without_finalize; bind_data := tt;
                   use_tmp_file := false; column_count := 1 |}
                (mock_state [] [] 0 0 [])
     = Ok (mock_state [] [] 0 0 []).
Proof. repeat split. Qed.

(** C3, refuted as stated: with the 3500 rows of batch 0 held as chunks of
    2048 and 1452 rows, the repartitioner schedules two prepare tasks, of 2048
    and of 1452 rows, and leaves no remainder; the run ends after two flushes,
    with batch indices 0 and 1. *)
Lemma oversize_collection_two_chunks :
  Count [2048; 1452] = 3500
  /\ scheduled_at_next_batch [2048; 1452]
     = Some ([PrepareBatchTask 0 [2048]; PrepareBatchTask 1 [1452]], [])
  /\ flushes_of_run [2048; 1452] false = Some ([0; 1], [2048; 1452])
  /\ flushes_of_run [2048; 1452] true = Some ([0; 1], [2048; 1452]).
Proof. repeat split; vm_compute; reflexivity. Qed.

(** C3 (as amended): with the 3500 rows of batch 0 held as chunks of 1000,
    1000, 1000 and 500 rows, the repartitioner called from [NextBatch]
    schedules four prepare tasks with batch indices 0, 1, 2, 3 and 1000, 1000,
    1000 and 500 rows and leaves no raw batch behind; the run, with or without
    [Combine], ends after exactly four flushes, with batch indices 0, 1, 2, 3,
    of 1000, 1000, 1000 and 500 rows, 3500 in all. *)
Theorem oversize_collection_run :
  Count [1000; 1000; 1000; 500] = 3500
  /\ scheduled_at_next_batch [1000; 1000; 1000; 500]
     = Some ([PrepareBatchTask 0 [1000]; PrepareBatchTask 1 [1000];
              PrepareBatchTask 2 [1000]; PrepareBatchTask 3 [500]], [])
  /\ flushes_of_run [1000; 1000; 1000; 500] false
     = Some ([0; 1; 2; 3], [1000; 1000; 1000; 500])
  /\ flushes_of_run [1000; 1000; 1000; 500] true
     = Some ([0; 1; 2; 3], [1000; 1000; 1000; 500])
  /\ fold_right Z.add 0 [1000; 1000; 1000; 500] = 3500
  /\ (exists g, single_producer_run [1000; 1000; 1000; 500] true = Ok g
                /\ rows_copied g = 3500
                /\ scheduled_batch_index g = 4 /\ flushed_batch_index g = 4
                /\ raw_batches g = [] /\ batch_data g = [] /\ task_queue g = []).
Proof.
  repeat split; try (vm_compute; reflexivity).
  eexists. split; [vm_compute; reflexivity | ].
  repeat split.
Qed.

(** C7, refuted as stated: the predicate holds, the batch index is above
    [min_batch_index] and no request has been declined, yet [OutOfMemory] makes
    no request to the broker: [min(2 * 100, 400 / 4)] is not above the 100
    bytes already granted. *)
Lemma OutOfMemory_no_request_at_cap :
  (unflushed_memory_usage capped_state >=? available_memory capped_state) = true
  /\ (1 >? min_batch_index capped_state) = true
  /\ can_increase_memory capped_state = true
  /\ Z.min (available_memory capped_state * 2)
           (GetQueryMaxMemory (context capped_state) / 4) = 100
  /\ OutOfMemory false capped_state 1 = (true, capped_state)
  /\ requests (memory_state (snd (OutOfMemory false capped_state 1))) = [].
Proof. repeat split. Qed.

(** C9: when the capped size is above [available_memory], [SetMemorySize]
    hands it to the broker and [available_memory] becomes the granted
    reservation, whatever it is; the mock broker that grants 50 bytes to a
    state holding 100 shows that [available_memory] can go down.  When the
    capped size is at most [available_memory], the state is returned as it
    was, broker state included. *)
Theorem SetMemorySize_takes_the_grant :
  (forall (G P M : Type) (B : MemoryBroker M) (g : FixedBatchCopyGlobalState G P M)
          (size : idx_t),
      let capped := Z.min size (GetQueryMaxMemory (context g) / 4) in
      (available_memory g < capped ->
       memory_state (SetMemorySize g size) = SetRemainingSize (memory_state g) capped
       /\ available_memory (SetMemorySize g size)
          = GetReservation (SetRemainingSize (memory_state g) capped))
      /\ (capped <= available_memory g -> SetMemorySize g size = g))
  /\ (available_memory shrinking_state
      < Z.min 200 (GetQueryMaxMemory (context shrinking_state) / 4)
      /\ available_memory (SetMemorySize shrinking_state 200) = 50
      /\ available_memory (SetMemorySize shrinking_state 200)
         < available_memory shrinking_state).
Proof.
  split.
  - intros G P M B g size capped. split.
    + intros H. destruct (SetMemorySize_request g size H) as [H1 [H2 _]]. auto.
    + intros H. apply SetMemorySize_no_request. exact H.
  - repeat split.
Qed.

(** ** The general theorems at concrete states *)

(** Closed facts about concrete states, by computation. *)
Ltac compute_fact :=
  vm_compute; first [reflexivity | discriminate | intro; discriminate | exact I].

(** [FinalFlush] with a task left in the queue, and with a scheduled batch
    that was never prepared. *)
Lemma FinalFlush_checks_witness :
  FinalFlush mock_op (mock_state [] [] 0 0 [RepartitionedFlushTask])
  = Throw unexecuted_tasks_error
  /\ FinalFlush mock_op (mock_state [] [] 1 0 []) = Throw incomplete_file_error.
Proof.
  split.
  - apply (proj1 (FinalFlush_checks mock_op (mock_state [] [] 0 0 [RepartitionedFlushTask]))).
    discriminate.
  - apply (proj1 (proj2 (FinalFlush_checks mock_op (mock_state [] [] 1 0 [])))
             eq_refl (mock_state [] [] 1 0 [])).
    + reflexivity.
    + discriminate.
Defined.

(** [OutOfMemory] below the cap with a broker that grants 120 bytes, at the
    cap, and after a declined request. *)
Lemma OutOfMemory_growth_witness :
  (memory_state (snd (OutOfMemory false growing_state 1))
   = SetRemainingSize (memory_state growing_state) 200
   /\ available_memory (snd (OutOfMemory false growing_state 1)) = 120
   /\ can_increase_memory (snd (OutOfMemory false growing_state 1)) = true
   /\ fst (OutOfMemory false growing_state 1) = true)
  /\ snd (OutOfMemory false capped_state 1) = capped_state
  /\ (IncreaseMemory declined_state = declined_state
      /\ snd (OutOfMemory false declined_state 1) = declined_state
      /\ forall size, can_increase_memory (SetMemorySize declined_state size) = false).
Proof.
  split; [ | split].
  - exact (proj1 (OutOfMemory_growth growing_state 1)
             ltac:(compute_fact) ltac:(compute_fact) ltac:(compute_fact)
             ltac:(compute_fact) ltac:(compute_fact) ltac:(compute_fact)).
  - exact (proj1 (proj2 (OutOfMemory_growth capped_state 1)) ltac:(compute_fact)).
  - exact (proj2 (proj2 (OutOfMemory_growth declined_state 1)) eq_refl).
Defined.

(** [SetMemorySize] with a broker that grants 50 bytes, and at the cap. *)
Lemma SetMemorySize_takes_the_grant_witness :
  (memory_state (SetMemorySize shrinking_state 200)
   = SetRemainingSize (memory_state shrinking_state) 200
   /\ available_memory (SetMemorySize shrinking_state 200) = 50)
  /\ SetMemorySize capped_state 200 = capped_state.
Proof.
  split.
  - exact (proj1 (proj1 SetMemorySize_takes_the_grant _ _ _ _ shrinking_state 200)
             ltac:(compute_fact)).
  - exact (proj2 (proj1 SetMemorySize_takes_the_grant _ _ _ _ capped_state 200)
             ltac:(compute_fact)).
Defined.

(** [MaxThreads] for eight source threads on a fresh state of one column. *)
Lemma MaxThreads_at_least_one_witness :
  exists threads g',
    MaxThreads idle_state 8 = Ok (threads, g')
    /\ 1 <= threads <= 8
    /\ threads = Z.min 8 (available_memory g' / minimum_memory_per_thread g' + 1)
    /\ 1 <= available_memory g' / minimum_memory_per_thread g' + 1.
Proof.
  exact (MaxThreads_at_least_one idle_state 8 1
           ltac:(split; compute_fact) ltac:(split; compute_fact) eq_refl
           ltac:(split; compute_fact)).
Defined.


(** [Sink] of 1000 rows by the producer of batch 0 on a fresh state. *)
Lemma Sink_min_batch_index_never_blocked_witness :
  OutOfMemory false idle_state 0 = (false, idle_state)
  /\ ((exists e, Sink 1 false mock_op idle_state first_producer 1000
                      (Interrupt 0) = Throw e)
      \/ (exists g' l', Sink 1 false mock_op idle_state first_producer 1000
                             (Interrupt 0) = Ok (NEED_MORE_INPUT, g', l')))
  /\ (forall g' l', Sink 1 false mock_op idle_state first_producer 1000
                         (Interrupt 0) <> Ok (BLOCKED, g', l')).
Proof.
  exact (Sink_min_batch_index_never_blocked 0 false mock_op idle_state
           first_producer 1000 (Interrupt 0) 0 eq_refl eq_refl).
Defined.

(** [RepartitionBatches] with 500 rows below [min_index] and a batch size of
    1000. *)
Lemma RepartitionBatches_not_final_returns_witness :
  rows_below 1 (raw_batches small_batch_state) = 500
  /\ raw_batches (RepartitionBatches small_batch_state 1 false) = [(0, [500])]
  /\ scheduled_batch_index (RepartitionBatches small_batch_state 1 false) = 0
  /\ task_queue (RepartitionBatches small_batch_state 1 false) = []
  /\ RepartitionBatches small_batch_state 1 false = small_batch_state.
Proof.
  split; [reflexivity | ].
  exact (RepartitionBatches_not_final_returns small_batch_state 1
           ltac:(repeat constructor) ltac:(repeat constructor; compute_fact)
           ltac:(compute_fact) ltac:(right; compute_fact)).
Defined.


(** ** Further theorems at concrete states *)


(** [ExecuteTasks] on a queue that holds the prepare task of batch 0. *)
Lemma ExecuteTasks_prepare_then_flush_witness :
  exists g',
    ExecuteTasks mock_op prepare_state = Ok g'
    /\ global_state g' = [[1000]]
    /\ flush_trace g' = flush_trace prepare_state ++ [flushed_batch_index prepare_state]
    /\ flushed_batch_index g' = wrap (flushed_batch_index prepare_state + 1)
    /\ unflushed_memory_usage g'
       = wrap (unflushed_memory_usage prepare_state - SizeInBytes [1000])
    /\ batch_data g' = [] /\ task_queue g' = [] /\ any_flushing g' = false
    /\ tasks_frame prepare_state g'.
Proof.
  exact (ExecuteTasks_prepare_then_flush mock_op prepare_state [1000]
           (fun _ _ c => Returns c) (fun _ log prepared => Returns (log ++ [prepared]))
           [1000] [[1000]]
           eq_refl eq_refl eq_refl eq_refl eq_refl eq_refl eq_refl).
Defined.

(** [Sink] by the producer of batch 1 on a state at the request cap. *)
Lemma Sink_blocked_refuses_chunk_witness :
  chunk_refused second_producer blocked_producer
  /\ (exists b, partition_batch_index second_producer = Some b
                /\ min_batch_index blocked_state < b)
  /\ (exists waiting, blocked_tasks blocked_state = waiting ++ [Interrupt 7])
  /\ task_queue blocked_state = [].
Proof.
  refine (Sink_blocked_refuses_chunk 2 false mock_op capped_state blocked_state
           second_producer blocked_producer 1000 (Interrupt 7) _).
  - compute_fact.
Defined.

(** [Sink] of 1000 rows by the producer of batch 0 on a fresh state. *)
Lemma Sink_need_more_input_takes_chunk_witness :
  collection sunk_producer = Some (Append (held first_producer) 1000)
  /\ local_rows_copied sunk_producer = wrap (local_rows_copied first_producer + 1000)
  /\ local_memory_usage sunk_producer = SizeInBytes (Append (held first_producer) 1000)
  /\ batch_index sunk_producer = match collection first_producer with
                                 | Some _ => batch_index first_producer
                                 | None => partition_batch_index first_producer
                                 end
  /\ current_task sunk_producer = SINKING_DATA.
Proof.
  refine (Sink_need_more_input_takes_chunk 1 false mock_op idle_state sunk_state
           first_producer sunk_producer 1000 (Interrupt 0) _).
  - compute_fact.
Defined.

(** The same call: the collection grows from nothing to 8000 bytes. *)
Lemma Sink_at_minimum_only_appends_witness :
  exists l', Sink 1 false mock_op idle_state first_producer 1000 (Interrupt 0)
             = Ok (NEED_MORE_INPUT,
                   set_unflushed_memory_usage
                     (wrap (unflushed_memory_usage idle_state + (8000 - 0))) idle_state,
                   l').
Proof.
  refine (proj2 (proj2 (Sink_at_minimum_only_appends 0 false mock_op idle_state
                         first_producer 1000 (Interrupt 0) 0
                         eq_refl _ eq_refl))
           _).
  - compute_fact.
  - compute_fact.
Defined.

(** [RepartitionBatches] on a raw batch of 2048 + 1452 rows. *)
Lemma RepartitionBatches_keeps_chunks_witness :
  exists new,
    task_queue (RepartitionBatches two_chunk_state 1 false)
    = task_queue two_chunk_state ++ new
    /\ Forall is_prepare new
    /\ List.concat (map task_collection new)
       ++ all_chunks (raw_batches (RepartitionBatches two_chunk_state 1 false))
       = all_chunks (raw_batches two_chunk_state)
    /\ Count (List.concat (map task_collection new))
       + Count (all_chunks (raw_batches (RepartitionBatches two_chunk_state 1 false)))
       = Count (all_chunks (raw_batches two_chunk_state))
    /\ OrderedMap.sorted (raw_batches (RepartitionBatches two_chunk_state 1 false)).
Proof.
  refine (RepartitionBatches_keeps_chunks two_chunk_state 1 false
           _ _).
  - repeat constructor.
  - repeat constructor.
Defined.

(** The final repartitioning of that batch. *)
Lemma RepartitionBatches_final_empties_raw_witness :
  raw_batches (RepartitionBatches two_chunk_state INT64_MAXIMUM true) = [].
Proof.
  refine (RepartitionBatches_final_empties_raw two_chunk_state INT64_MAXIMUM
           _).
  - repeat constructor.
Defined.


(** [Combine] of the producer that has sunk 1000 rows. *)
Lemma Combine_effects_witness :
  rows_copied (state_or_idle (Combine mock_op sunk_state sunk_producer))
  = wrap (rows_copied sunk_state + local_rows_copied sunk_producer)
  /\ any_finished (state_or_idle (Combine mock_op sunk_state sunk_producer)) = true
  /\ (exists m, partition_min_batch_index sunk_producer = Some m
                /\ min_batch_index (state_or_idle (Combine mock_op sunk_state sunk_producer))
                   = Z.max (min_batch_index sunk_state) m)
  /\ task_queue (state_or_idle (Combine mock_op sunk_state sunk_producer)) = []
  /\ raw_batches (state_or_idle (Combine mock_op sunk_state sunk_producer))
     = raw_batches sunk_state
  /\ (forall min_index,
         RepartitionBatches (state_or_idle (Combine mock_op sunk_state sunk_producer))
                            min_index false
         = state_or_idle (Combine mock_op sunk_state sunk_producer))
  /\ (flush_order_ok sunk_state ->
      flush_order_ok (state_or_idle (Combine mock_op sunk_state sunk_producer))).
Proof.
  refine (Combine_effects mock_op sunk_state
           (state_or_idle (Combine mock_op sunk_state sunk_producer)) sunk_producer
           _).
  - compute_fact.
Defined.

(** [NextBatch] of the producer that holds batch 0 and moves on to batch 1. *)
Lemma NextBatch_starts_fresh_batch_witness :
  exists m index,
    partition_min_batch_index holding_producer = Some m
    /\ partition_batch_index holding_producer = Some index
    /\ fresh_batch 1 holding_producer = fresh_batch index holding_producer
    /\ collection (fresh_batch 1 holding_producer) = Some []
    /\ local_memory_usage (fresh_batch 1 holding_producer) = 0
    /\ batch_index (fresh_batch 1 holding_producer) = Some index
    /\ local_rows_copied (fresh_batch 1 holding_producer)
       = local_rows_copied holding_producer
    /\ min_batch_index after_next_batch = Z.max (min_batch_index initial_state) m
    /\ rows_copied after_next_batch = rows_copied initial_state
    /\ (flush_order_ok initial_state -> flush_order_ok after_next_batch)
    /\ (Count (held holding_producer) <= 0 ->
        after_next_batch = UpdateMinBatchIndex initial_state m)
    /\ (0 < Count (held holding_producer) -> OrderedMap.sorted (raw_batches initial_state) ->
        exists k, batch_index holding_producer = Some k
                  /\ ~ In k (OrderedMap.keys (raw_batches initial_state))).
Proof.
  refine (NextBatch_starts_fresh_batch mock_op initial_state after_next_batch
           holding_producer (fresh_batch 1 holding_producer) _).
  - compute_fact.
Defined.

(** [NextBatch] of that producer on a state that holds batch 0 already. *)
Lemma NextBatch_duplicate_batch_index_witness :
  NextBatch mock_op two_chunk_state holding_producer = Throw duplicate_batch_index_error.
Proof.
  refine (NextBatch_duplicate_batch_index mock_op two_chunk_state holding_producer 1 0
           _ eq_refl eq_refl _
           _).
  - compute_fact.
  - repeat constructor.
  - left; reflexivity.
Defined.

(** The run [GetGlobalSinkState], [NextBatch], [Finalize] of the mock
    operator: batch 0 is the one flush. *)
Lemma sink_steps_invariants_witness :
  sink_steps mock_op initial_state after_finalize
  /\ min_batch_index initial_state <= min_batch_index after_finalize
  /\ (flush_order_ok initial_state -> flush_order_ok after_finalize)
  /\ (forall context_p global_state_p memory_state_p indeterminate_memory,
         GetGlobalSinkState mock_op context_p global_state_p memory_state_p
                            indeterminate_memory
         = Ok initial_state ->
         flush_trace after_finalize
         = map (fun i => wrap (Z.of_nat i))
               (seq 0 (List.length (flush_trace after_finalize)))
         /\ flushed_batch_index after_finalize
            = wrap (Z.of_nat (List.length (flush_trace after_finalize)))
         /\ 0 <= min_batch_index after_finalize).
Proof.
  assert (Hnext : NextBatch mock_op initial_state holding_producer
                  = Ok (after_next_batch, fresh_batch 1 holding_producer))
    by compute_fact.
  assert (Hfinalize : Finalize mock_op after_next_batch = Ok (READY, false, after_finalize))
    by compute_fact.
  pose proof (steps_more mock_op _ _ _
                (steps_more mock_op _ _ _ (steps_none mock_op initial_state)
                   (step_NextBatch mock_op _ _ _ _ Hnext))
                (step_Finalize mock_op _ _ _ _ Hfinalize)) as steps.
  exact (conj steps (sink_steps_invariants mock_op initial_state after_finalize steps)).
Defined.

(** The mock operator as the constructor returns it, with an
    [available_memory] that happens to hold 5 bytes, and one that holds more
    than the 4 MiB the operator would ask for. *)
Lemma constructed_operator_global_state_witness :
  (exists size_of g,
      desired_batch_size mock_function = Some size_of
      /\ GetGlobalSinkState mock_op mock_context [] (mock_memory (2 ^ 40)) 5 = Ok g
      /\ batch_size g = size_of tt
      /\ available_memory g = 4194304
      /\ requests (memory_state g) = [4194304])
  /\ (exists size_of g,
         desired_batch_size mock_function = Some size_of
         /\ GetGlobalSinkState mock_op mock_context [] (mock_memory (2 ^ 40))
                               12370169555311111083 = Ok g
         /\ batch_size g = size_of tt
         /\ available_memory g = 12370169555311111083
         /\ requests (memory_state g) = []).
Proof.
  split.
  - destruct (constructed_operator_global_state mock_function tt false 1 mock_op
                mock_context [] (mock_memory (2 ^ 40)) 5 eq_refl)
      as [size_of [g [H1 [H2 [H3 [_ [_ [_ [_ [_ [_ [_ [_ [_ [_ [Hsmall Hlarge]]]]]]]]]]]]]]]].
    exists size_of, g. cbv zeta in Hlarge.
    destruct (Hlarge ltac:(vm_compute; reflexivity)) as [H5 [H6 _]].
    repeat apply conj; auto.
    rewrite H6. reflexivity.
  - destruct (constructed_operator_global_state mock_function tt false 1 mock_op
                mock_context [] (mock_memory (2 ^ 40)) 12370169555311111083 eq_refl)
      as [size_of [g [H1 [H2 [H3 [_ [_ [_ [_ [_ [_ [_ [_ [_ [_ [Hsmall Hlarge]]]]]]]]]]]]]]]].
    exists size_of, g. cbv zeta in Hsmall.
    destruct (Hsmall ltac:(vm_compute; intro; discriminate)) as [H5 H6].
    repeat apply conj; auto.
    rewrite H6. reflexivity.
Defined.

(** The producer of batch 0 sinks 1000 rows and combines. *)
Lemma rows_copied_accounting_witness :
  producer_history mock_op sunk_producer (0 + 1000)
  /\ rows_copied (state_or_idle (Combine mock_op sunk_state sunk_producer))
     = wrap (rows_copied sunk_state + (0 + 1000))
  /\ GetData (state_or_idle (Combine mock_op sunk_state sunk_producer))
     = to_int64 (rows_copied sunk_state + (0 + 1000))
  /\ (0 <= rows_copied sunk_state + (0 + 1000) < 2 ^ 63 ->
      GetData (state_or_idle (Combine mock_op sunk_state sunk_producer))
      = rows_copied sunk_state + (0 + 1000)).
Proof.
  assert (Hsink : Sink 1 false mock_op idle_state first_producer 1000 (Interrupt 0)
                  = Ok (NEED_MORE_INPUT, sunk_state, sunk_producer))
    by compute_fact.
  assert (Hcombine : Combine mock_op sunk_state sunk_producer
                     = Ok (state_or_idle (Combine mock_op sunk_state sunk_producer)))
    by compute_fact.
  pose proof (history_Sink_taken mock_op first_producer 0 1 false idle_state sunk_state
                1000 (Interrupt 0) sunk_producer
                (history_partition mock_op GetLocalSinkState 0 0 0 (history_start mock_op))
                Hsink) as history.
  exact (conj history
           (rows_copied_accounting mock_op sunk_producer (0 + 1000) sunk_state
              (state_or_idle (Combine mock_op sunk_state sunk_producer))
              history Hcombine)).
Defined.

(** ** The order of the batches at a concrete state *)


(** The same state: batch 2 is prepared, batch 1 is queued, and the counters
    are 1 and 3. *)
Lemma operator_state_batch_order_witness :
  0 <= flushed_batch_index out_of_order_state <= scheduled_batch_index out_of_order_state
  /\ OrderedMap.sorted (batch_data out_of_order_state)
  /\ Forall (fun k => flushed_batch_index out_of_order_state <= k
                      < scheduled_batch_index out_of_order_state)
            (OrderedMap.keys (batch_data out_of_order_state))
  /\ Forall (fun k => flushed_batch_index out_of_order_state <= k
                      < scheduled_batch_index out_of_order_state)
            (pending_indices (task_queue out_of_order_state))
  /\ NoDup (pending_indices (task_queue out_of_order_state))
  /\ (forall k, In k (pending_indices (task_queue out_of_order_state)) ->
                ~ In k (OrderedMap.keys (batch_data out_of_order_state)))
  /\ (forall in_flight index c queued new_batch usage,
         task_queue out_of_order_state = in_flight ++ PrepareBatchTask index c :: queued ->
         exists g',
           AddBatchData (set_task_queue (in_flight ++ queued) out_of_order_state)
                        index new_batch usage
           = Ok g'
           /\ lookup index (batch_data g')
              = Some {| memory_usage := usage; prepared_data := new_batch |}).
Proof.
  assert (Hinit : GetGlobalSinkState mock_op mock_context [] (mock_memory (2 ^ 40)) 0
                  = Ok initial_state) by compute_fact.
  assert (Hnext : NextBatch mock_op initial_state three_chunk_producer
                  = Ok (after_three_chunks, fresh_batch 1 three_chunk_producer))
    by compute_fact.
  assert (Hroom : counter_fits initial_state after_three_chunks) by compute_fact.
  assert (Hqueue : task_queue after_three_chunks
                   = [PrepareBatchTask 1 [1000]]
                     ++ PrepareBatchTask 2 [1100] :: [RepartitionedFlushTask])
    by compute_fact.
  assert (Htask : Execute mock_op (PrepareBatchTask 2 [1100])
                    (set_task_queue ([PrepareBatchTask 1 [1000]] ++ [RepartitionedFlushTask])
                       after_three_chunks)
                  = Ok out_of_order_state) by compute_fact.
  exact (operator_state_batch_order mock_op out_of_order_state
           (state_task mock_op _ _ _ _ _
              (state_interface mock_op _ _
                 (state_initial mock_op _ _ _ _ _ Hinit)
                 (step_NextBatch mock_op _ _ _ _ Hnext) Hroom)
              Hqueue Htask)).
Defined.
